(** * rpnlogic: the postfix rule compiler and its stack machine

    A shallow embedding of [src/rpnlogic.c].  A rule such as
    [${in} 5 ondelay] is compiled by [rpn_parse] into a linked chain of
    [struct rpn] nodes and evaluated by [rpn_run] against a [struct stack]
    of doubles.

    - C [double] is Rocq's primitive binary64 [float];
    - C [int] is [Z]; the values that occur stay inside the 32-bit range;
    - [struct stack] is a record with the array [v], the fill level [n]
      and the allocated size [s];
    - [struct rpn] nodes live in a heap [gmap loc rpn] and are linked by
      their [next] field;
    - the timer library (lib/libt.h), the wall clock, the owner's
      [rpn_lookup_env] and [rpn_run_again] are the outside world, kept in
      the record [sys]. *)

From stdpp Require Import gmap strings list.
From Stdlib Require Import ZArith Ascii Floats.

Open Scope Z_scope.

(** ** Doubles and ints *)

(** An [int] stored into a [double] lvalue: exact, every 32-bit integer is
    a binary64 number. *)
Definition double_of_int (z : Z) : float :=
  SF2Prim (binary_normalize prec emax z 0 false).

Definition INT_MIN : Z := - 2 ^ 31.
Definition INT_MAX : Z := 2 ^ 31 - 1.

(** The integral part of a finite binary64 number [(-1)^s * m * 2^e],
    rounded towards zero. *)
Definition trunc_finite (s : bool) (m : positive) (e : Z) : Z :=
  let q := if 0 <=? e then Z.shiftl (Z.pos m) e else Z.shiftr (Z.pos m) (- e) in
  if s then - q else q.

(** The cast [(int)x].  C leaves the conversion undefined when the
    truncated value is not an [int] (NaN, infinities, magnitudes from 2^31);
    the model returns what the x86-64 conversion instruction (cvttsd2si)
    returns there, [INT_MIN]. *)
Definition int_of_double (x : float) : Z :=
  match Prim2SF x with
  | S754_zero _ => 0
  | S754_finite s m e =>
      let z := trunc_finite s m e in
      if (INT_MIN <=? z) && (z <=? INT_MAX) then z else INT_MIN
  | S754_infinity _ | S754_nan => INT_MIN
  end.

(** The value of a C condition, an [int] that is 0 or 1. *)
Definition int_of_bool (b : bool) : Z := if b then 1 else 0.

(** [!x], [x && y] and [x || y] on ints. *)
Definition c_not (x : Z) : Z := int_of_bool (x =? 0).
Definition c_and (x y : Z) : Z := int_of_bool (negb (x =? 0) && negb (y =? 0)).
Definition c_or (x y : Z) : Z := int_of_bool (negb (x =? 0) || negb (y =? 0)).

(** The relational operators on doubles, as ints. *)
Definition d_lt (x y : float) : Z := int_of_bool (PrimFloat.ltb x y).
Definition d_gt (x y : float) : Z := int_of_bool (PrimFloat.ltb y x).
Definition d_le (x y : float) : Z := int_of_bool (PrimFloat.leb x y).
Definition d_ge (x y : float) : Z := int_of_bool (PrimFloat.leb y x).

(** ** The value stack *)

(** Modelled from the spec: [struct stack] is declared in rpnlogic.h, which
    is not among the sources.  Its fields are those rpnlogic.c uses: the
    array [v] holds [s] cells, and the first [n] of them are in use. *)
Record stack := Stack {
  st_v : list float;
  st_n : Z;
  st_s : Z;
}.

(** [st->v[st->n - k]] *)
Definition peek (st : stack) (k : Z) : float :=
  default 0%float (st_v st !! Z.to_nat (st_n st - k)).

(** [st->v[st->n - k] = x] *)
Definition poke (st : stack) (k : Z) (x : float) : stack :=
  Stack (<[Z.to_nat (st_n st - k) := x]> (st_v st)) (st_n st) (st_s st).

(** [st->n -= k] *)
Definition drop (st : stack) (k : Z) : stack :=
  Stack (st_v st) (st_n st - k) (st_s st).

(** The values in use, bottom first. *)
Definition contents (st : stack) : list float :=
  take (Z.to_nat (st_n st)) (st_v st).

(** The shape every stack handed to the evaluator has. *)
Definition stack_ok (st : stack) : Prop :=
  Z.of_nat (length (st_v st)) = st_s st /\ 0 <= st_n st <= st_s st.

(** A stack before its first use: no storage. *)
Definition stack_init : stack := Stack [] 0 0.

(** [rpn_push]: grow the array by 16 cells when it is full (the new cells
    hold no defined value; the model fills them with 0), then store.  A
    failing [realloc] ends the process and is not modelled. *)
Definition rpn_push (st : stack) (value : float) : stack :=
  let st1 :=
    if st_s st <=? st_n st
    then Stack (st_v st ++ replicate 16 0%float) (st_n st) (st_s st + 16)
    else st in
  Stack (<[Z.to_nat (st_n st1) := value]> (st_v st1)) (st_n st1 + 1) (st_s st1).

Definition rpn_stack_reset (st : stack) : stack :=
  Stack (st_v st) 0 (st_s st).

(** ** Operators without state *)

(** Each operator returns its C return value and the stack it leaves. *)
Definition binop (f : float -> float -> float) (st : stack) : Z * stack :=
  if st_n st <? 2 then (-1, st)
  else (0, drop (poke st 2 (f (peek st 2) (peek st 1))) 1).

Definition rpn_do_plus : stack -> Z * stack := binop PrimFloat.add.
Definition rpn_do_minus : stack -> Z * stack := binop PrimFloat.sub.
Definition rpn_do_mul : stack -> Z * stack := binop PrimFloat.mul.
Definition rpn_do_div : stack -> Z * stack := binop PrimFloat.div.

Section libm.
(** [pow] of the C mathematical library. *)
Variable pow : float -> float -> float.

Definition rpn_do_pow : stack -> Z * stack := binop pow.
End libm.

Definition rpn_do_limit (st : stack) : Z * stack :=
  if st_n st <? 3 then (-1, st)
  else
    let st1 :=
      if PrimFloat.ltb (peek st 3) (peek st 2) then poke st 3 (peek st 2)
      else if PrimFloat.ltb (peek st 1) (peek st 3) then poke st 3 (peek st 1)
      else st in
    (1, drop st1 2).

Definition rpn_do_inrange (st : stack) : Z * stack :=
  if st_n st <? 3 then (-1, st)
  else
    let st1 :=
      if PrimFloat.ltb (peek st 2) (peek st 1)
      then poke st 3 (double_of_int
             (c_and (d_ge (peek st 3) (peek st 2)) (d_le (peek st 3) (peek st 1))))
      else poke st 3 (double_of_int
             (c_or (d_ge (peek st 3) (peek st 2)) (d_le (peek st 3) (peek st 1)))) in
    (1, drop st1 2).

Definition int_binop (f : Z -> Z -> Z) : stack -> Z * stack :=
  binop (fun a b => double_of_int (f (int_of_double a) (int_of_double b))).

Definition rpn_do_bitand : stack -> Z * stack := int_binop Z.land.
Definition rpn_do_bitor : stack -> Z * stack := int_binop Z.lor.
Definition rpn_do_bitxor : stack -> Z * stack := int_binop Z.lxor.

Definition unop (f : float -> float) (st : stack) : Z * stack :=
  if st_n st <? 1 then (-1, st)
  else (0, poke st 1 (f (peek st 1))).

Definition rpn_do_bitinv : stack -> Z * stack :=
  unop (fun a => double_of_int (Z.lnot (int_of_double a))).

Definition rpn_do_booland : stack -> Z * stack := int_binop c_and.
Definition rpn_do_boolor : stack -> Z * stack := int_binop c_or.
Definition rpn_do_boolnot : stack -> Z * stack :=
  unop (fun a => double_of_int (c_not (int_of_double a))).

(** The right operand is truncated to [int] and converted back for the
    comparison. *)
Definition rpn_do_lt : stack -> Z * stack :=
  binop (fun a b => double_of_int (d_lt a (double_of_int (int_of_double b)))).
Definition rpn_do_gt : stack -> Z * stack :=
  binop (fun a b => double_of_int (d_gt a (double_of_int (int_of_double b)))).

Definition rpn_do_dup (st : stack) : Z * stack :=
  if st_n st <? 1 then (-1, st)
  else (0, rpn_push st (peek st 1)).

Definition rpn_do_swap (st : stack) : Z * stack :=
  if st_n st <? 2 then (-1, st)
  else
    let tmp := peek st 2 in
    (0, poke (poke st 2 (peek st 1)) 1 tmp).

(** ** Nodes and the heap *)

(** Addresses of [struct rpn] nodes, and the owner's opaque [void *dat]. *)
Definition loc := positive.
Definition handle := Z.

(** The functions a node's [run] pointer can hold. *)
Inductive op :=
| do_const | do_env
| do_plus | do_minus | do_mul | do_div | do_pow
| do_bitand | do_bitor | do_bitxor | do_bitinv
| do_booland | do_boolor | do_boolnot
| do_lt | do_gt
| do_dup | do_swap
| do_limit | do_inrange
| do_ondelay | do_offdelay | do_pulse
| do_edge | do_rising | do_falling
| do_timeofday | do_dayofweek.

#[global] Instance op_eq_dec : EqDecision op.
Proof. solve_decision. Defined.

(** Modelled from the spec: [struct rpn] is declared in rpnlogic.h, which
    is not among the sources.  Its fields are those rpnlogic.c uses.
    [rpn_op] is the [run] pointer ([None] is NULL); [rpn_topic] is the
    buffer made by [strndup], owned by the node, and [rpn_options] points
    into it behind the last comma; [rpn_cookie] is the state that lasts
    from one evaluation to the next. *)
Record rpn := Rpn {
  rpn_next : option loc;
  rpn_op : option op;
  rpn_dat : handle;
  rpn_topic : option string;
  rpn_options : option string;
  rpn_value : float;
  rpn_cookie : Z;
}.

Definition set_next (me : rpn) (x : option loc) : rpn :=
  Rpn x (rpn_op me) (rpn_dat me) (rpn_topic me) (rpn_options me)
      (rpn_value me) (rpn_cookie me).
Definition set_op (me : rpn) (x : op) : rpn :=
  Rpn (rpn_next me) (Some x) (rpn_dat me) (rpn_topic me) (rpn_options me)
      (rpn_value me) (rpn_cookie me).
Definition set_dat (me : rpn) (x : handle) : rpn :=
  Rpn (rpn_next me) (rpn_op me) x (rpn_topic me) (rpn_options me)
      (rpn_value me) (rpn_cookie me).
Definition set_topic (me : rpn) (t o : option string) : rpn :=
  Rpn (rpn_next me) (rpn_op me) (rpn_dat me) t o (rpn_value me) (rpn_cookie me).
Definition set_value (me : rpn) (x : float) : rpn :=
  Rpn (rpn_next me) (rpn_op me) (rpn_dat me) (rpn_topic me) (rpn_options me)
      x (rpn_cookie me).
Definition set_cookie (me : rpn) (x : Z) : rpn :=
  Rpn (rpn_next me) (rpn_op me) (rpn_dat me) (rpn_topic me) (rpn_options me)
      (rpn_value me) x.

(** The allocated nodes. *)
Abbreviation heap := (gmap loc rpn).

(** What [memset(rpn, 0, sizeof( *rpn))] leaves. *)
Definition rpn_zero : rpn := Rpn None None 0 None None 0%float 0.

(** [rpn_create]: a fresh zeroed node.  A failing [malloc] ends the
    process and is not modelled. *)
Definition rpn_create (h : heap) : loc * heap :=
  let p := fresh (dom h) in (p, <[p := rpn_zero]> h).

(** [rpn_free]: the node and its topic buffer go together. *)
Definition rpn_free (p : loc) (h : heap) : heap := delete p h.

(** The loop of [rpn_free_chain].  Reading [rpn->next] of a node that is
    not allocated is undefined: [None]. *)
Fixpoint rpn_free_loop (fuel : nat) (rpn : option loc) (h : heap) : option heap :=
  match rpn with
  | None => Some h
  | Some tmp =>
      match fuel with
      | O => None
      | S fuel' =>
          match h !! tmp with
          | None => None
          | Some nd => rpn_free_loop fuel' (rpn_next nd) (rpn_free tmp h)
          end
      end
  end.

(** Every turn of the loop frees one allocated node, so [size h] turns
    are all it can take. *)
Definition rpn_free_chain (rpn : option loc) (h : heap) : option heap :=
  rpn_free_loop (size h) rpn h.

(** ** The outside world *)

(** The fields of [struct tm] the code reads. *)
Record tm := Tm {
  tm_sec : Z;
  tm_min : Z;
  tm_hour : Z;
  tm_wday : Z;
}.

(** A pending timer is known by its callback and the callback's argument:
    [on_delay] with the node, or [rpn_run_again] with the owner. *)
Inductive timeout :=
| on_delay_of (me : loc)
| rpn_run_again_of (dat : handle).

#[global] Instance timeout_eq_dec : EqDecision timeout.
Proof. solve_decision. Defined.

(** What the evaluator sees of its surroundings: the timers pending in
    libt with the delay each was given, the broken-down local time that
    [time] and [localtime] return, the owner's [rpn_lookup_env], and the
    owners [rpn_run_again] was called for, oldest first. *)
Record sys := Sys {
  timers : list (float * timeout);
  clock : tm;
  env : option string -> rpn -> float;
  woken : list handle;
}.

Definition set_timers (w : sys) (t : list (float * timeout)) : sys :=
  Sys t (clock w) (env w) (woken w).

(** Modelled from the spec: [libt_remove_timeout] of lib/libt.h, the timer
    library, which is not among the sources.  The spec gives its contract:
    adding replaces any timer pending for the same callback and argument,
    removing is a no-op when none is pending, and a timer fires once. *)
Definition libt_remove_timeout (k : timeout) (t : list (float * timeout))
  : list (float * timeout) :=
  filter (fun x => x.2 <> k) t.

(** Modelled from the spec: [libt_add_timeout] of lib/libt.h; the new
    timer takes the place of one pending for the same callback and
    argument. *)
Definition libt_add_timeout (delay : float) (k : timeout)
    (t : list (float * timeout)) : list (float * timeout) :=
  (delay, k) :: libt_remove_timeout k t.

(** A timer for [k] is pending. *)
Definition pending (k : timeout) (t : list (float * timeout)) : bool :=
  bool_decide (k ∈ t.*2).

(** Modelled from the spec: [rpn_run_again] belongs to the owner's program;
    it asks the owner to run its chain again from the top. *)
Definition rpn_run_again (dat : handle) (w : sys) : sys :=
  Sys (timers w) (clock w) (env w) (woken w ++ [dat]).

(** ** Operators with state *)

(** [on_delay], the timer callback of the three delay operators. *)
Definition on_delay (dat : loc) (h : heap) (w : sys) : option (heap * sys) :=
  match h !! dat with
  | None => None
  | Some me =>
      let me1 := set_cookie me (Z.lxor (rpn_cookie me) 2) in
      Some (<[dat := me1]> h, rpn_run_again (rpn_dat me1) w)
  end.

(** The three delay operators differ in what they do on the two edges of
    the input; they share the check, the update of bit 0 and the output. *)
Definition delay_finish (st : stack) (inval : Z) (me : rpn)
    (t : list (float * timeout)) : Z * stack * rpn * list (float * timeout) :=
  let me1 :=
    set_cookie me (Z.lor (Z.land (rpn_cookie me) (Z.lnot 1)) (c_not (c_not inval))) in
  let st1 := poke st 2 (double_of_int (c_not (c_not (Z.land (rpn_cookie me1) 2)))) in
  (0, drop st1 1, me1, t).

Definition rpn_do_offdelay (st : stack) (p : loc) (me : rpn)
    (t : list (float * timeout)) : Z * stack * rpn * list (float * timeout) :=
  if st_n st <? 2 then (-1, st, me, t)
  else
    let inval := int_of_double (peek st 2) in
    if (inval =? 0) && negb (Z.land (rpn_cookie me) 1 =? 0) then
      delay_finish st inval me (libt_add_timeout (peek st 1) (on_delay_of p) t)
    else if negb (inval =? 0) && (Z.land (rpn_cookie me) 1 =? 0) then
      delay_finish st inval (set_cookie me (Z.lor (rpn_cookie me) 2))
                   (libt_remove_timeout (on_delay_of p) t)
    else delay_finish st inval me t.

Definition rpn_do_ondelay (st : stack) (p : loc) (me : rpn)
    (t : list (float * timeout)) : Z * stack * rpn * list (float * timeout) :=
  if st_n st <? 2 then (-1, st, me, t)
  else
    let inval := int_of_double (peek st 2) in
    if negb (inval =? 0) && (Z.land (rpn_cookie me) 1 =? 0) then
      delay_finish st inval me (libt_add_timeout (peek st 1) (on_delay_of p) t)
    else if (inval =? 0) && negb (Z.land (rpn_cookie me) 1 =? 0) then
      delay_finish st inval (set_cookie me (Z.land (rpn_cookie me) (Z.lnot 2)))
                   (libt_remove_timeout (on_delay_of p) t)
    else delay_finish st inval me t.

Definition rpn_do_pulse (st : stack) (p : loc) (me : rpn)
    (t : list (float * timeout)) : Z * stack * rpn * list (float * timeout) :=
  if st_n st <? 2 then (-1, st, me, t)
  else
    let inval := int_of_double (peek st 2) in
    if negb (inval =? 0) && (Z.land (rpn_cookie me) 1 =? 0) then
      delay_finish st inval (set_cookie me (Z.lor (rpn_cookie me) 2))
                   (libt_add_timeout (peek st 1) (on_delay_of p) t)
    else if (inval =? 0) && negb (Z.land (rpn_cookie me) 1 =? 0) then
      delay_finish st inval me (libt_remove_timeout (on_delay_of p) t)
    else delay_finish st inval me t.

Definition rpn_do_edge (st : stack) (me : rpn) : Z * stack * rpn :=
  if st_n st <? 1 then (-1, st, me)
  else
    let inval := int_of_double (peek st 1) in
    (0, poke st 1 (double_of_int (int_of_bool (negb (inval =? rpn_cookie me)))),
     set_cookie me inval).

Definition rpn_do_rising (st : stack) (me : rpn) : Z * stack * rpn :=
  if st_n st <? 1 then (-1, st, me)
  else
    let inval := int_of_double (peek st 1) in
    (0, poke st 1 (double_of_int (c_and inval (c_not (rpn_cookie me)))),
     set_cookie me inval).

Definition rpn_do_falling (st : stack) (me : rpn) : Z * stack * rpn :=
  if st_n st <? 1 then (-1, st, me)
  else
    let inval := int_of_double (peek st 1) in
    (0, poke st 1 (double_of_int (c_and (c_not inval) (rpn_cookie me))),
     set_cookie me inval).

(** ** Operators that read the clock *)

Definition next_minute (t : tm) : Z :=
  let next := 60 - tm_sec t in
  if (next <=? 0) || (60 <? next) then 60 else next.

(** [tm_hour + tm_min/60.0 + tm_sec/3600.0] *)
Definition decimal_hours (t : tm) : float :=
  (double_of_int (tm_hour t) + double_of_int (tm_min t) / 60
   + double_of_int (tm_sec t) / 3600)%float.

Definition rpn_do_timeofday (st : stack) (me : rpn) (w : sys) : Z * stack * sys :=
  let t := clock w in
  let st1 := rpn_push st (decimal_hours t) in
  (0, st1,
   set_timers w (libt_add_timeout (double_of_int (next_minute t))
                                  (rpn_run_again_of (rpn_dat me)) (timers w))).

(** [tm->tm_wday ?: 7] *)
Definition rpn_do_dayofweek (st : stack) (me : rpn) (w : sys) : Z * stack * sys :=
  let t := clock w in
  let st1 := rpn_push st (double_of_int (if tm_wday t =? 0 then 7 else tm_wday t)) in
  (0, st1,
   set_timers w (libt_add_timeout (double_of_int (next_minute t))
                                  (rpn_run_again_of (rpn_dat me)) (timers w))).

Definition rpn_do_const (st : stack) (me : rpn) : Z * stack :=
  (0, rpn_push st (rpn_value me)).

Definition rpn_do_env (st : stack) (me : rpn) (w : sys) : Z * stack :=
  (0, rpn_push st (env w (rpn_topic me) me)).

(** ** C strings *)

(** A C string is the bytes before its terminator; [zero] is the
    terminator. *)
Definition NUL : ascii := Ascii.zero.

(** [s[i]]; reading at the end gives the terminator. *)
Definition chr (s : string) (i : nat) : ascii :=
  default NUL (String.get i s).

(** [s + 1] *)
Definition str_tail (s : string) : string :=
  match s with
  | EmptyString => EmptyString
  | String _ s' => s'
  end.

(** [strchr(s, c) != NULL].  The terminator counts as part of the string:
    [strchr(s, 0)] finds it. *)
Fixpoint strchr (s : string) (c : ascii) : bool :=
  match s with
  | EmptyString => Ascii.eqb c NUL
  | String a s' => Ascii.eqb a c || strchr s' c
  end.

(** The longest prefix whose characters satisfy [p], and what follows. *)
Fixpoint span (p : ascii -> bool) (s : string) : string * string :=
  match s with
  | EmptyString => (EmptyString, EmptyString)
  | String c s' =>
      if p c then let '(a, b) := span p s' in (String c a, b)
      else (EmptyString, s)
  end.

Definition is_digit (c : ascii) : bool :=
  let k := N_of_ascii c in ((48 <=? k) && (k <=? 57))%N.

Definition to_lower (c : ascii) : ascii :=
  let k := N_of_ascii c in
  if ((65 <=? k) && (k <=? 90))%N then ascii_of_N (k + 32) else c.

Definition is_xdigit (c : ascii) : bool :=
  let k := N_of_ascii (to_lower c) in
  is_digit c || ((97 <=? k) && (k <=? 102))%N.

(** The value of a hexadecimal (or decimal) digit. *)
Definition digit_val (c : ascii) : Z :=
  let k := Z.of_N (N_of_ascii (to_lower c)) in
  if is_digit c then k - 48 else k - 87.

(** The number a string of digits denotes in [base], continuing from
    [acc]. *)
Fixpoint digits_val_from (base : Z) (acc : Z) (s : string) : Z :=
  match s with
  | EmptyString => acc
  | String c s' => digits_val_from base (acc * base + digit_val c) s'
  end.

Definition digits_val (base : Z) (s : string) : Z := digits_val_from base 0 s.

(** [isspace] in the C locale. *)
Definition isspace (c : ascii) : bool :=
  let k := N_of_ascii c in ((k =? 32) || ((9 <=? k) && (k <=? 13)))%N.

(** ** [strtod] *)

(** The binary64 number nearest to [num / den] (ties to even), for
    positive [num] and [den]: the quotient is computed with more than 64
    significant bits and a sticky last bit, then rounded once. *)
Definition round_ratio (num den : Z) : float :=
  let k := Z.max 0 (66 + Z.log2 den - Z.log2 num) in
  let q := Z.shiftl num k / den in
  let sticky := if Z.shiftl num k mod den =? 0 then 0 else 1 in
  SF2Prim (binary_normalize prec emax (2 * q + sticky) (- k - 1) false).

(** The double nearest to [m * 10^e], for [0 <= m]. *)
Definition double_of_decimal (m e : Z) : float :=
  if m =? 0 then 0%float
  else if 0 <=? e then SF2Prim (binary_normalize prec emax (m * 10 ^ e) 0 false)
  else round_ratio m (10 ^ (- e)).

(** An optional sign at the head of [s]: whether it is a minus, and what
    follows. *)
Definition strtod_sign (s : string) : bool * string :=
  match s with
  | String c s' =>
      if Ascii.eqb c "-" then (true, s')
      else if Ascii.eqb c "+" then (false, s')
      else (false, s)
  | EmptyString => (false, s)
  end.

(** An optional exponent part: the marker [mark] (in either case), an
    optional sign and at least one decimal digit.  Returns the exponent
    and what follows; without digits nothing is consumed. *)
Definition strtod_exponent (mark : ascii) (s : string) : Z * string :=
  match s with
  | String c s1 =>
      if Ascii.eqb (to_lower c) mark then
        let '(neg, s2) := strtod_sign s1 in
        let '(ds, s3) := span is_digit s2 in
        match ds with
        | EmptyString => (0, s)
        | _ => ((if neg then - digits_val 10 ds else digits_val 10 ds), s3)
        end
      else (0, s)
  | EmptyString => (0, s)
  end.

(** Digits with an optional radix point: the digits before it, those
    behind it, and what follows. *)
Definition strtod_mantissa (p : ascii -> bool) (s : string)
  : string * string * string :=
  let '(ip, s1) := span p s in
  if Ascii.eqb (chr s1 0) "."
  then let '(fp, s3) := span p (str_tail s1) in (ip, fp, s3)
  else (ip, EmptyString, s1).

(** A decimal floating constant at the head of [s]. *)
Definition strtod_dec (s : string) : option (float * string) :=
  let '(ip, fp, s1) := strtod_mantissa is_digit s in
  match ip +:+ fp with
  | EmptyString => None
  | ds =>
      let '(e, s2) := strtod_exponent "e" s1 in
      Some (double_of_decimal (digits_val 10 ds) (e - Z.of_nat (String.length fp)), s2)
  end.

(** A hexadecimal floating constant [0x...] at the head of [s]. *)
Definition strtod_hex (s : string) : option (float * string) :=
  if Ascii.eqb (chr s 0) "0" && Ascii.eqb (to_lower (chr s 1)) "x" then
    let '(ip, fp, s1) := strtod_mantissa is_xdigit (str_tail (str_tail s)) in
    match ip +:+ fp with
    | EmptyString => None
    | ds =>
        let '(e, s2) := strtod_exponent "p" s1 in
        Some (SF2Prim (binary_normalize prec emax (digits_val 16 ds)
                         (e - 4 * Z.of_nat (String.length fp)) false), s2)
    end
  else None.

(** [s] without the prefix [pre], compared without regard to case. *)
Fixpoint strip_nocase (pre s : string) : option string :=
  match pre, s with
  | EmptyString, _ => Some s
  | String a pre', String c s' =>
      if Ascii.eqb a (to_lower c) then strip_nocase pre' s' else None
  | _, _ => None
  end.

Definition is_nchar (c : ascii) : bool :=
  let k := N_of_ascii (to_lower c) in
  is_digit c || ((97 <=? k) && (k <=? 122))%N || (k =? 95)%N.

(** [INF], [INFINITY], [NAN] and [NAN(chars)]. *)
Definition strtod_special (s : string) : option (float * string) :=
  match strip_nocase "infinity" s with
  | Some r => Some (infinity, r)
  | None =>
  match strip_nocase "inf" s with
  | Some r => Some (infinity, r)
  | None =>
  match strip_nocase "nan" s with
  | Some r =>
      if Ascii.eqb (chr r 0) "(" then
        let '(_, r2) := span is_nchar (str_tail r) in
        if Ascii.eqb (chr r2 0) ")" then Some (nan, str_tail r2) else Some (nan, r)
      else Some (nan, r)
  | None => None
  end end end.

(** [strtod(s, &endp)] in the C locale: the value and [endp].  When
    nothing can be converted the value is 0 and [endp] is [s]. *)
Definition strtod (s : string) : float * string :=
  let '(neg, s2) := strtod_sign (span isspace s).2 in
  let r :=
    match strtod_hex s2 with
    | Some r => Some r
    | None =>
        match strtod_dec s2 with
        | Some r => Some r
        | None => strtod_special s2
        end
    end in
  match r with
  | Some (x, rest) => ((if neg then - x else x)%float, rest)
  | None => (0%float, s)
  end.

(** [c] is one of the characters of [set]. *)
Fixpoint mem_char (set : string) (c : ascii) : bool :=
  match set with
  | EmptyString => false
  | String a set' => Ascii.eqb a c || mem_char set' c
  end.

(** One call of [strtok]: skip the delimiters; at the end of the string
    there is no token; else the token runs up to the next delimiter, which
    is overwritten by the terminator, and the scan resumes behind it. *)
Definition strtok (delim : string) (s : string) : option (string * string) :=
  match (span (mem_char delim) s).2 with
  | EmptyString => None
  | s1 =>
      let '(tok, s2) := span (fun c => negb (mem_char delim c)) s1 in
      Some (tok, str_tail s2)
  end.

(** The tokens that [strtok(s, delim)] and the calls [strtok(NULL, delim)]
    after it return, in order.  Each call consumes at least one character,
    so [fuel] from the length of the string on is enough. *)
Fixpoint strtok_loop (fuel : nat) (delim : string) (s : string) : list string :=
  match fuel with
  | O => []
  | S fuel' =>
      match strtok delim s with
      | None => []
      | Some (tok, rest) => tok :: strtok_loop fuel' delim rest
      end
  end.

Definition strtok_all (delim : string) (s : string) : list string :=
  strtok_loop (String.length s) delim s.

(** ** The parser *)

(** The table [lookups], up to its empty end marker. *)
Definition lookups : list (string * op) :=
  [ ("+", do_plus); ("-", do_minus); ("*", do_mul); ("/", do_div);
    ("**", do_pow);
    ("&", do_bitand); ("|", do_bitor); ("^", do_bitxor); ("~", do_bitinv);
    ("&&", do_booland); ("||", do_boolor); ("!", do_boolnot);
    ("<", do_lt); (">", do_gt);
    ("dup", do_dup); ("swap", do_swap);
    ("limit", do_limit); ("inrange", do_inrange);
    ("ondelay", do_ondelay); ("offdelay", do_offdelay); ("pulse", do_pulse);
    ("edge", do_edge); ("rising", do_rising); ("falling", do_falling);
    ("changed", do_edge); ("pushed", do_rising);
    ("timeofday", do_timeofday); ("dayofweek", do_dayofweek) ]%string.

(** The scan of [do_lookup] over a table: the first entry whose string
    equals [tok]. *)
Fixpoint lookup_in (table : list (string * op)) (tok : string) : option op :=
  match table with
  | [] => None
  | (str, run) :: table' =>
      if String.eqb str tok then Some run else lookup_in table' tok
  end.

Definition do_lookup (tok : string) : option op := lookup_in lookups tok.

Definition digits : string := "0123456789".

(** The double quote, the last of the separators of seconds. *)
Definition DQUOTE : ascii := ascii_of_N 34.

(** The test that makes a token a number: it starts with a digit, or with
    a sign that a digit follows. *)
Definition is_number (tok : string) : bool :=
  strchr digits (chr tok 0)
  || (negb (Ascii.eqb (chr tok 1) NUL)
      && strchr "+-" (chr tok 0) && strchr digits (chr tok 1)).

(** The value a number token gets: [strtod], then a part in sixtieths
    behind one of the characters colon, h and quote, then a part in
    3600ths behind one of colon, m and double quote. *)
Definition const_value (tok : string) : float :=
  let '(value, endp) := strtod tok in
  let '(value, endp) :=
    if negb (Ascii.eqb (chr endp 0) NUL) && strchr ":h'" (chr endp 0)
    then let '(x, endp') := strtod (str_tail endp) in ((value + x / 60)%float, endp')
    else (value, endp) in
  let '(value, endp) :=
    if negb (Ascii.eqb (chr endp 0) NUL)
       && strchr (String ":" (String "m" (String DQUOTE ""))) (chr endp 0)
    then let '(x, endp') := strtod (str_tail endp) in ((value + x / 3600)%float, endp')
    else (value, endp) in
  value.

(** The test for [${...}]. *)
Definition is_env (tok : string) : bool :=
  Ascii.eqb (chr tok 0) "$" && Ascii.eqb (chr tok 1) "{"
  && Ascii.eqb (chr tok (String.length tok - 1)) "}".

(** [s] cut at its last [c]: what [strrchr] finds, with the part before. *)
Fixpoint strrchr_cut (c : ascii) (s : string) : option (string * string) :=
  match s with
  | EmptyString => None
  | String a s' =>
      match strrchr_cut c s' with
      | Some (l, r) => Some (String a l, r)
      | None => if Ascii.eqb a c then Some (EmptyString, s') else None
      end
  end.

(** The topic and options of [${topic,options}]: the text between the
    braces, cut at its last comma. *)
Definition env_topic (tok : string) : string * option string :=
  let body := str_tail (str_tail tok) in
  let topic := String.substring 0 (String.length body - 1) body in
  match strrchr_cut "," topic with
  | Some (name, options) => (name, Some options)
  | None => (topic, None)
  end.

(** The three ways a token becomes a node: created by [rpn_create], then
    filled in.  [None] is the last branch, the unknown token. *)
Definition parse_token (tok : string) (h : heap) : option (loc * heap) :=
  if is_number tok then
    let '(rpn, h1) := rpn_create h in
    Some (rpn, alter (fun nd => set_value (set_op nd do_const) (const_value tok)) rpn h1)
  else if is_env tok then
    let '(rpn, h1) := rpn_create h in
    let '(topic, options) := env_topic tok in
    Some (rpn, alter (fun nd => set_topic (set_op nd do_env) (Some topic) options) rpn h1)
  else
    match do_lookup tok with
    | Some run =>
        let '(rpn, h1) := rpn_create h in
        Some (rpn, alter (fun nd => set_op nd run) rpn h1)
    | None => None
    end.

(** The loop of [rpn_parse] over the tokens.  An unknown token is logged
    (at LOG_INFO, which does not end the process), frees the chain built
    so far and leaves the loop with no root; a known one is given the
    owner and linked behind [last].  The outer [None] is undefined
    behaviour (of [rpn_free_chain]). *)
Fixpoint parse_loop (toks : list string) (dat : handle)
    (root last : option loc) (h : heap) : option (option loc * heap) :=
  match toks with
  | [] => Some (root, h)
  | tok :: toks' =>
      match parse_token tok h with
      | None =>
          match root with
          | Some _ =>
              match rpn_free_chain root h with
              | Some h' => Some (None, h')
              | None => None
              end
          | None => Some (None, h)
          end
      | Some (rpn, h1) =>
          let h2 := alter (fun nd => set_dat nd dat) rpn h1 in
          let h3 :=
            match last with
            | Some l => alter (fun nd => set_next nd (Some rpn)) l h2
            | None => h2
            end in
          let root' := match root with Some _ => root | None => Some rpn end in
          parse_loop toks' dat root' (Some rpn) h3
      end
  end.

Definition TAB : ascii := ascii_of_N 9.

(** The delimiters given to [strtok]: space and tab. *)
Definition blanks : string := String " " (String TAB "").

(** [rpn_parse]: the root of the chain, [None] for NULL, and the heap
    left. *)
Definition rpn_parse (cstr : string) (dat : handle) (h : heap)
  : option (option loc * heap) :=
  let savedstr := cstr in
  parse_loop (strtok_all blanks savedstr) dat None None h.

(** ** The evaluator *)

Section run.
Variable pow : float -> float -> float.

(** The call [rpn->run(st, rpn)]: [p] is the address of the node and [me]
    what is stored there; the result is the return value, the stack, the
    node and the world as the call leaves them. *)
Definition run_op (o : op) (st : stack) (p : loc) (me : rpn) (w : sys)
  : Z * stack * rpn * sys :=
  let pure (r : Z * stack) := (r.1, r.2, me, w) in
  let edge (r : Z * stack * rpn) := (r, w) in
  let timed (r : Z * stack * rpn * list (float * timeout)) :=
    (r.1, set_timers w r.2) in
  let clocked (r : Z * stack * sys) := (r.1.1, r.1.2, me, r.2) in
  match o with
  | do_const => pure (rpn_do_const st me)
  | do_env => pure (rpn_do_env st me w)
  | do_plus => pure (rpn_do_plus st)
  | do_minus => pure (rpn_do_minus st)
  | do_mul => pure (rpn_do_mul st)
  | do_div => pure (rpn_do_div st)
  | do_pow => pure (rpn_do_pow pow st)
  | do_bitand => pure (rpn_do_bitand st)
  | do_bitor => pure (rpn_do_bitor st)
  | do_bitxor => pure (rpn_do_bitxor st)
  | do_bitinv => pure (rpn_do_bitinv st)
  | do_booland => pure (rpn_do_booland st)
  | do_boolor => pure (rpn_do_boolor st)
  | do_boolnot => pure (rpn_do_boolnot st)
  | do_lt => pure (rpn_do_lt st)
  | do_gt => pure (rpn_do_gt st)
  | do_dup => pure (rpn_do_dup st)
  | do_swap => pure (rpn_do_swap st)
  | do_limit => pure (rpn_do_limit st)
  | do_inrange => pure (rpn_do_inrange st)
  | do_ondelay => timed (rpn_do_ondelay st p me (timers w))
  | do_offdelay => timed (rpn_do_offdelay st p me (timers w))
  | do_pulse => timed (rpn_do_pulse st p me (timers w))
  | do_edge => edge (rpn_do_edge st me)
  | do_rising => edge (rpn_do_rising st me)
  | do_falling => edge (rpn_do_falling st me)
  | do_timeofday => clocked (rpn_do_timeofday st me w)
  | do_dayofweek => clocked (rpn_do_dayofweek st me w)
  end.

(** The call [rpn->run(st, rpn)] through the pointer [p], with the node
    written back.  [None] is undefined behaviour: a node that is not
    allocated, or a NULL [run]. *)
Definition call (st : stack) (p : loc) (h : heap) (w : sys)
  : option (Z * stack * heap * sys) :=
  match h !! p with
  | None => None
  | Some me =>
      match rpn_op me with
      | None => None
      | Some o =>
          let '(ret, st', me', w') := run_op o st p me w in
          Some (ret, st', <[p := me']> h, w')
      end
  end.

(** [rpn->next] *)
Definition next_of (h : heap) (p : loc) : option loc :=
  match h !! p with
  | Some me => rpn_next me
  | None => None
  end.

(** [rpn_run]: walk the chain from [rpn]; a negative return value ends the
    walk.  The outer [None] is undefined behaviour or a walk longer than
    [fuel] nodes. *)
Fixpoint rpn_run (fuel : nat) (st : stack) (rpn : option loc) (h : heap) (w : sys)
  : option (Z * stack * heap * sys) :=
  match rpn with
  | None => Some (0, st, h, w)
  | Some p =>
      match fuel with
      | O => None
      | S fuel' =>
          match call st p h w with
          | None => None
          | Some (ret, st', h', w') =>
              if ret <? 0 then Some (ret, st', h', w')
              else rpn_run fuel' st' (next_of h' p) h' w'
          end
      end
  end.

End run.

(** Modelled from the spec: the scheduler of lib/libt.h runs a pending
    timer once: the timer leaves the list, then its callback runs. *)
Definition libt_fire (k : timeout) (h : heap) (w : sys) : option (heap * sys) :=
  if pending k (timers w) then
    let w1 := set_timers w (libt_remove_timeout k (timers w)) in
    match k with
    | on_delay_of me => on_delay me h w1
    | rpn_run_again_of dat => Some (h, rpn_run_again dat w1)
    end
  else None.

(** Modelled from the spec: the owner, whose program is not among the
    sources, answers every request for evaluation by one pass: it resets
    the stack and runs its chain from the root.  [input] is what
    [rpn_lookup_env] answers during the pass.  A pass yields the return
    value of [rpn_run] and the values left in use. *)
Definition pass (pow : float -> float -> float) (fuel : nat) (root : option loc)
    (input : option string -> rpn -> float) (c : stack * heap * sys)
  : option (Z * list float * (stack * heap * sys)) :=
  let '(st, h, w) := c in
  let w1 := Sys (timers w) (clock w) input (woken w) in
  match rpn_run pow fuel (rpn_stack_reset st) root h w1 with
  | Some (ret, st', h', w') => Some (ret, contents st', (st', h', w'))
  | None => None
  end.

(** Passes in a row, one for each input. *)
Fixpoint passes (pow : float -> float -> float) (fuel : nat) (root : option loc)
    (inputs : list (option string -> rpn -> float)) (c : stack * heap * sys)
  : option (list (Z * list float) * (stack * heap * sys)) :=
  match inputs with
  | [] => Some ([], c)
  | input :: inputs' =>
      match pass pow fuel root input c with
      | None => None
      | Some (ret, out, c1) =>
          match passes pow fuel root inputs' c1 with
          | None => None
          | Some (outs, c2) => Some ((ret, out) :: outs, c2)
          end
      end
  end.

(** A world with no timer pending, every input 0, midnight on a Sunday. *)
Definition world0 : sys := Sys [] (Tm 0 0 0 0) (fun _ _ => 0%float) [].

(** Compile [src] into an empty heap and run the chain once on a stack
    without storage: the return value of [rpn_run] and the values left in
    use.  [fuel] is one step for each token. *)
Definition compile_and_run (pow : float -> float -> float) (src : string) (w : sys)
  : option (Z * list float) :=
  match rpn_parse src 0 ∅ with
  | Some (root, h) =>
      match rpn_run pow (String.length src) (rpn_stack_reset stack_init) root h w with
      | Some (ret, st, _, _) => Some (ret, contents st)
      | None => None
      end
  | None => None
  end.

(** Modelled from the spec: what reaches one node of a chain from
    outside.  The owner's pass arrives at the node with an input and a
    delay on top of the stack, or the scheduler fires the node's timer. *)
Inductive event :=
| Evaluate (x delay : float)
| Fire.

(** One event at the node [p]: an evaluation yields the values the node
    leaves in use, a firing yields nothing.  [None] is undefined behaviour,
    or a firing with no timer pending. *)
Definition node_event (pow : float -> float -> float) (p : loc) (e : event)
    (c : heap * sys) : option (option (list float) * (heap * sys)) :=
  let '(h, w) := c in
  match e with
  | Evaluate x delay =>
      match call pow (rpn_push (rpn_push stack_init x) delay) p h w with
      | Some (_, st', h', w') => Some (Some (contents st'), (h', w'))
      | None => None
      end
  | Fire =>
      match libt_fire (on_delay_of p) h w with
      | Some c' => Some (None, c')
      | None => None
      end
  end.

(** Events in a row, with what each yields. *)
Fixpoint play (pow : float -> float -> float) (p : loc) (es : list event)
    (c : heap * sys) : option (list (option (list float)) * (heap * sys)) :=
  match es with
  | [] => Some ([], c)
  | e :: es' =>
      match node_event pow p e c with
      | None => None
      | Some (out, c1) =>
          match play pow p es' c1 with
          | None => None
          | Some (outs, c2) => Some (out :: outs, c2)
          end
      end
  end.

(** ** [mystrtod] of common.c *)

(** A pointer into a C string, given by what is left of the string from
    there on (nothing is left at the terminator), or the pointer one
    behind the terminator. *)
Inductive cptr :=
| At (rest : string)
| Past.

(** [p + 1] *)
Definition cptr_next (rest : string) : cptr :=
  match rest with
  | EmptyString => Past
  | String _ r => At r
  end.

(** The [switch] on the character behind a number, with its cases falling
    through: the part in seconds; [None] is the [default] case. *)
Definition mystrtod_unit (c : ascii) (part : float) : option float :=
  if Ascii.eqb c "w" then Some (part * 7 * 24 * 60 * 60)%float
  else if Ascii.eqb c "d" then Some (part * 24 * 60 * 60)%float
  else if Ascii.eqb c "h" then Some (part * 60 * 60)%float
  else if Ascii.eqb c "m" then Some (part * 60)%float
  else if Ascii.eqb c "s" then Some part
  else if Ascii.eqb c NUL then Some part
  else None.

(** The label [done]: [( *endp == str) ? NAN : value].  All that is needed
    of [*endp] is whether it equals [str]; it holds no defined value until
    [strtod] has stored one, and reading it then is undefined: [None]. *)
Definition mystrtod_done (endp_is_str : option bool) (value : float) : option float :=
  match endp_is_str with
  | Some true => Some nan
  | Some false => Some value
  | None => None
  end.

(** The loop of [mystrtod].  [strpos] and [*endp] point into [str], so
    they are compared by the lengths of what is left.  Reading the
    character at [strpos] behind the terminator is outside the string:
    [None].  Each turn consumes at least one character. *)
Fixpoint mystrtod_loop (fuel : nat) (str : string) (value : float) (strpos : cptr)
    (endp_is_str : option bool) : option float :=
  match fuel with
  | O => None
  | S fuel' =>
      match strpos with
      | Past => None
      | At s =>
          if Ascii.eqb (chr s 0) NUL then mystrtod_done endp_is_str value
          else
            let '(part, endp) := strtod s in
            let e := Some (String.length endp =? String.length str)%nat in
            if (String.length s <=? String.length endp)%nat then mystrtod_done e value
            else
              match mystrtod_unit (chr endp 0) part with
              | None => mystrtod_done e value
              | Some part' =>
                  mystrtod_loop fuel' str (value + part')%float (cptr_next endp) e
              end
      end
  end.

(** [mystrtod(str, endp)]: [None] for [str] is NULL.  [endp_is_str] is
    what [*endp] holds at the call: whether it equals [str], or [None]
    when it holds no defined value, as the local [localendp] that stands
    in for a NULL [endp]. *)
Definition mystrtod (str : option string) (endp_is_str : option bool) : option float :=
  match str with
  | None => Some nan
  | Some s => mystrtod_loop (S (String.length s)) s 0%float (At s) endp_is_str
  end.

(** ** [test_suffix] of mqttled.c and mqtt1wtemp.c *)

(** A difference of two [size_t] stored in an [int]: it wraps into 32
    bits. *)
Definition int_of_size (z : Z) : Z := (z + 2 ^ 31) mod 2 ^ 32 - 2 ^ 31.

(** [s + n], for [n] up to the length of [s]. *)
Fixpoint str_drop (n : nat) (s : string) : string :=
  match n, s with
  | O, _ => s
  | S n', String _ s' => str_drop n' s'
  | S _, EmptyString => EmptyString
  end.

(** [test_suffix(topic, suffix)], with [None] for a NULL argument.  The
    lengths are taken of [topic ?: ""] and [suffix ?: ""], but [topic+len]
    is computed from [topic] itself: for a NULL [topic], and for a [len]
    beyond the string, the comparison is undefined, [None]. *)
Definition test_suffix (topic suffix : option string) : option Z :=
  let len :=
    int_of_size (Z.of_nat (String.length (default EmptyString topic))
                 - Z.of_nat (String.length (default EmptyString suffix))) in
  if len <? 0 then Some 0
  else
    match topic with
    | None => None
    | Some t =>
        if Z.of_nat (String.length t) <? len then None
        else Some (int_of_bool
                     (String.eqb (str_drop (Z.to_nat len) t) (default EmptyString suffix)))
    end.

(** * The specification's side *)

(** The stack depth each operator needs before it acts: the left side of
    the arity column of the operator catalogue. *)
Definition min_depth (o : op) : Z :=
  match o with
  | do_const | do_env | do_timeofday | do_dayofweek => 0
  | do_bitinv | do_boolnot | do_dup | do_edge | do_rising | do_falling => 1
  | do_limit | do_inrange => 3
  | _ => 2
  end.

(** Clamping [x] into [lo..hi]. *)
Definition clamp (lo hi x : Z) : Z := Z.max lo (Z.min hi x).

(** The ISO number of a weekday that C counts from Sunday = 0: Monday is 1
    and Sunday is 7. *)
Definition iso_weekday (wday : Z) : Z := (wday + 6) mod 7 + 1.

(** A double that is a number: it equals itself. *)
Definition is_number_d (x : float) : bool := PrimFloat.eqb x x.

(** The evaluator's configurations: the stack, the node to run next, the
    heap and the world. *)
Definition config : Type := stack * option loc * heap * sys.

(** One node run with success: its return value is not negative, and the
    walk goes on with the node's successor. *)
Inductive step (pow : float -> float -> float) : config -> config -> Prop :=
| step_node st p h w ret st' h' w' :
    call pow st p h w = Some (ret, st', h', w') ->
    0 <= ret ->
    step pow (st, Some p, h, w) (st', next_of h' p, h', w').

(** Every character of [s] satisfies [p]. *)
Fixpoint all_chars (p : ascii -> bool) (s : string) : bool :=
  match s with
  | EmptyString => true
  | String c s' => p c && all_chars p s'
  end.

(** A number in its plainest form: one or more decimal digits. *)
Definition is_digits (s : string) : bool :=
  negb (String.eqb s "") && all_chars is_digit s.

(** The double nearest to the number that the digits of [s] denote. *)
Definition decimal_value (s : string) : float :=
  SF2Prim (binary_normalize prec emax (digits_val 10 s) 0 false).

(** The separators of the sexagesimal notation: before the minutes, and
    before the seconds. *)
Definition sep1 (c : ascii) : bool := mem_char ":h'" c.
Definition sep2 (c : ascii) : bool :=
  mem_char (String ":" (String "m" (String DQUOTE ""))) c.

(** What can follow a plain number inside a literal: a separator, or the
    end of the string. *)
Definition ends_number (rest : string) : bool :=
  let c := chr rest 0 in Ascii.eqb c NUL || sep1 c || sep2 c.

(** *** Tokens *)

(** Space and tab, the characters between tokens. *)
Definition is_blank (c : ascii) : bool := mem_char blanks c.

(** The newline: white space to [isspace], but none of the characters
    between tokens. *)
Definition NL : ascii := ascii_of_N 10.

(** [splits src toks]: the tokens of [src] are [toks], in order.  A token
    is a longest run of characters that are not blank. *)
Inductive splits : string -> list string -> Prop :=
| splits_nil s :
    all_chars is_blank s = true -> splits s []
| splits_cons pre tok rest toks :
    all_chars is_blank pre = true ->
    tok <> EmptyString ->
    all_chars (fun c => negb (is_blank c)) tok = true ->
    rest = EmptyString \/ is_blank (chr rest 0) = true ->
    splits rest toks ->
    splits (pre +:+ tok +:+ rest) (tok :: toks).

(** A C string holds no terminator inside. *)
Definition c_string (s : string) : bool :=
  all_chars (fun c => negb (Ascii.eqb c NUL)) s.

(** A numeric literal starts with a digit, or with a sign that a digit
    follows at once. *)
Definition numeric_literal (tok : string) : bool :=
  is_digit (chr tok 0) || (mem_char "+-" (chr tok 0) && is_digit (chr tok 1)).

(** A reference to an external signal has its text between [${] and a
    closing brace. *)
Definition signal_reference (tok : string) : Prop :=
  exists body : string, tok = "${" +:+ body +:+ "}".

(** The keywords of the operator table. *)
Definition keywords : list string :=
  [ "+"; "-"; "*"; "/"; "**"; "&"; "|"; "^"; "~"; "&&"; "||"; "!"; "<"; ">";
    "dup"; "swap"; "limit"; "inrange"; "ondelay"; "offdelay"; "pulse";
    "edge"; "rising"; "falling"; "changed"; "pushed";
    "timeofday"; "dayofweek" ]%string.

(** A token that is none of the three. *)
Definition unknown_token (tok : string) : Prop :=
  numeric_literal tok = false /\ ~ signal_reference tok /\ tok ∉ keywords.

(** *** Chains in the heap *)

(** The node that the parser makes of a token for the owner [dat], before
    it is linked; [None] for a token it does not know. *)
Definition token_node (dat : handle) (tok : string) : option rpn :=
  if is_number tok then
    Some (Rpn None (Some do_const) dat None None (const_value tok) 0)
  else if is_env tok then
    Some (Rpn None (Some do_env) dat (Some (env_topic tok).1) (env_topic tok).2 0 0)
  else
    match do_lookup tok with
    | Some run => Some (Rpn None (Some run) dat None None 0 0)
    | None => None
    end.

(** The heap [h0] with the nodes [ns] stored at the addresses [ps], each
    linked to the one behind it and the last to nothing. *)
Fixpoint link (ps : list loc) (ns : list rpn) (h0 : heap) : heap :=
  match ps, ns with
  | p :: ps', nd :: ns' => <[p := set_next nd (head ps')]> (link ps' ns' h0)
  | _, _ => h0
  end.

(** [chain h0 ps ns root h]: [h] is [h0] and a chain from [root] that
    holds the nodes [ns] at the fresh and distinct addresses [ps]. *)
Definition chain (h0 : heap) (ps : list loc) (ns : list rpn)
    (root : option loc) (h : heap) : Prop :=
  NoDup ps /\ (forall p, p ∈ ps -> h0 !! p = None)
  /\ length ps = length ns /\ root = head ps /\ h = link ps ns h0.

(** *** Postfix evaluation *)

(** The tokens of an expression without state: a numeric literal, or one
    of the arithmetic, bitwise, boolean and comparison operators, [dup] or
    [swap]. *)
Inductive token :=
| Num (lit : string)
| Op (o : op).

Definition stateless (o : op) : bool :=
  match o with
  | do_plus | do_minus | do_mul | do_div | do_pow
  | do_bitand | do_bitor | do_bitxor | do_bitinv
  | do_booland | do_boolor | do_boolnot
  | do_lt | do_gt | do_dup | do_swap => true
  | _ => false
  end.

Definition keyword (o : op) : string :=
  match o with
  | do_plus => "+" | do_minus => "-" | do_mul => "*" | do_div => "/"
  | do_pow => "**"
  | do_bitand => "&" | do_bitor => "|" | do_bitxor => "^" | do_bitinv => "~"
  | do_booland => "&&" | do_boolor => "||" | do_boolnot => "!"
  | do_lt => "<" | do_gt => ">"
  | do_dup => "dup" | do_swap => "swap"
  | do_limit => "limit" | do_inrange => "inrange"
  | do_ondelay => "ondelay" | do_offdelay => "offdelay" | do_pulse => "pulse"
  | do_edge => "edge" | do_rising => "rising" | do_falling => "falling"
  | do_timeofday => "timeofday" | do_dayofweek => "dayofweek"
  | do_const | do_env => ""
  end.

Definition spell (t : token) : string :=
  match t with
  | Num lit => lit
  | Op o => keyword o
  end.

Definition well_formed (t : token) : bool :=
  match t with
  | Num lit => numeric_literal lit
  | Op o => stateless o
  end.

(** Truth values are 1 and 0. *)
Definition truth (b : bool) : float := if b then 1%float else 0%float.

(** An operand truncated to an integer, as a number again. *)
Definition truncated (x : float) : float := double_of_int (int_of_double x).

Definition nonzero (x : float) : bool := negb (int_of_double x =? 0).

Section postfix.
Variable pow : float -> float -> float.

(** One token applied to a stack whose top is the head of the list;
    [None] when the stack is too shallow. *)
Definition postfix_step (t : token) (stk : list float) : option (list float) :=
  match t, stk with
  | Num lit, _ => Some (const_value lit :: stk)
  | Op do_plus, b :: a :: r => Some ((a + b)%float :: r)
  | Op do_minus, b :: a :: r => Some ((a - b)%float :: r)
  | Op do_mul, b :: a :: r => Some ((a * b)%float :: r)
  | Op do_div, b :: a :: r => Some ((a / b)%float :: r)
  | Op do_pow, b :: a :: r => Some (pow a b :: r)
  | Op do_bitand, b :: a :: r =>
      Some (double_of_int (Z.land (int_of_double a) (int_of_double b)) :: r)
  | Op do_bitor, b :: a :: r =>
      Some (double_of_int (Z.lor (int_of_double a) (int_of_double b)) :: r)
  | Op do_bitxor, b :: a :: r =>
      Some (double_of_int (Z.lxor (int_of_double a) (int_of_double b)) :: r)
  | Op do_bitinv, a :: r => Some (double_of_int (Z.lnot (int_of_double a)) :: r)
  | Op do_booland, b :: a :: r => Some (truth (nonzero a && nonzero b) :: r)
  | Op do_boolor, b :: a :: r => Some (truth (nonzero a || nonzero b) :: r)
  | Op do_boolnot, a :: r => Some (truth (negb (nonzero a)) :: r)
  | Op do_lt, b :: a :: r => Some (truth (PrimFloat.ltb a (truncated b)) :: r)
  | Op do_gt, b :: a :: r => Some (truth (PrimFloat.ltb (truncated b) a) :: r)
  | Op do_dup, a :: r => Some (a :: a :: r)
  | Op do_swap, b :: a :: r => Some (a :: b :: r)
  | _, _ => None
  end.

Fixpoint postfix_eval (toks : list token) (stk : list float) : option (list float) :=
  match toks with
  | [] => Some stk
  | t :: toks' =>
      match postfix_step t stk with
      | Some stk' => postfix_eval toks' stk'
      | None => None
      end
  end.

End postfix.

(** The node a well-formed token compiles to, before it is linked. *)
Definition node_of (dat : handle) (t : token) : rpn :=
  match t with
  | Num lit => Rpn None (Some do_const) dat None None (const_value lit) 0
  | Op o => Rpn None (Some o) dat None None 0 0
  end.

(** *** Edges of the input of a delay operator *)

(** With [c] the node's state, bit 0 of [c] is the input seen last. *)
Definition rising_edge (c : Z) (x : float) : bool := nonzero x && negb (Z.testbit c 0).
Definition falling_edge (c : Z) (x : float) : bool := negb (nonzero x) && Z.testbit c 0.

(** Bit 0 of the state replaced by the input. *)
Definition seen (c : Z) (x : float) : Z :=
  Z.lor (Z.land c (Z.lnot 1)) (int_of_bool (nonzero x)).

(** *** Stacks that hold the same values *)

(** Two well-formed stacks with the same values in use; the cells above
    them and the sizes of the arrays may differ. *)
Definition same_values (st1 st2 : stack) : Prop :=
  stack_ok st1 /\ stack_ok st2 /\ contents st1 = contents st2.

(** *** Nodes without their state *)

(** A node with its state wiped: what the parser made of it. *)
Definition erase (me : rpn) : rpn := set_cookie me 0.

(** The operators that neither keep state in the node nor touch the
    timers: constants, lookups, arithmetic, logic, comparison, [dup],
    [swap], [limit] and [inrange]. *)
Definition no_state (o : op) : bool :=
  match o with
  | do_ondelay | do_offdelay | do_pulse
  | do_edge | do_rising | do_falling
  | do_timeofday | do_dayofweek => false
  | _ => true
  end.

(** *** The depth of the stack *)

(** What an operator that succeeds adds to the depth of the stack. *)
Definition effect (o : op) : Z :=
  match o with
  | do_const | do_env | do_dup | do_timeofday | do_dayofweek => 1
  | do_bitinv | do_boolnot | do_swap | do_edge | do_rising | do_falling => 0
  | do_limit | do_inrange => -2
  | _ => -1
  end.

(** *** Durations *)

(** The units of a duration: weeks, days, hours, minutes and seconds. *)
Definition is_unit (c : ascii) : bool := mem_char "wdhms" c.

(** What one of a unit is in the next smaller ones, down to seconds. *)
Definition unit_factors (u : ascii) : list float :=
  if Ascii.eqb u "w" then [7; 24; 60; 60]%float
  else if Ascii.eqb u "d" then [24; 60; 60]%float
  else if Ascii.eqb u "h" then [60; 60]%float
  else if Ascii.eqb u "m" then [60]%float
  else [].

(** [x] of the unit [u] in seconds, multiplied out factor by factor. *)
Definition in_seconds (u : ascii) (x : float) : float :=
  fold_left PrimFloat.mul (unit_factors u) x.

(** A duration written as parts, each a number with its unit behind. *)
Fixpoint spell_parts (parts : list (string * ascii)) : string :=
  match parts with
  | [] => EmptyString
  | (a, u) :: parts' => a +:+ String u (spell_parts parts')
  end.

(** The sum of the parts in seconds, added in order to [value]. *)
Definition add_parts (parts : list (string * ascii)) (value : float) : float :=
  fold_left (fun v p => (v + in_seconds p.2 (decimal_value p.1))%float) parts value.

(** A character that ends a number and is neither a unit nor the
    terminator. *)
Definition no_unit (c : ascii) : bool :=
  negb (is_unit c || Ascii.eqb c NUL || is_digit c || Ascii.eqb c "."
        || Ascii.eqb (to_lower c) "x" || Ascii.eqb (to_lower c) "e").

(** * Properties *)

(** ** The array and the values in use *)

Lemma contents_length st :
  stack_ok st -> length (contents st) = Z.to_nat (st_n st).
Proof.
  intros [Hs Hn]. unfold contents. rewrite length_take. lia.
Qed.

Lemma contents_snoc_n st l (suffix : list float) :
  stack_ok st -> contents st = l ++ suffix ->
  st_n st = Z.of_nat (length l) + Z.of_nat (length suffix).
Proof.
  intros Hok E. pose proof (contents_length st Hok) as HL.
  rewrite E, length_app in HL. destruct Hok. lia.
Qed.

Lemma peek_contents st k :
  stack_ok st -> 1 <= k <= st_n st ->
  peek st k = default 0%float (contents st !! Z.to_nat (st_n st - k)).
Proof.
  intros [Hs Hn] Hk. unfold peek, contents.
  rewrite lookup_take_lt by lia. done.
Qed.

Lemma poke_contents st k x :
  stack_ok st -> 1 <= k <= st_n st ->
  stack_ok (poke st k x)
  /\ contents (poke st k x) = <[Z.to_nat (st_n st - k) := x]> (contents st).
Proof.
  intros [Hs Hn] Hk. unfold poke, contents, stack_ok. simpl.
  rewrite length_insert. split; [done|].
  rewrite take_insert_lt by lia. done.
Qed.

Lemma drop_contents st k :
  stack_ok st -> 0 <= k <= st_n st ->
  stack_ok (drop st k)
  /\ contents (drop st k) = take (Z.to_nat (st_n st - k)) (contents st).
Proof.
  intros [Hs Hn] Hk. unfold drop, contents, stack_ok. simpl.
  split; [lia|]. rewrite take_take. f_equal. lia.
Qed.

Lemma push_contents st x :
  stack_ok st ->
  stack_ok (rpn_push st x) /\ contents (rpn_push st x) = contents st ++ [x].
Proof.
  intros [Hs Hn]. unfold rpn_push, contents, stack_ok.
  destruct (Z.leb_spec (st_s st) (st_n st)) as [Hfull | Hroom]; cbn [st_v st_n st_s].
  - assert (st_n st = st_s st) as En by lia.
    rewrite length_insert, length_app, length_replicate. split; [lia|].
    replace (Z.to_nat (st_n st)) with (length (st_v st) + 0)%nat by lia.
    rewrite insert_app_r. simpl.
    replace (Z.to_nat (st_n st + 1)) with (length (st_v st) + 1)%nat by lia.
    rewrite take_app_add'; [|done]. rewrite Nat.add_0_r, firstn_all. done.
  - rewrite length_insert. split; [lia|].
    assert (Z.to_nat (st_n st) < length (st_v st))%nat as Hlt by lia.
    replace (Z.to_nat (st_n st + 1)) with (S (Z.to_nat (st_n st))) by lia.
    destruct (lookup_lt_is_Some_2 _ _ Hlt) as [y Hy].
    rewrite (take_S_r _ _ x) by (by apply list_lookup_insert_eq).
    rewrite take_insert_ge by lia. done.
Qed.

Lemma reset_contents st :
  stack_ok st -> stack_ok (rpn_stack_reset st) /\ contents (rpn_stack_reset st) = [].
Proof. intros [Hs Hn]. unfold rpn_stack_reset, stack_ok, contents. simpl. split; [lia|done]. Qed.

(** Access from the top, when the values in use end in [suf]. *)

Lemma peek_suffix st l suf k :
  stack_ok st -> contents st = l ++ suf -> 1 <= k <= Z.of_nat (length suf) ->
  peek st k = default 0%float (suf !! Z.to_nat (Z.of_nat (length suf) - k)).
Proof.
  intros Hok E Hk. pose proof (contents_snoc_n st l suf Hok E) as Hn.
  rewrite peek_contents, E by (done || lia).
  rewrite lookup_app_r by lia. do 2 f_equal. lia.
Qed.

Lemma poke_suffix st l suf k x :
  stack_ok st -> contents st = l ++ suf -> 1 <= k <= Z.of_nat (length suf) ->
  stack_ok (poke st k x)
  /\ contents (poke st k x) = l ++ <[Z.to_nat (Z.of_nat (length suf) - k) := x]> suf.
Proof.
  intros Hok E Hk. pose proof (contents_snoc_n st l suf Hok E) as Hn.
  destruct (poke_contents st k x Hok) as [? ->]; [lia|]. split; [done|].
  rewrite E, <- insert_app_r. f_equal. lia.
Qed.

Lemma drop_suffix st l suf k :
  stack_ok st -> contents st = l ++ suf -> 0 <= k <= Z.of_nat (length suf) ->
  stack_ok (drop st k)
  /\ contents (drop st k) = l ++ take (Z.to_nat (Z.of_nat (length suf) - k)) suf.
Proof.
  intros Hok E Hk. pose proof (contents_snoc_n st l suf Hok E) as Hn.
  destruct (drop_contents st k Hok) as [? ->]; [lia|]. split; [done|].
  rewrite E, take_app_ge by lia. do 2 f_equal. lia.
Qed.

Lemma depth_suffix st l suf k :
  stack_ok st -> contents st = l ++ suf -> k <= Z.of_nat (length suf) ->
  (st_n st <? k) = false.
Proof.
  intros Hok E Hk. pose proof (contents_snoc_n st l suf Hok E) as Hn.
  apply Z.ltb_ge. lia.
Qed.

(** The operators of one and two operands, on the values in use. *)

Lemma unop_spec f st l a :
  stack_ok st -> contents st = l ++ [a] ->
  exists st', unop f st = (0, st') /\ stack_ok st' /\ contents st' = l ++ [f a].
Proof.
  intros Hok E. unfold unop. rewrite (depth_suffix st l [a]) by (done || simpl; lia).
  rewrite (peek_suffix st l [a] 1 Hok E) by (simpl; lia). simpl.
  destruct (poke_suffix st l [a] 1 (f a) Hok E) as [? ?]; [simpl; lia|]. eauto.
Qed.

Lemma binop_spec f st l a b :
  stack_ok st -> contents st = l ++ [a; b] ->
  exists st', binop f st = (0, st') /\ stack_ok st' /\ contents st' = l ++ [f a b].
Proof.
  intros Hok E. unfold binop. rewrite (depth_suffix st l [a; b]) by (done || simpl; lia).
  rewrite (peek_suffix st l [a; b] 2 Hok E), (peek_suffix st l [a; b] 1 Hok E)
    by (simpl; lia). simpl.
  destruct (poke_suffix st l [a; b] 2 (f a b) Hok E) as [Hok1 E1]; [simpl; lia|].
  simpl in E1.
  destruct (drop_suffix _ l [f a b; b] 1 Hok1 E1) as [? ?]; [simpl; lia|]. eauto.
Qed.

Lemma dup_spec st l a :
  stack_ok st -> contents st = l ++ [a] ->
  exists st', rpn_do_dup st = (0, st') /\ stack_ok st' /\ contents st' = l ++ [a; a].
Proof.
  intros Hok E. unfold rpn_do_dup.
  rewrite (depth_suffix st l [a]) by (done || simpl; lia).
  rewrite (peek_suffix st l [a] 1 Hok E) by (simpl; lia). simpl.
  destruct (push_contents st a Hok) as [? E1]. rewrite E, <- app_assoc in E1. eauto.
Qed.

Lemma swap_spec st l a b :
  stack_ok st -> contents st = l ++ [a; b] ->
  exists st', rpn_do_swap st = (0, st') /\ stack_ok st' /\ contents st' = l ++ [b; a].
Proof.
  intros Hok E. unfold rpn_do_swap.
  rewrite (depth_suffix st l [a; b]) by (done || simpl; lia).
  rewrite (peek_suffix st l [a; b] 2 Hok E), (peek_suffix st l [a; b] 1 Hok E)
    by (simpl; lia). simpl.
  destruct (poke_suffix st l [a; b] 2 b Hok E) as [Hok1 E1]; [simpl; lia|].
  simpl in E1.
  destruct (poke_suffix _ l [b; b] 1 a Hok1 E1) as [? ?]; [simpl; lia|]. eauto.
Qed.

(** ** The timer list *)

Lemma pending_remove k k' t :
  pending k (libt_remove_timeout k' t)
  = if decide (k = k') then false else pending k t.
Proof.
  unfold pending, libt_remove_timeout. destruct (decide (k = k')) as [-> | Hne].
  - apply bool_decide_eq_false. rewrite list_elem_of_fmap.
    intros [[d k1] [-> Hin]]. apply list_elem_of_filter in Hin as [Hin _]. done.
  - apply bool_decide_ext. rewrite !list_elem_of_fmap. split.
    + intros [[d k1] [-> Hin]]. apply list_elem_of_filter in Hin as [_ Hin].
      by exists (d, k1).
    + intros [[d k1] [-> Hin]]. exists (d, k1). split; [done|].
      apply list_elem_of_filter. done.
Qed.

Lemma pending_add k k' d t :
  pending k (libt_add_timeout d k' t)
  = if decide (k = k') then true else pending k t.
Proof.
  unfold libt_add_timeout.
  pose proof (pending_remove k k' t) as Hr. unfold pending in *. simpl.
  destruct (decide (k = k')) as [-> | Hne].
  - apply bool_decide_eq_true. left.
  - rewrite <- Hr. apply bool_decide_ext. rewrite elem_of_cons.
    split; [intros [? | ?]; [congruence | done] | by right].
Qed.

Lemma remove_not_pending k t :
  pending k t = false -> libt_remove_timeout k t = t.
Proof.
  unfold pending, libt_remove_timeout. intros H. apply bool_decide_eq_false in H.
  induction t as [| [d k1] t IH]; [done|]. simpl in *.
  rewrite filter_cons. simpl. destruct (decide (k1 <> k)) as [? | Heq].
  - f_equal. apply IH. intros ?. apply H. by right.
  - exfalso. apply H. destruct (decide (k1 = k)) as [-> | ?]; [left | done].
Qed.



(** ** Underflow *)

Lemma set_timers_same (w : sys) : set_timers w (timers w) = w.
Proof. by destruct w. Qed.

Lemma run_op_negative pow o st p me w ret st' me' w' :
  run_op pow o st p me w = (ret, st', me', w') ->
  (0 <= st_n st -> (ret < 0 <-> st_n st < min_depth o))
  /\ (ret < 0 -> ret = -1 /\ st' = st /\ me' = me /\ w' = w).
Proof.
  intros E.
  assert (set_timers w (timers w) = w) as Hw by apply set_timers_same.
  destruct o; simpl in E;
    unfold rpn_do_const, rpn_do_env, rpn_do_plus, rpn_do_minus, rpn_do_mul,
      rpn_do_div, rpn_do_pow, rpn_do_bitand, rpn_do_bitor, rpn_do_bitxor,
      rpn_do_bitinv, rpn_do_booland, rpn_do_boolor, rpn_do_boolnot,
      rpn_do_lt, rpn_do_gt, rpn_do_dup, rpn_do_swap, rpn_do_limit,
      rpn_do_inrange, rpn_do_ondelay, rpn_do_offdelay, rpn_do_pulse,
      rpn_do_edge, rpn_do_rising, rpn_do_falling, rpn_do_timeofday,
      rpn_do_dayofweek, int_binop, binop, unop, delay_finish in E;
    repeat match type of E with
           | context [if ?b then _ else _] => destruct b eqn:?
           end;
    simpl in E; injection E as <- <- <- <-;
    repeat match goal with
           | H : (_ <? _) = true |- _ => apply Z.ltb_lt in H
           | H : (_ <? _) = false |- _ => apply Z.ltb_ge in H
           end;
    simpl; (split; [lia | intros ?; try lia; by rewrite ?Hw]).
Qed.

Lemma call_negative pow st p h w ret st' h' w' :
  call pow st p h w = Some (ret, st', h', w') -> ret < 0 ->
  ret = -1 /\ st' = st /\ h' = h /\ w' = w.
Proof.
  unfold call. intros E Hret.
  destruct (h !! p) as [me|] eqn:Hp; [|done].
  destruct (rpn_op me) as [o|]; [|done].
  destruct (run_op pow o st p me w) as [[[r s1] m1] w1] eqn:Er.
  injection E as <- <- <- <-.
  destruct (run_op_negative _ _ _ _ _ _ _ _ _ _ Er) as [_ H].
  destruct (H Hret) as (-> & -> & -> & ->). by rewrite insert_id.
Qed.

(** C9.  Every operator tests the depth of the stack before anything
    else: it returns a negative value exactly when the stack is shallower
    than the operator needs, and then the stack (length and elements), the
    node and the world (the timers among it) are what they were. *)
Theorem underflow_is_atomic pow o st p me w ret st' me' w' :
  run_op pow o st p me w = (ret, st', me', w') ->
  (0 <= st_n st -> (ret < 0 <-> st_n st < min_depth o))
  /\ (ret < 0 -> ret = -1 /\ st' = st /\ me' = me /\ w' = w).
Proof. apply run_op_negative. Qed.


(** ** Edge detection *)

Lemma double_of_bool (b : bool) :
  double_of_int (int_of_bool b) = if b then 1%float else 0%float.
Proof. by destruct b. Qed.

(** C7.  [rising] and its alias [pushed] compile to the same operator.  On
    a node with stored input [c], an evaluation with [x] on top replaces
    [x] by 1 exactly when the truncated [x] is not 0 and [c] is 0, and
    stores the truncated [x].  A freshly compiled node starts from 0, and
    keeps its state from pass to pass: the inputs 0,1,1,0,1 give the
    outputs 0,1,0,0,1. *)
Theorem rising_is_stateful pow :
  (do_lookup "rising" = Some do_rising /\ do_lookup "pushed" = Some do_rising)
  /\ (forall st me l x,
        stack_ok st -> contents st = l ++ [x] ->
        exists st',
          rpn_do_rising st me = (0, st', set_cookie me (int_of_double x))
          /\ stack_ok st'
          /\ contents st'
             = l ++ [if negb (int_of_double x =? 0) && (rpn_cookie me =? 0)
                     then 1%float else 0%float])
  /\ (forall dat w,
        exists h,
          rpn_parse "${in} rising" dat ∅ = Some (Some 1%positive, h)
          /\ h !! 1%positive
             = Some (Rpn (Some 2%positive) (Some do_env) dat (Some "in"%string) None 0 0)
          /\ h !! 2%positive = Some (Rpn None (Some do_rising) dat None None 0 0)
          /\ exists c,
               passes pow 2 (Some 1%positive)
                 (map (fun x _ _ => x) [0; 1; 1; 0; 1]%float) (stack_init, h, w)
               = Some ([(0, [0%float]); (0, [1%float]); (0, [0%float]);
                        (0, [0%float]); (0, [1%float])], c)).
Proof.
  split; [split; reflexivity|]. split.
  - intros st me l x Hok E. unfold rpn_do_rising.
    rewrite (depth_suffix st l [x]) by (done || simpl; lia).
    rewrite (peek_suffix st l [x] 1 Hok E) by (simpl; lia). simpl.
    eexists. split; [reflexivity|].
    destruct (poke_suffix st l [x] 1
                (double_of_int (c_and (int_of_double x) (c_not (rpn_cookie me)))) Hok E)
      as [Hok1 E1]; [simpl; lia|].
    split; [done|]. rewrite E1. simpl. do 2 f_equal.
    unfold c_and, c_not. rewrite double_of_bool.
    destruct (int_of_double x =? 0), (rpn_cookie me =? 0); reflexivity.
  - intros dat w. eexists. split; [vm_compute; reflexivity|].
    split; [reflexivity|]. split; [reflexivity|].
    eexists. vm_compute. reflexivity.
Qed.

(** ** The clock operators *)

Lemma next_minute_cases t :
  (0 <= tm_sec t <= 59 -> next_minute t = 60 - tm_sec t)
  /\ (tm_sec t < 0 \/ 59 < tm_sec t -> next_minute t = 60)
  /\ 1 <= next_minute t <= 60.
Proof.
  unfold next_minute.
  destruct (Z.leb_spec (60 - tm_sec t) 0), (Z.ltb_spec 60 (60 - tm_sec t));
    simpl; lia.
Qed.

(** C8, as the code has it.  [timeofday] pushes
    [tm_hour + tm_min/60 + tm_sec/3600] and [dayofweek] pushes the ISO
    weekday (Monday 1 to Sunday 7); both set the timer of [rpn_run_again]
    for the owner, replacing a pending one, and touch nothing else.  The
    delay is 60 minus the seconds when the seconds are 0..59, and 60
    otherwise; it always lies in 1..60. *)
Theorem clock_operators st me w :
  stack_ok st ->
  let t := clock w in
  let w' :=
    set_timers w (libt_add_timeout (double_of_int (next_minute t))
                                   (rpn_run_again_of (rpn_dat me)) (timers w)) in
  (exists st',
      rpn_do_timeofday st me w = (0, st', w') /\ stack_ok st'
      /\ contents st'
         = contents st
           ++ [(double_of_int (tm_hour t) + double_of_int (tm_min t) / 60
                + double_of_int (tm_sec t) / 3600)%float])
  /\ (exists st',
        rpn_do_dayofweek st me w = (0, st', w') /\ stack_ok st'
        /\ (0 <= tm_wday t <= 6 ->
            contents st' = contents st ++ [double_of_int (iso_weekday (tm_wday t))]))
  /\ pending (rpn_run_again_of (rpn_dat me)) (timers w') = true
  /\ (forall k, k <> rpn_run_again_of (rpn_dat me) ->
        pending k (timers w') = pending k (timers w))
  /\ (forall h, exists w'',
        libt_fire (rpn_run_again_of (rpn_dat me)) h w' = Some (h, w'')
        /\ woken w'' = woken w ++ [rpn_dat me]
        /\ pending (rpn_run_again_of (rpn_dat me)) (timers w'') = false)
  /\ (0 <= tm_sec t <= 59 -> next_minute t = 60 - tm_sec t)
  /\ (tm_sec t < 0 \/ 59 < tm_sec t -> next_minute t = 60)
  /\ 1 <= next_minute t <= 60.
Proof.
  intros Hok t w'. split; [|split; [|split; [|split; [|split]]]].
  - unfold rpn_do_timeofday. destruct (push_contents st (decimal_hours (clock w)) Hok).
    eexists; split; [reflexivity|]. done.
  - unfold rpn_do_dayofweek.
    destruct (push_contents st
      (double_of_int (if tm_wday (clock w) =? 0 then 7 else tm_wday (clock w))) Hok)
      as [? E].
    eexists; split; [reflexivity|]. split; [done|]. intros Hw. rewrite E.
    do 3 f_equal. unfold iso_weekday. fold t.
    destruct (Z.eqb_spec (tm_wday t) 0) as [-> | ?]; [done|].
    assert (tm_wday t = 1 \/ tm_wday t = 2 \/ tm_wday t = 3 \/ tm_wday t = 4
            \/ tm_wday t = 5 \/ tm_wday t = 6) as Hc by lia.
    destruct Hc as [-> | [-> | [-> | [-> | [-> | ->]]]]]; reflexivity.
  - subst w'. simpl. rewrite pending_add. by rewrite decide_True.
  - intros k Hk. subst w'. simpl. rewrite pending_add. by rewrite decide_False.
  - intros h. unfold libt_fire.
    assert (pending (rpn_run_again_of (rpn_dat me)) (timers w') = true) as ->.
    { subst w'. simpl. rewrite pending_add. by rewrite decide_True. }
    eexists. split; [reflexivity|]. simpl. split; [done|].
    rewrite pending_remove. by rewrite decide_True.
  - apply next_minute_cases.
Qed.

(** The delay is not a clamped value: at a leap second, with 60 seconds on
    the clock, the delay is 60, where 60 minus the seconds clamped into
    1..60 would be 1. *)
Lemma next_minute_leap_second :
  next_minute (Tm 60 59 23 6) = 60
  /\ clamp 1 60 (60 - tm_sec (Tm 60 59 23 6)) = 1.
Proof. split; reflexivity. Qed.

(** ** Comparisons of doubles *)

(** Two numbers that compare equal are below or above a third number
    together. *)
Lemma SFcompare_eq_total (x lo hi : spec_float) :
  SFcompare lo hi = Some Eq -> SFcompare x x = Some Eq ->
  SFleb lo x || SFleb x hi = true.
Proof.
  unfold SFleb.
  destruct x as [sx | sx | | sx mx ex], lo as [sl | sl | | sl ml el],
    hi as [sh | sh | | sh mh eh]; simpl; try done;
    repeat match goal with s : bool |- _ => destruct s end; simpl; try done.
  all: intros Hlh _.
  all: repeat match goal with
         | H : context [PosDef.Pos.compare_cont Eq ?a ?b] |- _ =>
             change (PosDef.Pos.compare_cont Eq a b) with (Pos.compare a b) in H
         | |- context [PosDef.Pos.compare_cont Eq ?a ?b] =>
             change (PosDef.Pos.compare_cont Eq a b) with (Pos.compare a b)
         end.
  all: destruct (Z.compare_spec el eh) as [-> | ? | ?]; try done.
  all: destruct (Pos.compare_spec ml mh) as [-> | ? | ?]; try done.
  all: rewrite (Z.compare_antisym ex eh), (Pos.compare_antisym mx mh).
  all: destruct (ex ?= eh); simpl; try done.
  all: destruct (mx ?= mh)%positive; done.
Qed.

Lemma leb_total_when_equal (x lo hi : float) :
  PrimFloat.eqb lo hi = true -> PrimFloat.eqb x x = true ->
  PrimFloat.ltb lo hi = false /\ PrimFloat.leb lo x || PrimFloat.leb x hi = true.
Proof.
  rewrite !eqb_spec, ltb_spec, !leb_spec. unfold SFeqb, SFltb.
  destruct (SFcompare (Prim2SF lo) (Prim2SF hi)) as [[]|] eqn:Elh; try done.
  destruct (SFcompare (Prim2SF x) (Prim2SF x)) as [[]|] eqn:Exx; try done.
  intros _ _. split; [done|]. by apply SFcompare_eq_total.
Qed.

(** ** [inrange] *)

(** C6, as the code has it.  [inrange] replaces [x], the third value from
    the top, by 1 or 0 and drops the bounds [lo] and [hi]: with [lo < hi]
    the result is [lo <= x] and [x <= hi], else the range wraps and the
    result is [lo <= x] or [x <= hi].  With the bounds 22 and 6 the input
    23 gives 1 and 10 gives 0.  With [lo == hi] the wrapping branch is
    taken, and the result is 1 for every [x] that is a number. *)
Theorem inrange_wraps pow st l x lo hi :
  stack_ok st -> contents st = l ++ [x; lo; hi] ->
  (exists st',
      rpn_do_inrange st = (1, st') /\ stack_ok st'
      /\ contents st'
         = l ++ [if PrimFloat.ltb lo hi
                 then (if PrimFloat.leb lo x && PrimFloat.leb x hi
                       then 1%float else 0%float)
                 else (if PrimFloat.leb lo x || PrimFloat.leb x hi
                       then 1%float else 0%float)]
      /\ (PrimFloat.eqb lo hi = true -> is_number_d x = true ->
          PrimFloat.ltb lo hi = false /\ contents st' = l ++ [1%float]))
  /\ compile_and_run pow "23 22 6 inrange" world0 = Some (0, [1%float])
  /\ compile_and_run pow "10 22 6 inrange" world0 = Some (0, [0%float]).
Proof.
  intros Hok E. split; [|split; vm_compute; reflexivity].
  unfold rpn_do_inrange.
  rewrite (depth_suffix st l [x; lo; hi]) by (done || simpl; lia).
  rewrite (peek_suffix st l [x; lo; hi] 3 Hok E),
    (peek_suffix st l [x; lo; hi] 2 Hok E),
    (peek_suffix st l [x; lo; hi] 1 Hok E) by (simpl; lia).
  simpl. unfold c_and, c_or, d_ge, d_le. rewrite !double_of_bool.
  assert (forall y, exists st',
    drop (poke st 3 y) 2 = st' /\ stack_ok st' /\ contents st' = l ++ [y]) as Hy.
  { intros y. destruct (poke_suffix st l [x; lo; hi] 3 y Hok E) as [Hok1 E1];
      [simpl; lia|]. simpl in E1.
    destruct (drop_suffix _ l [y; lo; hi] 2 Hok1 E1) as [? ?]; [simpl; lia|]. eauto. }
  destruct (PrimFloat.ltb lo hi) eqn:Elt.
  - destruct (Hy (if negb (int_of_bool (PrimFloat.leb lo x) =? 0)
                     && negb (int_of_bool (PrimFloat.leb x hi) =? 0)
                  then 1%float else 0%float)) as (st' & <- & ? & Ec).
    eexists. split; [reflexivity|]. split; [done|]. split.
    + rewrite Ec. by destruct (PrimFloat.leb lo x), (PrimFloat.leb x hi).
    + intros Heq Hx. destruct (leb_total_when_equal x lo hi Heq Hx) as [Hf _].
      congruence.
  - destruct (Hy (if negb (int_of_bool (PrimFloat.leb lo x) =? 0)
                     || negb (int_of_bool (PrimFloat.leb x hi) =? 0)
                  then 1%float else 0%float)) as (st' & <- & ? & Ec).
    eexists. split; [reflexivity|]. split; [done|]. split.
    + rewrite Ec. by destruct (PrimFloat.leb lo x), (PrimFloat.leb x hi).
    + intros Heq Hx. destruct (leb_total_when_equal x lo hi Heq Hx) as [_ Ht].
      split; [done|]. rewrite Ec.
      destruct (PrimFloat.leb lo x), (PrimFloat.leb x hi); done.
Qed.

(** With equal bounds the result is not 1 for every input: for an [x]
    that is not a number, as 0/0 under the bounds 5 and 5, it is 0. *)
Lemma inrange_equal_bounds_nan :
  PrimFloat.eqb 5 5 = true
  /\ (exists st', rpn_do_inrange (Stack [(0 / 0)%float; 5%float; 5%float] 3 3) = (1, st')
                  /\ contents st' = [0%float])
  /\ compile_and_run (fun x _ => x) "0 0 / 5 5 inrange" world0 = Some (0, [0%float])
  /\ PrimFloat.eqb 0 1 = false.
Proof.
  split; [reflexivity|]. split; [eexists; split; reflexivity|].
  split; vm_compute; reflexivity.
Qed.

(** ** The walk of [rpn_run] *)

Lemma rpn_run_stops pow n :
  forall st root h w st1 p h1 w1 ret st2 h2 w2 fuel,
  nsteps (step pow) n (st, root, h, w) (st1, Some p, h1, w1) ->
  call pow st1 p h1 w1 = Some (ret, st2, h2, w2) -> ret < 0 ->
  (n < fuel)%nat ->
  rpn_run pow fuel st root h w = Some (ret, st1, h1, w1).
Proof.
  induction n as [|n IH]; intros st root h w st1 p h1 w1 ret st2 h2 w2 fuel Hn Hc Hr Hf.
  - inversion Hn; subst. destruct fuel as [|fuel]; [lia|]. simpl. rewrite Hc.
    destruct (call_negative _ _ _ _ _ _ _ _ _ Hc Hr) as (_ & -> & -> & ->).
    apply Z.ltb_lt in Hr. by rewrite Hr.
  - inversion Hn as [| ? ? c' ? Hs Hn']; subst. inversion Hs; subst.
    destruct fuel as [|fuel]; [lia|]. simpl.
    match goal with H : call _ _ _ _ _ = Some _ |- _ => rewrite H end.
    match goal with H : 0 <= ?r |- context [?r <? 0] =>
      apply Z.ltb_ge in H; rewrite H end.
    eapply IH; eauto. lia.
Qed.

(** C4.  When the walk has run [n] nodes with success and the next node
    returns a negative value, [rpn_run] returns that value at once: the
    stack, the heap and the world are as the [n] nodes left them, whatever
    follows in the chain.  For "1 +" the result is -1 and the stack holds
    the constant 1 alone. *)
Theorem run_stops_at_underflow pow n st root h w st1 p h1 w1 ret st2 h2 w2 fuel :
  nsteps (step pow) n (st, root, h, w) (st1, Some p, h1, w1) ->
  call pow st1 p h1 w1 = Some (ret, st2, h2, w2) -> ret < 0 ->
  (n < fuel)%nat ->
  rpn_run pow fuel st root h w = Some (ret, st1, h1, w1)
  /\ ret = -1 /\ st2 = st1 /\ h2 = h1 /\ w2 = w1
  /\ compile_and_run pow "1 +" world0 = Some (-1, [1%float]).
Proof.
  intros Hn Hc Hr Hf. split; [by eapply rpn_run_stops|].
  destruct (call_negative _ _ _ _ _ _ _ _ _ Hc Hr) as (-> & -> & -> & ->).
  do 4 (split; [reflexivity|]). vm_compute. reflexivity.
Qed.

(** ** Number tokens *)

Lemma str_app_cons c (a b : string) : String c a +:+ b = String c (a +:+ b).
Proof. reflexivity. Qed.

Lemma str_app_nil_l (b : string) : "" +:+ b = b.
Proof. reflexivity. Qed.

Lemma str_app_nil_r (s : string) : s +:+ "" = s.
Proof. induction s as [|c s IH]; [done|]. by rewrite str_app_cons, IH. Qed.

Lemma str_app_assoc (a b c : string) : (a +:+ b) +:+ c = a +:+ (b +:+ c).
Proof. induction a as [|x a IH]; [done|]. by rewrite !str_app_cons, IH. Qed.

Lemma is_digit_facts c :
  is_digit c = true ->
  isspace c = false /\ Ascii.eqb c "-" = false /\ Ascii.eqb c "+" = false
  /\ Ascii.eqb (to_lower c) "x" = false.
Proof.
  destruct c as [[] [] [] [] [] [] [] []]; vm_compute; intros; try done.
Qed.

Lemma ends_number_facts c :
  Ascii.eqb c NUL || sep1 c || sep2 c = true ->
  is_digit c = false /\ Ascii.eqb c "." = false
  /\ Ascii.eqb (to_lower c) "x" = false /\ Ascii.eqb (to_lower c) "e" = false.
Proof.
  destruct c as [[] [] [] [] [] [] [] []]; vm_compute; intros; try done.
Qed.

Lemma sep1_test c :
  sep1 c = true -> negb (Ascii.eqb c NUL) && strchr ":h'" c = true.
Proof.
  destruct c as [[] [] [] [] [] [] [] []]; vm_compute; intros; try done.
Qed.

Lemma sep2_test c :
  sep2 c = true ->
  negb (Ascii.eqb c NUL)
  && strchr (String ":" (String "m" (String DQUOTE ""))) c = true.
Proof.
  destruct c as [[] [] [] [] [] [] [] []]; vm_compute; intros; try done.
Qed.

Lemma span_digits a rest :
  all_chars is_digit a = true -> is_digit (chr rest 0) = false ->
  span is_digit (a +:+ rest) = (a, rest).
Proof.
  intros Ha Hr. induction a as [|c a IH].
  - rewrite str_app_nil_l. destruct rest as [|c r]; [done|].
    unfold chr in Hr. simpl in *. by rewrite Hr.
  - simpl in Ha. apply andb_prop in Ha as [Hc Ha].
    rewrite str_app_cons. simpl. by rewrite Hc, IH.
Qed.

(** [strtod] on a plain number: all its digits are consumed, and the value
    is the nearest double. *)
Lemma strtod_digits a rest :
  is_digits a = true -> ends_number rest = true ->
  strtod (a +:+ rest) = (decimal_value a, rest)
  /\ strtod ("-" +:+ a +:+ rest) = ((- decimal_value a)%float, rest).
Proof.
  unfold is_digits, ends_number. intros Ha Hr.
  apply andb_prop in Ha as [Hne Ha].
  destruct (ends_number_facts _ Hr) as (Hd & Hdot & Hx & He).
  destruct a as [|c a]; [done|]. clear Hne.
  pose proof Ha as Ha'. simpl in Ha'. apply andb_prop in Ha' as [Hc Ha'].
  destruct (is_digit_facts c Hc) as (Hsp & Hm & Hp & _).
  assert (strtod_hex (String c a +:+ rest) = None) as Hhex.
  { unfold strtod_hex. rewrite str_app_cons.
    assert (Ascii.eqb (to_lower (chr (String c (a +:+ rest)) 1)) "x" = false) as ->.
    { unfold chr. simpl. destruct a as [|c' a].
      - rewrite str_app_nil_l. destruct rest; [done|]. unfold chr in Hx. by simpl in Hx.
      - rewrite str_app_cons. simpl. simpl in Ha'. apply andb_prop in Ha' as [Hc' _].
        by destruct (is_digit_facts c' Hc') as (_ & _ & _ & ?). }
    by rewrite andb_false_r. }
  assert (strtod_dec (String c a +:+ rest) = Some (decimal_value (String c a), rest))
    as Hdec.
  { unfold strtod_dec, strtod_mantissa. rewrite (span_digits _ _ Ha Hd), Hdot.
    rewrite str_app_nil_r. simpl String.length.
    assert (strtod_exponent "e" rest = (0, rest)) as ->.
    { unfold strtod_exponent. destruct rest as [|r0 rest]; [done|].
      unfold chr in He. simpl in He. by rewrite He. }
    f_equal. f_equal. unfold double_of_decimal, decimal_value.
    simpl (0 - Z.of_nat 0). change (0 <=? 0) with true. cbv iota.
    destruct (digits_val 10 (String c a) =? 0) eqn:Ez.
    - apply Z.eqb_eq in Ez. by rewrite Ez.
    - by rewrite Z.pow_0_r, Z.mul_1_r. }
  split.
  - unfold strtod. rewrite str_app_cons. simpl (span isspace _). rewrite Hsp.
    simpl snd. unfold strtod_sign. rewrite Hm, Hp, <- str_app_cons.
    by rewrite Hhex, Hdec.
  - unfold strtod. rewrite (str_app_cons "-" "" _), str_app_nil_l.
    simpl (span isspace _). simpl snd. unfold strtod_sign.
    change (Ascii.eqb "-" "-") with true. cbv iota.
    by rewrite Hhex, Hdec.
Qed.

Lemma ends_number_nil : ends_number "" = true.
Proof. reflexivity. Qed.

Lemma ends_number_sep1 c r : sep1 c = true -> ends_number (String c r) = true.
Proof. intros H. unfold ends_number, chr. simpl. rewrite H. by rewrite orb_true_r. Qed.

Lemma ends_number_sep2 c r : sep2 c = true -> ends_number (String c r) = true.
Proof. intros H. unfold ends_number, chr. simpl. rewrite H. by rewrite orb_true_r. Qed.

Lemma strtod_signed (neg : bool) a rest :
  is_digits a = true -> ends_number rest = true ->
  strtod ((if neg then "-" else "") +:+ a +:+ rest)
  = ((if neg then - decimal_value a else decimal_value a)%float, rest).
Proof.
  intros Ha Hr. destruct (strtod_digits a rest Ha Hr) as [H1 H2].
  destruct neg; [done|]. by rewrite str_app_nil_l.
Qed.

(** C2, as the code has it.  A number followed by a separator of minutes
    (colon, h, quote) and a second number, and then by a separator of
    seconds (colon, m, double quote) and a third number, compiles to the
    first number plus the second divided by 60 plus the third divided by
    3600.  A sign belongs to the first number alone: the parts behind it
    are added.  "1:30" and "1h30m" compile to 1.5, and "-1:30" to -0.5. *)
Theorem sexagesimal_literal (neg : bool) (a b c : string) (s1 s2 : ascii) (dat : handle) :
  is_digits a = true -> is_digits b = true -> is_digits c = true ->
  sep1 s1 = true -> sep2 s2 = true ->
  let sign : string := if neg then "-" else "" in
  let first := (if neg then - decimal_value a else decimal_value a)%float in
  const_value (sign +:+ a) = first
  /\ const_value (sign +:+ a +:+ String s1 b) = (first + decimal_value b / 60)%float
  /\ const_value (sign +:+ a +:+ String s1 (b +:+ String s2 ""))
     = (first + decimal_value b / 60 + 0 / 3600)%float
  /\ const_value (sign +:+ a +:+ String s1 (b +:+ String s2 c))
     = (first + decimal_value b / 60 + decimal_value c / 3600)%float
  /\ rpn_parse "1:30" dat ∅
     = Some (Some 1%positive,
             {[1%positive := Rpn None (Some do_const) dat None None 1.5 0]})
  /\ rpn_parse "1h30m" dat ∅
     = Some (Some 1%positive,
             {[1%positive := Rpn None (Some do_const) dat None None 1.5 0]})
  /\ rpn_parse "-1:30" dat ∅
     = Some (Some 1%positive,
             {[1%positive := Rpn None (Some do_const) dat None None (-0.5) 0]}).
Proof.
  intros Ha Hb Hc H1 H2 sign first.
  pose proof (sep1_test _ H1) as T1. pose proof (sep2_test _ H2) as T2.
  assert (forall r, strtod (sign +:+ a +:+ r) = if ends_number r then (first, r)
                                               else strtod (sign +:+ a +:+ r)) as Hfirst.
  { intros r. destruct (ends_number r) eqn:Er; [|done]. by apply strtod_signed. }
  assert (forall x, negb (Ascii.eqb (chr "" 0) NUL) && x = false) as Hnil by done.
  split; [|split; [|split; [|split]]].
  - unfold const_value. rewrite <- (str_app_nil_r a) at 1.
    rewrite Hfirst, ends_number_nil. by rewrite !Hnil.
  - unfold const_value. rewrite Hfirst, (ends_number_sep1 _ _ H1).
    change (chr (String s1 b) 0) with s1. rewrite T1.
    change (str_tail (String s1 b)) with b. rewrite <- (str_app_nil_r b) at 1.
    rewrite (proj1 (strtod_digits b "" Hb ends_number_nil)). by rewrite !Hnil.
  - unfold const_value. rewrite Hfirst, (ends_number_sep1 _ _ H1).
    change (chr (String s1 ?x) 0) with s1. rewrite T1.
    change (str_tail (String s1 ?x)) with x.
    rewrite (proj1 (strtod_digits b _ Hb (ends_number_sep2 s2 "" H2))).
    change (chr (String s2 ?x) 0) with s2. rewrite T2. done.
  - unfold const_value. rewrite Hfirst, (ends_number_sep1 _ _ H1).
    change (chr (String s1 ?x) 0) with s1. rewrite T1.
    change (str_tail (String s1 ?x)) with x.
    rewrite (proj1 (strtod_digits b _ Hb (ends_number_sep2 s2 c H2))).
    change (chr (String s2 ?x) 0) with s2. rewrite T2.
    change (str_tail (String s2 ?x)) with x. rewrite <- (str_app_nil_r c) at 1.
    rewrite (proj1 (strtod_digits c "" Hc ends_number_nil)). done.
  - split; [|split]; vm_compute; reflexivity.
Qed.

(** The sign is not carried over to the minutes: "-1:30" compiles to
    -1 + 30/60, which is -0.5 and not -1.5. *)
Lemma minus_one_thirty :
  const_value "-1:30" = (-0.5)%float
  /\ rpn_parse "-1:30" 0 ∅
     = Some (Some 1%positive,
             {[1%positive := Rpn None (Some do_const) 0 None None (-0.5) 0]})
  /\ PrimFloat.eqb (-0.5) (-1.5) = false.
Proof. split; [|split]; vm_compute; reflexivity. Qed.

(** ** Chains in the heap *)

Lemma set_next_set_next nd x y : set_next (set_next nd x) y = set_next nd y.
Proof. done. Qed.

Lemma set_next_id nd : set_next nd (rpn_next nd) = nd.
Proof. by destruct nd. Qed.

Lemma link_lookup_other ps ns (h0 : heap) p :
  p ∉ ps -> link ps ns h0 !! p = h0 !! p.
Proof.
  revert ns. induction ps as [|x ps IH]; intros ns Hp; [done|].
  destruct ns as [|nd ns]; [done|]. simpl.
  apply not_elem_of_cons in Hp as [Hne Hp].
  rewrite lookup_insert_ne by done. by apply IH.
Qed.

Lemma link_lookup ps ns (h0 : heap) i p nd :
  NoDup ps -> ps !! i = Some p -> ns !! i = Some nd ->
  link ps ns h0 !! p = Some (set_next nd (ps !! S i)).
Proof.
  revert ns i. induction ps as [|x ps IH]; intros ns i Hnd Hp Hn; [done|].
  destruct ns as [|nd0 ns]; [done|]. apply NoDup_cons in Hnd as [Hx Hnd].
  destruct i as [|i]; simpl in *.
  - injection Hp as ->. injection Hn as ->.
    by rewrite lookup_insert_eq, head_lookup.
  - assert (p <> x) as Hne.
    { intros ->. apply Hx. by eapply list_elem_of_lookup_2. }
    rewrite lookup_insert_ne by done. by eapply IH.
Qed.

Lemma link_size ps ns (h0 : heap) :
  NoDup ps -> (forall p, p ∈ ps -> h0 !! p = None) -> length ps = length ns ->
  size (link ps ns h0) = (length ps + size h0)%nat.
Proof.
  revert ns. induction ps as [|x ps IH]; intros ns Hnd Hf Hl; [done|].
  destruct ns as [|nd ns]; [done|]. apply NoDup_cons in Hnd as [Hx Hnd]. simpl.
  rewrite map_size_insert_None.
  - rewrite IH; [done | done | | by injection Hl].
    intros p Hp. apply Hf. by right.
  - rewrite link_lookup_other by done. apply Hf. by left.
Qed.

Lemma link_dom ps ns (h0 : heap) :
  length ps = length ns -> dom (link ps ns h0) = list_to_set ps ∪ dom h0.
Proof.
  revert ns. induction ps as [|x ps IH]; intros ns Hl.
  - simpl. by rewrite (left_id_L ∅ (∪)).
  - destruct ns as [|nd ns]; [done|]. simpl.
    rewrite dom_insert_L, IH by (by injection Hl). by rewrite (assoc_L (∪)).
Qed.

(** Appending a node: what the parser does with [last->next = rpn]. *)
Lemma link_snoc ps ns (h0 : heap) p nd :
  NoDup (ps ++ [p]) -> length ps = length ns -> rpn_next nd = None ->
  link (ps ++ [p]) (ns ++ [nd]) h0
  = match last ps with
    | Some l => alter (fun x => set_next x (Some p)) l (<[p := nd]> (link ps ns h0))
    | None => <[p := nd]> (link ps ns h0)
    end.
Proof.
  revert ns. induction ps as [|x ps IH]; intros ns Hnd Hl Hnx.
  - destruct ns; [|done]. simpl. by rewrite <- Hnx, set_next_id.
  - destruct ns as [|nx ns]; [done|]. injection Hl as Hl.
    simpl in Hnd. apply NoDup_cons in Hnd as [Hx Hnd].
    assert (x <> p) as Hxp. { intros ->. apply Hx. apply elem_of_app. right. by left. }
    simpl. rewrite (IH ns Hnd Hl Hnx). destruct ps as [|y ps].
    + destruct ns; [|done]. simpl.
      rewrite (insert_insert_ne _ p x) by done.
      by rewrite alter_insert_eq, set_next_set_next.
    + rewrite last_cons_cons.
      destruct (last (y :: ps)) as [l|] eqn:El; [|by apply last_None in El].
      assert (l <> x) as Hlx.
      { intros ->. apply Hx. apply elem_of_app. left. by apply last_Some_elem_of. }
      change (head ((y :: ps) ++ [p])) with (Some y).
      change (head (y :: ps)) with (Some y).
      rewrite (insert_insert_ne _ p x) by done.
      by rewrite (alter_insert_ne _ l x).
Qed.

(** Freeing a chain gives back the heap it was built on. *)
Lemma free_link ps : forall ns (h0 : heap) fuel,
  NoDup ps -> (forall p, p ∈ ps -> h0 !! p = None) -> length ps = length ns ->
  (length ps <= fuel)%nat ->
  rpn_free_loop fuel (head ps) (link ps ns h0) = Some h0.
Proof.
  induction ps as [|x ps IH]; intros ns h0 fuel Hnd Hf Hl Hfuel.
  - by destruct fuel.
  - destruct ns as [|nd ns]; [done|]. injection Hl as Hl.
    apply NoDup_cons in Hnd as [Hx Hnd].
    destruct fuel as [|fuel]; [simpl in Hfuel; lia|]. simpl.
    rewrite lookup_insert_eq. simpl. unfold rpn_free.
    rewrite delete_insert_id.
    + apply IH; [done | | done | simpl in Hfuel; lia].
      intros p Hp. apply Hf. by right.
    + rewrite link_lookup_other by done. apply Hf. by left.
Qed.

Lemma free_chain_link ps ns (h0 : heap) :
  NoDup ps -> (forall p, p ∈ ps -> h0 !! p = None) -> length ps = length ns ->
  rpn_free_chain (head ps) (link ps ns h0) = Some h0.
Proof.
  intros Hnd Hf Hl. unfold rpn_free_chain. apply free_link; try done.
  rewrite link_size by done. lia.
Qed.

(** ** Tokens *)

Lemma span_app p a r :
  all_chars p a = true ->
  match r with EmptyString => True | String c _ => p c = false end ->
  span p (a +:+ r) = (a, r).
Proof.
  intros Ha Hr. induction a as [|c a IH].
  - rewrite str_app_nil_l. destruct r as [|c r]; [done|]. simpl. by rewrite Hr.
  - simpl in Ha. apply andb_prop in Ha as [Hc Ha].
    rewrite str_app_cons. simpl. by rewrite Hc, IH.
Qed.

Lemma string_length_app (a b : string) :
  String.length (a +:+ b) = (String.length a + String.length b)%nat.
Proof. induction a as [|c a IH]; [done|]. rewrite str_app_cons. simpl. by rewrite IH. Qed.

Lemma strtok_blank s :
  all_chars is_blank s = true -> strtok blanks s = None.
Proof.
  intros Hs. unfold strtok. rewrite <- (str_app_nil_r s).
  rewrite (span_app (mem_char blanks) s ""); done.
Qed.

Lemma strtok_token pre tok rest :
  all_chars is_blank pre = true ->
  tok <> EmptyString ->
  all_chars (fun c => negb (is_blank c)) tok = true ->
  rest = EmptyString \/ is_blank (chr rest 0) = true ->
  strtok blanks (pre +:+ tok +:+ rest) = Some (tok, str_tail rest).
Proof.
  intros Hpre Hne Htok Hrest. unfold strtok.
  destruct tok as [|c tok]; [done|].
  pose proof Htok as Htok'. simpl in Htok'. apply andb_prop in Htok' as [Hc _].
  rewrite (span_app (mem_char blanks) pre (String c tok +:+ rest)); [|done|].
  - simpl snd. rewrite str_app_cons, <- str_app_cons.
    rewrite (span_app _ (String c tok) rest); [done | done |].
    destruct rest as [|r0 rest]; [done|]. destruct Hrest as [? | Hr]; [done|].
    unfold chr in Hr. simpl in Hr. unfold is_blank in Hr. by rewrite Hr.
  - rewrite str_app_cons. by apply negb_true_iff in Hc.
Qed.

Lemma splits_tail c r toks :
  is_blank c = true -> splits (String c r) toks -> splits r toks.
Proof.
  intros Hc Hs. inversion Hs as [s Hall | pre tok rest toks' Hpre Hne Htok Hrest Hs' E]; subst.
  - apply splits_nil. simpl in Hall. by apply andb_prop in Hall as [_ ?].
  - destruct pre as [|c' pre].
    + rewrite str_app_nil_l in E. destruct tok as [|c' tok]; [done|].
      rewrite str_app_cons in E. injection E as -> _.
      simpl in Htok. by rewrite Hc in Htok.
    + rewrite str_app_cons in E. injection E as -> <-.
      simpl in Hpre. apply andb_prop in Hpre as [_ Hpre]. by apply splits_cons.
Qed.

Lemma splits_str_tail rest toks :
  rest = EmptyString \/ is_blank (chr rest 0) = true ->
  splits rest toks -> splits (str_tail rest) toks.
Proof.
  intros [-> | Hr] Hs; [done|]. destruct rest as [|c r]; [done|].
  simpl. by eapply splits_tail.
Qed.

Lemma strtok_loop_splits fuel : forall s toks,
  splits s toks -> (String.length s <= fuel)%nat ->
  strtok_loop fuel blanks s = toks.
Proof.
  induction fuel as [|fuel IH]; intros s toks Hs Hlen.
  - destruct s; [|simpl in Hlen; lia].
    inversion Hs as [| pre tok rest toks' Hpre Hne Htok Hrest Hs' E]; [done|].
    destruct pre; [|done]. by destruct tok.
  - inversion Hs as [s' Hall | pre tok rest toks' Hpre Hne Htok Hrest Hs' E]; subst.
    + simpl. by rewrite strtok_blank.
    + simpl. rewrite strtok_token by done. f_equal. apply IH.
      * by apply splits_str_tail.
      * rewrite !string_length_app in Hlen.
        assert (1 <= String.length tok)%nat by (destruct tok; [done | simpl; lia]).
        assert (String.length (str_tail rest) <= String.length rest)%nat
          by (destruct rest; simpl; lia).
        lia.
Qed.

(** The parser's tokens are the tokens of the source. *)
Lemma strtok_all_splits s toks :
  splits s toks -> strtok_all blanks s = toks.
Proof. intros Hs. unfold strtok_all. by apply strtok_loop_splits. Qed.

(** Every string splits into tokens. *)
Lemma splits_total s : exists toks, splits s toks.
Proof.
  induction s as [|c s [toks IH]].
  - exists []. by apply splits_nil.
  - destruct (is_blank c) eqn:Hc.
    + exists toks. inversion IH as [s' Hall | pre tok rest toks' Hpre Hne Htok Hrest Hs' E]; subst.
      * apply splits_nil. simpl. by rewrite Hc.
      * rewrite <- str_app_cons. apply splits_cons; try done. simpl. by rewrite Hc.
    + inversion IH as [s' Hall | pre tok rest toks' Hpre Hne Htok Hrest Hs' E]; subst.
      * exists [String c ""].
        change (String c s) with ("" +:+ String c "" +:+ s).
        apply splits_cons;
          [done | done | simpl; by rewrite Hc | | by apply splits_nil].
        destruct s as [|c' s]; [by left | right].
        simpl in Hall. by apply andb_prop in Hall as [? _].
      * destruct pre as [|c' pre].
        -- exists (String c tok :: toks'). rewrite str_app_nil_l.
           change (String c (tok +:+ rest)) with ("" +:+ String c tok +:+ rest).
           apply splits_cons; [done | done | simpl; by rewrite Hc | done | done].
        -- exists (String c "" :: tok :: toks').
           change (String c (String c' pre +:+ tok +:+ rest))
             with ("" +:+ String c "" +:+ (String c' pre +:+ tok +:+ rest)).
           apply splits_cons;
             [done | done | simpl; by rewrite Hc | | by apply splits_cons].
           right. simpl in Hpre. by apply andb_prop in Hpre as [? _].
Qed.

(** ** The parser's loop *)

Lemma token_node_next dat tok nd : token_node dat tok = Some nd -> rpn_next nd = None.
Proof.
  unfold token_node. destruct (is_number tok); [by intros [= <-]|].
  destruct (is_env tok); [by intros [= <-]|].
  destruct (do_lookup tok); [by intros [= <-] | done].
Qed.

(** A known token gets a fresh node, filled in and given the owner. *)
Lemma parse_token_node dat tok (h : heap) :
  match token_node dat tok with
  | Some nd =>
      exists h1, parse_token tok h = Some (fresh (dom h), h1)
                 /\ alter (fun x => set_dat x dat) (fresh (dom h)) h1
                    = <[fresh (dom h) := nd]> h
  | None => parse_token tok h = None
  end.
Proof.
  unfold token_node, parse_token, rpn_create.
  destruct (is_number tok).
  { eexists. split; [done|]. by rewrite !alter_insert_eq. }
  destruct (is_env tok).
  { destruct (env_topic tok) as [topic options]. eexists. split; [done|].
    by rewrite !alter_insert_eq. }
  destruct (do_lookup tok); [|done].
  eexists. split; [done|]. by rewrite !alter_insert_eq.
Qed.

Lemma fresh_not_linked ps ns (h0 : heap) :
  length ps = length ns ->
  (fresh (dom (link ps ns h0)) ∉ ps) /\ h0 !! fresh (dom (link ps ns h0)) = None.
Proof.
  intros Hl.
  assert (forall x, x ∉ dom (link ps ns h0) -> (x ∉ ps) /\ h0 !! x = None) as H.
  { intros x Hx. rewrite link_dom in Hx by done.
    apply not_elem_of_union in Hx as [Hps Hh].
    split; [|by apply not_elem_of_dom].
    intros Hin. apply Hps. by apply elem_of_list_to_set. }
  apply H, is_fresh.
Qed.

(** One turn of the loop for a known token: the chain grows by a node. *)
Lemma parse_loop_known_step dat tok toks nd ps ns (h0 : heap) :
  token_node dat tok = Some nd ->
  NoDup ps -> length ps = length ns ->
  exists p,
    (p ∉ ps) /\ h0 !! p = None
    /\ parse_loop (tok :: toks) dat (head ps) (last ps) (link ps ns h0)
       = parse_loop toks dat (head (ps ++ [p])) (last (ps ++ [p]))
           (link (ps ++ [p]) (ns ++ [nd]) h0).
Proof.
  intros Hnd Hdup Hl.
  destruct (fresh_not_linked ps ns h0 Hl) as [Hp Hh].
  exists (fresh (dom (link ps ns h0))). split; [done|]. split; [done|].
  pose proof (parse_token_node dat tok (link ps ns h0)) as Ht. rewrite Hnd in Ht.
  destruct Ht as (h1 & Ht & Hh1). simpl. rewrite Ht, Hh1.
  rewrite link_snoc; [| | done | by eapply token_node_next].
  - rewrite last_snoc, head_snoc.
    destruct ps as [|x ps]; [done|]. simpl head.
    destruct (last (x :: ps)) eqn:El; [done | by apply last_None in El].
  - apply NoDup_app. split; [done|]. split; [|apply NoDup_singleton].
    intros x Hx Hx'. apply list_elem_of_singleton in Hx'. by subst.
Qed.

(** Tokens that are all known compile to a chain of their nodes. *)
Lemma parse_loop_known dat toks : forall ns' ps ns (h0 : heap),
  Forall2 (fun tok nd => token_node dat tok = Some nd) toks ns' ->
  NoDup ps -> (forall p, p ∈ ps -> h0 !! p = None) -> length ps = length ns ->
  exists ps',
    parse_loop toks dat (head ps) (last ps) (link ps ns h0)
    = Some (head (ps ++ ps'), link (ps ++ ps') (ns ++ ns') h0)
    /\ chain h0 (ps ++ ps') (ns ++ ns') (head (ps ++ ps')) (link (ps ++ ps') (ns ++ ns') h0)
    /\ length ps' = length ns'.
Proof.
  induction toks as [|tok toks IH]; intros ns' ps ns h0 HF Hdup Hfresh Hl.
  - inversion HF; subst. exists []. rewrite !app_nil_r. done.
  - inversion HF as [| ? nd ? ns'' Hnd HF']; subst.
    destruct (parse_loop_known_step dat tok toks nd ps ns h0 Hnd Hdup Hl)
      as (p & Hp & Hh & ->).
    destruct (IH ns'' (ps ++ [p]) (ns ++ [nd]) h0 HF') as (ps' & E & Hc & Hl').
    + apply NoDup_app. split; [done|]. split; [|apply NoDup_singleton].
      intros x Hx Hx'. apply list_elem_of_singleton in Hx'. by subst.
    + intros x Hx. apply elem_of_app in Hx as [Hx | Hx]; [by apply Hfresh|].
      apply list_elem_of_singleton in Hx. by subst.
    + rewrite !length_app. simpl. lia.
    + exists (p :: ps'). rewrite <- !app_assoc in E, Hc. simpl in E, Hc.
      split; [done|]. split; [done|]. simpl. lia.
Qed.

(** A token that is not known frees whatever was built before it. *)
Lemma parse_loop_unknown dat toks : forall ps ns (h0 : heap),
  (exists tok, tok ∈ toks /\ token_node dat tok = None) ->
  NoDup ps -> (forall p, p ∈ ps -> h0 !! p = None) -> length ps = length ns ->
  parse_loop toks dat (head ps) (last ps) (link ps ns h0) = Some (None, h0).
Proof.
  induction toks as [|tok toks IH]; intros ps ns h0 (bad & Hin & Hbad) Hdup Hfresh Hl.
  - by apply elem_of_nil in Hin.
  - destruct (token_node dat tok) as [nd|] eqn:Hnd.
    + destruct (parse_loop_known_step dat tok toks nd ps ns h0 Hnd Hdup Hl)
        as (p & Hp & Hh & ->).
      apply IH.
      * exists bad. split; [|done]. apply elem_of_cons in Hin as [-> | ?]; [|done].
        congruence.
      * apply NoDup_app. split; [done|]. split; [|apply NoDup_singleton].
        intros x Hx Hx'. apply list_elem_of_singleton in Hx'. by subst.
      * intros x Hx. apply elem_of_app in Hx as [Hx | Hx]; [by apply Hfresh|].
        apply list_elem_of_singleton in Hx. by subst.
      * rewrite !length_app. simpl. lia.
    + pose proof (parse_token_node dat tok (link ps ns h0)) as Ht. rewrite Hnd in Ht.
      simpl. rewrite Ht. destruct (head ps) eqn:Eh.
      * rewrite <- Eh. by rewrite free_chain_link.
      * destruct ps; [|done]. by destruct ns.
Qed.

Lemma known_or_unknown dat toks :
  (exists ns, Forall2 (fun tok nd => token_node dat tok = Some nd) toks ns)
  \/ (exists tok, tok ∈ toks /\ token_node dat tok = None).
Proof.
  induction toks as [|tok toks [[ns IH] | (bad & Hin & Hbad)]].
  - left. by exists [].
  - destruct (token_node dat tok) as [nd|] eqn:Hnd.
    + left. exists (nd :: ns). by constructor.
    + right. exists tok. split; [by left | done].
  - right. exists bad. split; [by right | done].
Qed.

(** ** What the parser takes for a number, a reference and a keyword *)

Lemma strchr_digits c : strchr digits c = is_digit c || Ascii.eqb c NUL.
Proof. destruct c as [[] [] [] [] [] [] [] []]; reflexivity. Qed.

Lemma strchr_signs c : strchr "+-" c = mem_char "+-" c || Ascii.eqb c NUL.
Proof. destruct c as [[] [] [] [] [] [] [] []]; reflexivity. Qed.

(** On a token that does not start with the terminator, the parser's
    test is the definition of a numeric literal. *)
Lemma is_number_literal tok :
  Ascii.eqb (chr tok 0) NUL = false -> is_number tok = numeric_literal tok.
Proof.
  intros H0. unfold is_number, numeric_literal.
  rewrite !strchr_digits, strchr_signs, H0, !orb_false_r.
  generalize (is_digit (chr tok 0)) (mem_char "+-" (chr tok 0)). intros d0 m0.
  destruct (Ascii.eqb_spec (chr tok 1) NUL) as [-> | _].
  - change (is_digit NUL) with false. by destruct d0, m0.
  - generalize (is_digit (chr tok 1)). intros d1. by destruct d0, m0, d1.
Qed.

Lemma chr_head c s : chr (String c s) 0 = c.
Proof. done. Qed.

Lemma c_string_head c s :
  c_string (String c s) = true -> Ascii.eqb (chr (String c s) 0) NUL = false.
Proof.
  unfold c_string. simpl. intros H. apply andb_prop in H as [H _].
  by apply negb_true_iff in H.
Qed.

Lemma get_last_cons a (s : string) :
  s <> EmptyString ->
  String.get (String.length (String a s) - 1) (String a s)
  = String.get (String.length s - 1) s.
Proof. destruct s as [|b s]; [done|]. intros _. simpl. by rewrite Nat.sub_0_r. Qed.

Lemma get_last_split (s : string) c :
  String.get (String.length s - 1) s = Some c -> exists body, s = body +:+ String c "".
Proof.
  induction s as [|a s IH]; [done|]. destruct s as [|b s].
  - simpl. intros [= ->]. by exists ""%string.
  - rewrite get_last_cons by done. intros H. destruct (IH H) as [body ->].
    exists (String a body). by rewrite str_app_cons.
Qed.

Lemma is_env_reference tok : is_env tok = true -> signal_reference tok.
Proof.
  unfold is_env, signal_reference. intros H.
  apply andb_prop in H as [H H3]. apply andb_prop in H as [H1 H2].
  destruct tok as [|c0 [|c1 r]]; [done | done |].
  unfold chr in H1, H2. simpl in H1, H2.
  apply Ascii.eqb_eq in H1 as ->. apply Ascii.eqb_eq in H2 as ->.
  unfold chr in H3. destruct r as [|c2 r]; [done|].
  rewrite !get_last_cons in H3 by done.
  destruct (String.get (String.length (String c2 r) - 1) (String c2 r)) as [c|] eqn:E;
    [|done].
  simpl in H3. apply Ascii.eqb_eq in H3 as ->.
  destruct (get_last_split _ _ E) as [body ->]. by exists body.
Qed.

Lemma lookup_in_elem table tok run :
  lookup_in table tok = Some run -> tok ∈ table.*1.
Proof.
  induction table as [|[str r] table IH]; [done|]. simpl.
  destruct (String.eqb_spec str tok) as [-> | _]; [by left|].
  intros H. right. by apply IH.
Qed.

Lemma do_lookup_keyword tok run : do_lookup tok = Some run -> tok ∈ keywords.
Proof. intros H. apply lookup_in_elem in H. exact H. Qed.

(** The parser has no node for a token that the specification does not
    know. *)
Lemma unknown_token_node dat tok :
  tok <> EmptyString -> c_string tok = true -> unknown_token tok ->
  token_node dat tok = None.
Proof.
  intros Hne Hc (Hnum & Href & Hkw). destruct tok as [|c tok]; [done|].
  unfold token_node. rewrite is_number_literal by (by apply c_string_head).
  rewrite Hnum. destruct (is_env (String c tok)) eqn:Eenv.
  { by apply is_env_reference in Eenv. }
  destruct (do_lookup (String c tok)) eqn:El; [|done].
  by apply do_lookup_keyword in El.
Qed.

Lemma all_chars_app p (a b : string) :
  all_chars p (a +:+ b) = all_chars p a && all_chars p b.
Proof.
  induction a as [|c a IH]; [done|]. rewrite str_app_cons. simpl.
  by rewrite IH, andb_assoc.
Qed.

Lemma splits_c_string src toks :
  splits src toks -> c_string src = true ->
  Forall (fun tok => tok <> EmptyString /\ c_string tok = true) toks.
Proof.
  induction 1 as [| pre tok rest toks Hpre Hne Htok Hrest Hs IH]; intros Hc; [done|].
  unfold c_string in Hc. rewrite !all_chars_app in Hc.
  apply andb_prop in Hc as [_ Hc]. apply andb_prop in Hc as [Hc1 Hc2].
  constructor; [done | by apply IH].
Qed.

(** ** Compilation is all or nothing *)

(** C3.  When a token of the source is neither a numeric literal, nor a
    reference [${...}], nor a keyword, [rpn_parse] returns NULL and leaves
    the heap as it found it: every node it had made is freed.  In any
    case what it returns is NULL with the heap as before, or a chain that
    holds one node for each token.  For "3 bogus +" it returns NULL. *)
Theorem compile_is_atomic src toks dat (h : heap) :
  c_string src = true -> splits src toks ->
  ((exists tok, tok ∈ toks /\ unknown_token tok) ->
   rpn_parse src dat h = Some (None, h))
  /\ (exists root h',
        rpn_parse src dat h = Some (root, h')
        /\ ((root = None /\ h' = h)
            \/ exists ps ns,
                 chain h ps ns root h'
                 /\ Forall2 (fun tok nd => token_node dat tok = Some nd) toks ns))
  /\ rpn_parse "3 bogus +" dat ∅ = Some (None, ∅).
Proof.
  intros Hc Hs. pose proof (splits_c_string src toks Hs Hc) as Htoks.
  unfold rpn_parse. rewrite (strtok_all_splits src toks Hs).
  assert (forall toks', (exists tok, tok ∈ toks' /\ token_node dat tok = None) ->
            parse_loop toks' dat None None h = Some (None, h)) as Hbad.
  { intros toks' Hex.
    apply (parse_loop_unknown dat toks' [] [] h Hex); [apply NoDup_nil_2 | | done].
    intros p Hp. by apply elem_of_nil in Hp. }
  split; [|split].
  - intros (tok & Hin & Hu). apply Hbad. exists tok. split; [done|].
    rewrite Forall_forall in Htoks. destruct (Htoks tok Hin) as [? ?].
    by apply unknown_token_node.
  - destruct (known_or_unknown dat toks) as [[ns HF] | Hex].
    + destruct (parse_loop_known dat toks ns [] [] h HF) as (ps & E & Hch & Hl);
        [apply NoDup_nil_2 | | done |].
      { intros p Hp. by apply elem_of_nil in Hp. }
      simpl in E, Hch. eexists _, _. split; [exact E|]. right. by exists ps, ns.
    + eexists _, _. split; [by apply Hbad|]. by left.
  - vm_compute. reflexivity.
Qed.

(** ** Postfix expressions *)

Lemma numeric_literal_is_number lit :
  numeric_literal lit = true -> is_number lit = true.
Proof.
  intros H. rewrite is_number_literal; [done|].
  destruct (Ascii.eqb_spec (chr lit 0) NUL) as [E | _]; [|done].
  unfold numeric_literal in H. rewrite E in H. done.
Qed.

Lemma well_formed_node dat t :
  well_formed t = true -> token_node dat (spell t) = Some (node_of dat t).
Proof.
  destruct t as [lit | o]; simpl; intros H.
  - unfold token_node. by rewrite numeric_literal_is_number.
  - destruct o; try done; reflexivity.
Qed.

Lemma reverse2 (a b : float) r : reverse (b :: a :: r) = reverse r ++ [a; b].
Proof. by rewrite !reverse_cons, <- app_assoc. Qed.

Lemma reverse1 (a : float) r : reverse (a :: r) = reverse r ++ [a].
Proof. by rewrite reverse_cons. Qed.

Lemma truth_double (b : bool) : double_of_int (int_of_bool b) = truth b.
Proof. by destruct b. Qed.

(** One token: the node's function on the array does what the token does
    on the list, and leaves the node and the world alone. *)
Lemma token_step pow dat t nxt st stk stk' p w :
  well_formed t = true -> postfix_step pow t stk = Some stk' ->
  stack_ok st -> contents st = reverse stk ->
  exists o st',
    rpn_op (set_next (node_of dat t) nxt) = Some o
    /\ run_op pow o st p (set_next (node_of dat t) nxt) w
       = (0, st', set_next (node_of dat t) nxt, w)
    /\ stack_ok st' /\ contents st' = reverse stk'.
Proof.
  intros Hwf Hstep Hok Hc. destruct t as [lit | o].
  - simpl in Hstep. injection Hstep as <-. exists do_const. simpl.
    destruct (push_contents st (const_value lit) Hok) as [Hok' Hc'].
    eexists. split; [done|]. split; [reflexivity|]. split; [done|].
    by rewrite Hc', Hc, reverse1.
  - exists o. simpl in Hwf.
    destruct o; try done; simpl in Hstep;
      repeat match type of Hstep with
             | match ?l with _ => _ end = _ => destruct l as [|? ?]; try done
             end;
      injection Hstep as <-;
      rewrite ?reverse2, ?reverse1 in Hc; simpl;
      unfold rpn_do_plus, rpn_do_minus, rpn_do_mul, rpn_do_div, rpn_do_pow,
        rpn_do_bitand, rpn_do_bitor, rpn_do_bitxor, rpn_do_bitinv,
        rpn_do_booland, rpn_do_boolor, rpn_do_boolnot, rpn_do_lt, rpn_do_gt,
        int_binop;
      first
        [ match goal with
          | |- context [binop ?f st] =>
              destruct (binop_spec f st _ _ _ Hok Hc) as (st' & -> & Hok' & Hc')
          end
        | match goal with
          | |- context [unop ?f st] =>
              destruct (unop_spec f st _ _ Hok Hc) as (st' & -> & Hok' & Hc')
          end
        | destruct (dup_spec st _ _ Hok Hc) as (st' & -> & Hok' & Hc')
        | destruct (swap_spec st _ _ _ Hok Hc) as (st' & -> & Hok' & Hc') ];
      exists st'; (split; [done|]); (split; [done|]); (split; [done|]);
      rewrite Hc', ?reverse2, ?reverse1, <- ?app_assoc; simpl; try done;
      unfold c_and, c_or, c_not, d_lt, d_gt, nonzero, truncated;
      rewrite ?truth_double, ?negb_involutive; done.
Qed.

(** The walk over a chain of well-formed tokens, from any node of it. *)
Lemma run_chain pow dat (h0 : heap) w toks2 :
  forall toks1 ps1 ps2 st stk stk' fuel,
  NoDup (ps1 ++ ps2) ->
  length ps1 = length toks1 -> length ps2 = length toks2 ->
  Forall (fun t => well_formed t = true) toks2 ->
  postfix_eval pow toks2 stk = Some stk' ->
  stack_ok st -> contents st = reverse stk ->
  (length toks2 <= fuel)%nat ->
  let h := link (ps1 ++ ps2) (node_of dat <$> (toks1 ++ toks2)) h0 in
  exists st',
    rpn_run pow fuel st (head ps2) h w = Some (0, st', h, w)
    /\ stack_ok st' /\ contents st' = reverse stk'.
Proof.
  induction toks2 as [|t toks2 IH];
    intros toks1 ps1 ps2 st stk stk' fuel Hdup Hl1 Hl2 Hwf Hev Hok Hc Hfuel h.
  - destruct ps2; [|done]. simpl in Hev. injection Hev as <-.
    exists st. by destruct fuel.
  - destruct ps2 as [|p ps2]; [done|]. injection Hl2 as Hl2.
    destruct fuel as [|fuel]; [simpl in Hfuel; lia|].
    apply Forall_cons in Hwf as [Hwt Hwf].
    simpl in Hev. destruct (postfix_step pow t stk) as [stk1|] eqn:Hstep; [|done].
    assert (h !! p = Some (set_next (node_of dat t) (head ps2))) as Hp.
    { subst h. rewrite (link_lookup _ _ _ (length ps1) p (node_of dat t) Hdup).
      - f_equal. f_equal. rewrite lookup_app_r by lia.
        replace (S (length ps1) - length ps1)%nat with 1%nat by lia.
        simpl. by rewrite head_lookup.
      - by rewrite list_lookup_middle.
      - rewrite list_lookup_fmap, Hl1, list_lookup_middle; done. }
    destruct (token_step pow dat t (head ps2) st stk stk1 p w Hwt Hstep Hok Hc)
      as (o & st1 & Ho & Hrun & Hok1 & Hc1).
    assert (call pow st p h w = Some (0, st1, h, w)) as Hcall.
    { unfold call. rewrite Hp, Ho, Hrun. by rewrite insert_id. }
    simpl. rewrite Hcall. simpl.
    assert (next_of h p = head ps2) as ->. { unfold next_of. by rewrite Hp. }
    specialize (IH (toks1 ++ [t]) (ps1 ++ [p]) ps2 st1 stk1 stk' fuel).
    rewrite <- !app_assoc in IH. simpl in IH. apply IH; try done.
    + rewrite !length_app. simpl. lia.
    + simpl in Hfuel. lia.
Qed.

(** C1, as the code has it.  A source whose tokens, separated by spaces
    and tabs (the delimiters that [rpn_parse] gives [strtok]), are numeric
    literals and operators without state, and whose postfix evaluation
    from the empty stack succeeds with the values [stk], compiles to a
    chain; running the chain on a reset stack returns 0, leaves exactly
    [stk] in use (the top is last in the array) and changes neither the
    chain nor the world.  "3 4 +" leaves the single value 7. *)
Theorem compile_then_run pow toks src stk dat (h : heap) st w fuel :
  Forall (fun t => well_formed t = true) toks ->
  splits src (spell <$> toks) ->
  postfix_eval pow toks [] = Some stk ->
  stack_ok st -> (length toks <= fuel)%nat ->
  (exists root h' st',
      rpn_parse src dat h = Some (root, h')
      /\ rpn_run pow fuel (rpn_stack_reset st) root h' w = Some (0, st', h', w)
      /\ contents st' = reverse stk)
  /\ compile_and_run pow "3 4 +" world0 = Some (0, [7%float]).
Proof.
  intros Hwf Hs Hev Hok Hfuel. split; [|vm_compute; reflexivity].
  unfold rpn_parse. rewrite (strtok_all_splits _ _ Hs).
  assert (Forall2 (fun tok nd => token_node dat tok = Some nd)
            (spell <$> toks) (node_of dat <$> toks)) as HF.
  { apply Forall2_fmap, Forall_Forall2_diag.
    eapply Forall_impl; [exact Hwf|]. intros t Ht. by apply well_formed_node. }
  destruct (parse_loop_known dat _ _ [] [] h HF) as (ps & E & Hch & Hl);
    [apply NoDup_nil_2 | | done |].
  { intros p Hp. by apply elem_of_nil in Hp. }
  simpl in E, Hch. destruct Hch as (Hdup & Hfresh & _ & _ & _).
  rewrite length_fmap in Hl.
  destruct (reset_contents st Hok) as [Hok0 Hc0].
  destruct (run_chain pow dat h w toks [] [] ps (rpn_stack_reset st) [] stk fuel)
    as (st' & Hrun & _ & Hc'); try done.
  simpl in Hrun. eauto 10.
Qed.

(** Other white space does not separate tokens.  The tokens 3, 4 and +
    evaluate to 7, but written with newlines between them they are one
    token to the parser, a literal whose number is 3, and the run leaves
    3; with a newline behind it, "3 4 +" ends in an unknown token and
    compiles to no chain. *)
Lemma newline_is_no_separator :
  isspace NL = true /\ is_blank NL = false
  /\ postfix_eval (fun x _ => x) [Num "3"; Num "4"; Op do_plus] [] = Some [7%float]
  /\ strtok_all blanks (String "3" (String NL (String "4" (String NL "+"))))
     = [String "3" (String NL (String "4" (String NL "+")))]
  /\ compile_and_run (fun x _ => x)
       (String "3" (String NL (String "4" (String NL "+")))) world0
     = Some (0, [3%float])
  /\ PrimFloat.eqb 3 7 = false
  /\ rpn_parse ("3 4 +" +:+ String NL "") 0 ∅ = Some (None, ∅).
Proof. repeat split; vm_compute; reflexivity. Qed.

(** ** The delay operators *)

Lemma land_2 (c : Z) : Z.land c 2 = if Z.testbit c 1 then 2 else 0.
Proof.
  apply Z.bits_inj'. intros n Hn. rewrite Z.land_spec.
  destruct (Z.eq_dec n 1) as [-> | Hne].
  - by destruct (Z.testbit c 1); rewrite ?andb_true_r.
  - assert (Z.testbit 2 n = false) as ->.
    { change 2 with (2 ^ 1). rewrite Z.pow2_bits_eqb by lia.
      apply Z.eqb_neq. lia. }
    rewrite andb_false_r. destruct (Z.testbit c 1); [|by rewrite Z.bits_0].
    change 2 with (2 ^ 1). rewrite Z.pow2_bits_eqb by lia. symmetry.
    apply Z.eqb_neq. lia.
Qed.

Lemma land_1 (c : Z) : Z.land c 1 = if Z.testbit c 0 then 1 else 0.
Proof.
  apply Z.bits_inj'. intros n Hn. rewrite Z.land_spec.
  destruct (Z.eq_dec n 0) as [-> | Hne].
  - by destruct (Z.testbit c 0); rewrite ?andb_true_r.
  - assert (Z.testbit 1 n = false) as ->.
    { change 1 with (2 ^ 0). rewrite Z.pow2_bits_eqb by lia.
      apply Z.eqb_neq. lia. }
    rewrite andb_false_r. destruct (Z.testbit c 0); [|by rewrite Z.bits_0].
    change 1 with (2 ^ 0). rewrite Z.pow2_bits_eqb by lia. symmetry.
    apply Z.eqb_neq. lia.
Qed.

(** The common end of the three operators: bit 0 becomes the input, and
    the output is bit 1. *)
Lemma delay_finish_spec st me t x d l c :
  stack_ok st -> contents st = l ++ [x; d] -> rpn_cookie me = c ->
  let c' := Z.lor (Z.land c (Z.lnot 1)) (int_of_bool (nonzero x)) in
  exists st',
    delay_finish st (int_of_double x) me t = (0, st', set_cookie me c', t)
    /\ stack_ok st'
    /\ contents st' = l ++ [truth (Z.testbit c' 1)]
    /\ Z.testbit c' 0 = nonzero x
    /\ Z.testbit c' 1 = Z.testbit c 1.
Proof.
  intros Hok Hc <- c'. unfold delay_finish.
  assert (c_not (c_not (int_of_double x)) = int_of_bool (nonzero x)) as ->.
  { unfold c_not, nonzero. by destruct (int_of_double x =? 0). }
  fold c'. cbn [rpn_cookie set_cookie].
  assert (double_of_int (c_not (c_not (Z.land c' 2))) = truth (Z.testbit c' 1)) as ->.
  { rewrite land_2. by destruct (Z.testbit c' 1). }
  destruct (poke_suffix st l [x; d] 2 (truth (Z.testbit c' 1)) Hok Hc) as [Hok1 E1];
    [simpl; lia|]. simpl in E1.
  destruct (drop_suffix _ l [truth (Z.testbit c' 1); d] 1 Hok1 E1) as [Hok2 E2];
    [simpl; lia|]. simpl in E2.
  eexists. split; [reflexivity|]. split; [done|]. split; [done|].
  subst c'. rewrite !Z.lor_spec, !Z.land_spec. split.
  - change (Z.testbit (Z.lnot 1) 0) with false. rewrite andb_false_r.
    by destruct (nonzero x).
  - change (Z.testbit (Z.lnot 1) 1) with true. rewrite andb_true_r.
    destruct (nonzero x); simpl; by rewrite orb_false_r.
Qed.

Lemma edge_tests (c : Z) (x : float) :
  negb (int_of_double x =? 0) && (Z.land c 1 =? 0) = rising_edge c x
  /\ (int_of_double x =? 0) && negb (Z.land c 1 =? 0) = falling_edge c x.
Proof.
  unfold rising_edge, falling_edge, nonzero. rewrite land_1.
  destruct (int_of_double x =? 0), (Z.testbit c 0); done.
Qed.

Lemma edges_exclusive c x : rising_edge c x = true -> falling_edge c x = false.
Proof.
  unfold rising_edge, falling_edge. destruct (nonzero x), (Z.testbit c 0); done.
Qed.

(** [ondelay] on the values in use: a rising edge sets the timer, a falling
    edge removes it and clears bit 1; then bit 0 is the input and the
    output is bit 1. *)
Lemma ondelay_spec st p me t x d l :
  stack_ok st -> contents st = l ++ [x; d] ->
  let c := rpn_cookie me in
  let c' := seen (if falling_edge c x then Z.land c (Z.lnot 2) else c) x in
  let t' :=
    if rising_edge c x then libt_add_timeout d (on_delay_of p) t
    else if falling_edge c x then libt_remove_timeout (on_delay_of p) t
    else t in
  exists st',
    rpn_do_ondelay st p me t = (0, st', set_cookie me c', t')
    /\ stack_ok st' /\ contents st' = l ++ [truth (Z.testbit c' 1)]
    /\ Z.testbit c' 0 = nonzero x
    /\ Z.testbit c' 1 = (if falling_edge c x then false else Z.testbit c 1).
Proof.
  intros Hok Hc. cbv zeta. unfold rpn_do_ondelay, seen. set (c := rpn_cookie me).
  rewrite (depth_suffix st l [x; d]) by (done || simpl; lia).
  rewrite (peek_suffix st l [x; d] 2 Hok Hc), (peek_suffix st l [x; d] 1 Hok Hc)
    by (simpl; lia).
  simpl default. destruct (edge_tests c x) as [-> ->].
  destruct (rising_edge c x) eqn:Er.
  - rewrite (edges_exclusive _ _ Er).
    destruct (delay_finish_spec st me (libt_add_timeout d (on_delay_of p) t) x d l c
                Hok Hc eq_refl) as (st' & -> & ? & ? & ? & ?).
    by exists st'.
  - destruct (falling_edge c x) eqn:Ef.
    + destruct (delay_finish_spec st (set_cookie me (Z.land c (Z.lnot 2)))
                  (libt_remove_timeout (on_delay_of p) t) x d l
                  (Z.land c (Z.lnot 2)) Hok Hc eq_refl)
        as (st' & -> & ? & ? & ? & E).
      exists st'. do 4 (split; [done|]). rewrite E, Z.land_spec.
      change (Z.testbit (Z.lnot 2) 1) with false. by rewrite andb_false_r.
    + destruct (delay_finish_spec st me t x d l c Hok Hc eq_refl)
        as (st' & -> & ? & ? & ? & ?).
      by exists st'.
Qed.

(** [pulse] on the values in use: a rising edge sets the timer and bit 1,
    a falling edge removes the timer and leaves bit 1 as it is. *)
Lemma pulse_spec st p me t x d l :
  stack_ok st -> contents st = l ++ [x; d] ->
  let c := rpn_cookie me in
  let c' := seen (if rising_edge c x then Z.lor c 2 else c) x in
  let t' :=
    if rising_edge c x then libt_add_timeout d (on_delay_of p) t
    else if falling_edge c x then libt_remove_timeout (on_delay_of p) t
    else t in
  exists st',
    rpn_do_pulse st p me t = (0, st', set_cookie me c', t')
    /\ stack_ok st' /\ contents st' = l ++ [truth (Z.testbit c' 1)]
    /\ Z.testbit c' 0 = nonzero x
    /\ Z.testbit c' 1 = (if rising_edge c x then true else Z.testbit c 1).
Proof.
  intros Hok Hc. cbv zeta. unfold rpn_do_pulse, seen. set (c := rpn_cookie me).
  rewrite (depth_suffix st l [x; d]) by (done || simpl; lia).
  rewrite (peek_suffix st l [x; d] 2 Hok Hc), (peek_suffix st l [x; d] 1 Hok Hc)
    by (simpl; lia).
  simpl default. destruct (edge_tests c x) as [-> ->].
  destruct (rising_edge c x) eqn:Er.
  - destruct (delay_finish_spec st (set_cookie me (Z.lor c 2))
                (libt_add_timeout d (on_delay_of p) t) x d l (Z.lor c 2)
                Hok Hc eq_refl) as (st' & -> & ? & ? & ? & E).
    exists st'. do 4 (split; [done|]). rewrite E, Z.lor_spec.
    change (Z.testbit 2 1) with true. by rewrite orb_true_r.
  - destruct (falling_edge c x) eqn:Ef.
    + destruct (delay_finish_spec st me (libt_remove_timeout (on_delay_of p) t) x d l c
                  Hok Hc eq_refl) as (st' & -> & ? & ? & ? & ?).
      by exists st'.
    + destruct (delay_finish_spec st me t x d l c Hok Hc eq_refl)
        as (st' & -> & ? & ? & ? & ?).
      by exists st'.
Qed.

Lemma seen_high c x :
  nonzero x = true -> Z.testbit c 0 = true -> seen c x = c.
Proof.
  intros Hx Hc. unfold seen. rewrite Hx. simpl int_of_bool.
  apply Z.bits_inj'. intros n Hn. rewrite Z.lor_spec, Z.land_spec.
  destruct (Z.eq_dec n 0) as [-> | Hne].
  - rewrite Hc. by rewrite orb_true_r.
  - rewrite Z.lnot_spec by done.
    assert (Z.testbit 1 n = false) as ->.
    { change 1 with (2 ^ 0). rewrite Z.pow2_bits_eqb by lia. apply Z.eqb_neq. lia. }
    simpl. by rewrite andb_true_r, orb_false_r.
Qed.

Lemma set_cookie_id me : set_cookie me (rpn_cookie me) = me.
Proof. by destruct me. Qed.

Lemma play_app pow p es1 es2 c :
  play pow p (es1 ++ es2) c
  = match play pow p es1 c with
    | Some (o1, c1) =>
        match play pow p es2 c1 with
        | Some (o2, c2) => Some (o1 ++ o2, c2)
        | None => None
        end
    | None => None
    end.
Proof.
  revert c. induction es1 as [|e es1 IH]; intros c; simpl.
  - by destruct (play pow p es2 c) as [[? ?]|].
  - destruct (node_event pow p e c) as [[o c1]|]; [|done]. rewrite IH.
    destruct (play pow p es1 c1) as [[o1 c2]|]; [|done].
    by destruct (play pow p es2 c2) as [[? ?]|].
Qed.

Lemma event_stack x d :
  stack_ok (rpn_push (rpn_push stack_init x) d)
  /\ contents (rpn_push (rpn_push stack_init x) d) = [] ++ [x; d].
Proof. split; [|done]. unfold stack_ok. simpl. lia. Qed.

(** An evaluation of an [ondelay] node, as an event. *)
Lemma ondelay_event pow p me (h : heap) w x d :
  h !! p = Some me -> rpn_op me = Some do_ondelay ->
  let c := rpn_cookie me in
  let c' := seen (if falling_edge c x then Z.land c (Z.lnot 2) else c) x in
  let t' :=
    if rising_edge c x then libt_add_timeout d (on_delay_of p) (timers w)
    else if falling_edge c x then libt_remove_timeout (on_delay_of p) (timers w)
    else timers w in
  node_event pow p (Evaluate x d) (h, w)
  = Some (Some [truth (Z.testbit c' 1)], (<[p := set_cookie me c']> h, set_timers w t')).
Proof.
  intros Hp Ho. cbv zeta. unfold node_event, call. rewrite Hp, Ho.
  destruct (event_stack x d) as [Hok Hc]. simpl run_op.
  destruct (ondelay_spec _ p me (timers w) x d [] Hok Hc) as (st' & E & _ & Ec & _).
  rewrite E. simpl. by rewrite Ec.
Qed.

(** An evaluation of a [pulse] node, as an event. *)
Lemma pulse_event pow p me (h : heap) w x d :
  h !! p = Some me -> rpn_op me = Some do_pulse ->
  let c := rpn_cookie me in
  let c' := seen (if rising_edge c x then Z.lor c 2 else c) x in
  let t' :=
    if rising_edge c x then libt_add_timeout d (on_delay_of p) (timers w)
    else if falling_edge c x then libt_remove_timeout (on_delay_of p) (timers w)
    else timers w in
  node_event pow p (Evaluate x d) (h, w)
  = Some (Some [truth (Z.testbit c' 1)], (<[p := set_cookie me c']> h, set_timers w t')).
Proof.
  intros Hp Ho. cbv zeta. unfold node_event, call. rewrite Hp, Ho.
  destruct (event_stack x d) as [Hok Hc]. simpl run_op.
  destruct (pulse_spec _ p me (timers w) x d [] Hok Hc) as (st' & E & _ & Ec & _).
  rewrite E. simpl. by rewrite Ec.
Qed.

(** While the input stays high, a node whose bit 0 is set is evaluated
    without any change: the output is bit 1 each time. *)
Lemma hold_high pow p o me (h : heap) w (highs : list (float * float)) :
  o = do_ondelay \/ o = do_pulse ->
  h !! p = Some me -> rpn_op me = Some o -> Z.testbit (rpn_cookie me) 0 = true ->
  Forall (fun e => nonzero e.1 = true) highs ->
  play pow p ((fun e => Evaluate e.1 e.2) <$> highs) (h, w)
  = Some (replicate (length highs) (Some [truth (Z.testbit (rpn_cookie me) 1)]), (h, w)).
Proof.
  intros Hoo Hp Ho Hb Hall. induction Hall as [|[x d] highs Hx _ IH]; [done|].
  simpl in Hx. cbn [fmap list_fmap play length replicate fst snd].
  assert (rising_edge (rpn_cookie me) x = false) as Er.
  { unfold rising_edge. by rewrite Hb, andb_false_r. }
  assert (falling_edge (rpn_cookie me) x = false) as Ef.
  { unfold falling_edge. by rewrite Hx. }
  assert (node_event pow p (Evaluate x d) (h, w)
          = Some (Some [truth (Z.testbit (rpn_cookie me) 1)], (h, w))) as ->.
  { destruct Hoo as [-> | ->].
    - rewrite (ondelay_event pow p me h w x d Hp Ho). rewrite Er, Ef.
      rewrite seen_high by done. by rewrite set_cookie_id, insert_id, set_timers_same.
    - rewrite (pulse_event pow p me h w x d Hp Ho). rewrite Er, Ef.
      rewrite seen_high by done. by rewrite set_cookie_id, insert_id, set_timers_same. }
  by rewrite IH.
Qed.

Lemma remove_added k d t :
  pending k t = false -> libt_remove_timeout k ((d, k) :: t) = t.
Proof.
  intros H. unfold libt_remove_timeout. rewrite filter_cons. simpl.
  rewrite decide_False by (by intros ?). by apply remove_not_pending.
Qed.

Lemma add_not_pending k d t :
  pending k t = false -> libt_add_timeout d k t = (d, k) :: t.
Proof. intros H. unfold libt_add_timeout. by rewrite remove_not_pending. Qed.

Lemma pending_head k d t : pending k ((d, k) :: t) = true.
Proof. unfold pending. apply bool_decide_eq_true. simpl. left. Qed.

Lemma set_timers_twice w t : set_timers (set_timers w t) (timers w) = w.
Proof. by destruct w. Qed.

(** The input of a fresh [ondelay] node goes high and stays high: the
    timer is set once, with the delay of the rising edge, and the output
    is 0 each time. *)
Lemma ondelay_goes_high pow p me (h : heap) w x0 d0 highs :
  h !! p = Some me -> rpn_op me = Some do_ondelay -> rpn_cookie me = 0 ->
  pending (on_delay_of p) (timers w) = false ->
  nonzero x0 = true -> Forall (fun e => nonzero e.1 = true) highs ->
  play pow p (Evaluate x0 d0 :: ((fun e => Evaluate e.1 e.2) <$> highs)) (h, w)
  = Some (replicate (S (length highs)) (Some [0%float]),
          (<[p := set_cookie me 1]> h,
           set_timers w ((d0, on_delay_of p) :: timers w))).
Proof.
  intros Hp Ho Hc Hpend Hx0 Hhighs. cbn [play].
  rewrite (ondelay_event pow p me h w x0 d0 Hp Ho), Hc.
  assert (rising_edge 0 x0 = true) as -> by (unfold rising_edge; by rewrite Hx0).
  assert (falling_edge 0 x0 = false) as -> by (unfold falling_edge; by rewrite Hx0).
  assert (seen 0 x0 = 1) as -> by (unfold seen; by rewrite Hx0).
  rewrite add_not_pending by done.
  rewrite (hold_high pow p do_ondelay (set_cookie me 1)); try done.
  - by left.
  - by rewrite lookup_insert_eq.
Qed.

Lemma lxor_2_bits (c n : Z) :
  0 <= n ->
  Z.testbit (Z.lxor c 2) n = if n =? 1 then negb (Z.testbit c n) else Z.testbit c n.
Proof.
  intros Hn. rewrite Z.lxor_spec. change 2 with (2 ^ 1).
  rewrite Z.pow2_bits_eqb by lia. rewrite (Z.eqb_sym 1 n).
  destruct (n =? 1); [by rewrite xorb_true_r | by rewrite xorb_false_r].
Qed.

(** C5.  A fresh [ondelay] node whose input goes high sets the timer
    [on_delay] with the delay on the stack and puts out 0, and goes on
    putting out 0 while the input stays high.  When the timer fires, bit 1
    of the state is toggled and the owner is asked to run again; the
    evaluations that follow put out 1.  When instead the input drops, the
    timer is removed (it cannot fire any more), the output stays 0 and the
    node and the timers are as at the start.  Whatever the state, after an
    evaluation bit 0 is the input seen and the output is bit 1, which a
    falling edge clears. *)
Theorem ondelay_waits_for_timer pow p me (h : heap) w x0 d0 highs highs' lo dlo :
  h !! p = Some me -> rpn_op me = Some do_ondelay -> rpn_cookie me = 0 ->
  pending (on_delay_of p) (timers w) = false ->
  nonzero x0 = true ->
  Forall (fun e => nonzero e.1 = true) highs ->
  Forall (fun e => nonzero e.1 = true) highs' ->
  nonzero lo = false ->
  let up := Evaluate x0 d0 :: ((fun e => Evaluate e.1 e.2) <$> highs) in
  let zeros := replicate (S (length highs)) (Some [0%float]) in
  play pow p up (h, w)
  = Some (zeros, (<[p := set_cookie me 1]> h,
                  set_timers w ((d0, on_delay_of p) :: timers w)))
  /\ play pow p (up ++ Fire :: ((fun e => Evaluate e.1 e.2) <$> highs')) (h, w)
     = Some (zeros ++ None :: replicate (length highs') (Some [1%float]),
             (<[p := set_cookie me 3]> h, rpn_run_again (rpn_dat me) w))
  /\ play pow p (up ++ [Evaluate lo dlo]) (h, w)
     = Some (zeros ++ [Some [0%float]], (h, w))
  /\ play pow p (up ++ [Evaluate lo dlo; Fire]) (h, w) = None
  /\ (forall st nd t x d l,
        stack_ok st -> contents st = l ++ [x; d] ->
        exists st' c' t',
          rpn_do_ondelay st p nd t = (0, st', set_cookie nd c', t')
          /\ contents st' = l ++ [truth (Z.testbit c' 1)]
          /\ Z.testbit c' 0 = nonzero x
          /\ Z.testbit c' 1
             = (if falling_edge (rpn_cookie nd) x then false
                else Z.testbit (rpn_cookie nd) 1))
  /\ (forall nd (h' : heap) w',
        h' !! p = Some nd ->
        on_delay p h' w'
        = Some (<[p := set_cookie nd (Z.lxor (rpn_cookie nd) 2)]> h',
                rpn_run_again (rpn_dat nd) w')
        /\ forall n, 0 <= n ->
             Z.testbit (Z.lxor (rpn_cookie nd) 2) n
             = if n =? 1 then negb (Z.testbit (rpn_cookie nd) n)
               else Z.testbit (rpn_cookie nd) n).
Proof.
  intros Hp Ho Hc Hpend Hx0 Hhighs Hhighs' Hlo up zeros.
  pose proof (ondelay_goes_high pow p me h w x0 d0 highs Hp Ho Hc Hpend Hx0 Hhighs)
    as Hup. fold up zeros in Hup.
  set (h1 := <[p := set_cookie me 1]> h) in *.
  set (w1 := set_timers w ((d0, on_delay_of p) :: timers w)) in *.
  assert (h1 !! p = Some (set_cookie me 1)) as Hp1 by apply lookup_insert_eq.
  assert (node_event pow p (Evaluate lo dlo) (h1, w1) = Some (Some [0%float], (h, w)))
    as Hdrop.
  { rewrite (ondelay_event pow p _ h1 w1 lo dlo Hp1 Ho). cbn [rpn_cookie set_cookie].
    assert (rising_edge 1 lo = false) as -> by (unfold rising_edge; by rewrite Hlo).
    assert (falling_edge 1 lo = true) as -> by (unfold falling_edge; by rewrite Hlo).
    assert (seen (Z.land 1 (Z.lnot 2)) lo = 0) as -> by (unfold seen; by rewrite Hlo).
    subst h1 w1. cbn [timers set_timers]. rewrite remove_added by done.
    rewrite insert_insert_eq. do 3 f_equal.
    - rewrite <- Hc. change (set_cookie (set_cookie me 1) (rpn_cookie me))
        with (set_cookie me (rpn_cookie me)).
      by rewrite set_cookie_id, insert_id.
    - by destruct w. }
  split; [done|]. split; [|split; [|split; [|split]]].
  - rewrite play_app, Hup. cbn [play node_event].
    unfold libt_fire. subst w1. cbn [timers set_timers].
    rewrite pending_head, remove_added by done. unfold on_delay. rewrite Hp1.
    cbn [rpn_cookie set_cookie rpn_dat]. change (Z.lxor 1 2) with 3.
    subst h1. rewrite insert_insert_eq.
    change (set_cookie (set_cookie me 1) 3) with (set_cookie me 3).
    rewrite set_timers_twice.
    rewrite (hold_high pow p do_ondelay (set_cookie me 3)); try done.
    + by left.
    + by rewrite lookup_insert_eq.
  - rewrite play_app, Hup. cbn [play]. by rewrite Hdrop.
  - rewrite play_app, Hup. cbn [play]. rewrite Hdrop. cbn [node_event].
    unfold libt_fire. by rewrite Hpend.
  - intros st nd t x d l Hok Hcs.
    destruct (ondelay_spec st p nd t x d l Hok Hcs) as (st' & E & _ & ? & ? & ?).
    eauto 10.
  - intros nd h' w' Hnd. split; [|apply lxor_2_bits].
    unfold on_delay. by rewrite Hnd.
Qed.

Lemma seen_bit1 c x : Z.testbit (seen c x) 1 = Z.testbit c 1.
Proof.
  unfold seen. rewrite Z.lor_spec, Z.land_spec.
  change (Z.testbit (Z.lnot 1) 1) with true.
  destruct (nonzero x); simpl; by rewrite andb_true_r, orb_false_r.
Qed.

(** Evaluations alone never clear bit 1 of a [pulse] node: once set, the
    output is 1 whatever the inputs are. *)
Lemma pulse_stays_set pow p (evs : list (float * float)) :
  forall me (h : heap) w,
  h !! p = Some me -> rpn_op me = Some do_pulse ->
  Z.testbit (rpn_cookie me) 1 = true ->
  exists c,
    play pow p ((fun e => Evaluate e.1 e.2) <$> evs) (h, w)
    = Some (replicate (length evs) (Some [1%float]), c).
Proof.
  induction evs as [|[x d] evs IH]; intros me h w Hp Ho Hb.
  - by eexists.
  - cbn [fmap list_fmap play length replicate fst snd].
    rewrite (pulse_event pow p me h w x d Hp Ho).
    set (c' := seen (if rising_edge (rpn_cookie me) x
                     then Z.lor (rpn_cookie me) 2 else rpn_cookie me) x).
    assert (Z.testbit c' 1 = true) as Hb'.
    { subst c'. rewrite seen_bit1. destruct (rising_edge (rpn_cookie me) x); [|done].
      rewrite Z.lor_spec. change (Z.testbit 2 1) with true. by rewrite orb_true_r. }
    rewrite Hb'. simpl truth.
    edestruct (IH (set_cookie me c') (<[p := set_cookie me c']> h)) as [c ->];
      [by rewrite lookup_insert_eq | done | done |].
    by eexists.
Qed.

(** C10.  A fresh [pulse] node whose input goes high sets the timer and
    puts out 1.  When the input falls before the timer has fired, the
    timer is removed and bit 1 of the state stays set: that evaluation
    puts out 1, no timer is left to fire, and every evaluation after it
    puts out 1, whatever the input.  Only when a later rising edge has set
    the timer again and the timer fires is bit 1 toggled, and the output
    0. *)
Theorem pulse_stays_high_after_early_fall
    pow p me (h : heap) w x0 d0 highs lo dlo evs x1 d1 x2 d2 :
  h !! p = Some me -> rpn_op me = Some do_pulse -> rpn_cookie me = 0 ->
  pending (on_delay_of p) (timers w) = false ->
  nonzero x0 = true ->
  Forall (fun e => nonzero e.1 = true) highs ->
  nonzero lo = false -> nonzero x1 = true -> nonzero x2 = true ->
  let up := Evaluate x0 d0 :: ((fun e => Evaluate e.1 e.2) <$> highs) in
  let ones := replicate (S (length highs)) (Some [1%float]) in
  play pow p up (h, w)
  = Some (ones, (<[p := set_cookie me 3]> h,
                 set_timers w ((d0, on_delay_of p) :: timers w)))
  /\ play pow p (up ++ [Evaluate lo dlo]) (h, w)
     = Some (ones ++ [Some [1%float]], (<[p := set_cookie me 2]> h, w))
  /\ play pow p (up ++ [Evaluate lo dlo; Fire]) (h, w) = None
  /\ (exists c,
        play pow p (up ++ Evaluate lo dlo :: ((fun e => Evaluate e.1 e.2) <$> evs)) (h, w)
        = Some (ones ++ Some [1%float] :: replicate (length evs) (Some [1%float]), c))
  /\ play pow p (up ++ [Evaluate lo dlo; Evaluate x1 d1; Fire; Evaluate x2 d2]) (h, w)
     = Some (ones ++ [Some [1%float]; Some [1%float]; None; Some [0%float]],
             (<[p := set_cookie me 1]> h, rpn_run_again (rpn_dat me) w)).
Proof.
  intros Hp Ho Hc Hpend Hx0 Hhighs Hlo Hx1 Hx2 up ones.
  set (h1 := <[p := set_cookie me 3]> h).
  set (w1 := set_timers w ((d0, on_delay_of p) :: timers w)).
  assert (h1 !! p = Some (set_cookie me 3)) as Hp1 by apply lookup_insert_eq.
  assert (play pow p up (h, w) = Some (ones, (h1, w1))) as Hup.
  { subst up ones. cbn [play].
    rewrite (pulse_event pow p me h w x0 d0 Hp Ho), Hc.
    assert (rising_edge 0 x0 = true) as -> by (unfold rising_edge; by rewrite Hx0).
    assert (seen (Z.lor 0 2) x0 = 3) as -> by (unfold seen; by rewrite Hx0).
    rewrite add_not_pending by done. fold h1 w1.
    rewrite (hold_high pow p do_pulse (set_cookie me 3)); try done. by right. }
  set (h2 := <[p := set_cookie me 2]> h).
  assert (h2 !! p = Some (set_cookie me 2)) as Hp2 by apply lookup_insert_eq.
  assert (node_event pow p (Evaluate lo dlo) (h1, w1) = Some (Some [1%float], (h2, w)))
    as Hdrop.
  { rewrite (pulse_event pow p _ h1 w1 lo dlo Hp1 Ho). cbn [rpn_cookie set_cookie].
    assert (rising_edge 3 lo = false) as -> by (unfold rising_edge; by rewrite Hlo).
    assert (falling_edge 3 lo = true) as -> by (unfold falling_edge; by rewrite Hlo).
    assert (seen 3 lo = 2) as -> by (unfold seen; by rewrite Hlo).
    subst h1 w1 h2. cbn [timers set_timers]. rewrite remove_added by done.
    rewrite insert_insert_eq. do 3 f_equal. by destruct w. }
  split; [done|]. split; [|split; [|split]].
  - rewrite play_app, Hup. cbn [play]. by rewrite Hdrop.
  - rewrite play_app, Hup. cbn [play]. rewrite Hdrop. cbn [node_event].
    unfold libt_fire. by rewrite Hpend.
  - rewrite play_app, Hup. cbn [play]. rewrite Hdrop.
    destruct (pulse_stays_set pow p evs (set_cookie me 2) h2 w Hp2 Ho) as [c ->]; [done|].
    by eexists.
  - rewrite play_app, Hup. cbn [play]. rewrite Hdrop.
    rewrite (pulse_event pow p _ h2 w x1 d1 Hp2 Ho). cbn [rpn_cookie set_cookie].
    assert (rising_edge 2 x1 = true) as -> by (unfold rising_edge; by rewrite Hx1).
    assert (seen (Z.lor 2 2) x1 = 3) as -> by (unfold seen; by rewrite Hx1).
    rewrite add_not_pending by done. subst h2. rewrite insert_insert_eq.
    change (set_cookie (set_cookie me 2) 3) with (set_cookie me 3). fold h1.
    cbn [node_event]. unfold libt_fire. cbn [timers set_timers].
    rewrite pending_head, remove_added by done. unfold on_delay. rewrite Hp1.
    cbn [rpn_cookie set_cookie rpn_dat]. change (Z.lxor 3 2) with 1.
    subst h1. rewrite insert_insert_eq.
    change (set_cookie (set_cookie me 3) 1) with (set_cookie me 1).
    rewrite set_timers_twice.
    set (h3 := <[p := set_cookie me 1]> h).
    assert (h3 !! p = Some (set_cookie me 1)) as Hp3 by apply lookup_insert_eq.
    rewrite (pulse_event pow p _ h3 _ x2 d2 Hp3 Ho). cbn [rpn_cookie set_cookie].
    assert (rising_edge 1 x2 = false) as -> by (unfold rising_edge; by rewrite Hx2).
    assert (falling_edge 1 x2 = false) as -> by (unfold falling_edge; by rewrite Hx2).
    assert (seen 1 x2 = 1) as -> by (unfold seen; by rewrite Hx2).
    subst h3. rewrite insert_insert_eq.
    change (set_cookie (set_cookie me 1) 1) with (set_cookie me 1).
    by rewrite set_timers_same.
Qed.

(** * Instances

    Each general statement above, applied to a concrete chain. *)

Lemma splits_3_4_plus : splits "3 4 +" ["3"; "4"; "+"]%string.
Proof.
  apply (splits_cons "" "3" " 4 +"); [done | done | done | by right |].
  apply (splits_cons " " "4" " +"); [done | done | done | by right |].
  apply (splits_cons " " "+" ""); [done | done | done | by left |].
  by apply splits_nil.
Qed.

Lemma compile_then_run_witness :
  exists root h' st',
    rpn_parse "3 4 +" 0 ∅ = Some (root, h')
    /\ rpn_run (fun x _ => x) 3 (rpn_stack_reset stack_init) root h' world0
       = Some (0, st', h', world0)
    /\ contents st' = reverse [7%float].
Proof.
  apply (proj1 (compile_then_run (fun x _ => x) [Num "3"; Num "4"; Op do_plus]
                  "3 4 +" [7%float] 0 ∅ stack_init world0 3
                  ltac:(repeat constructor) splits_3_4_plus eq_refl
                  ltac:(unfold stack_ok; simpl; lia) ltac:(simpl; lia))).
Defined.

Lemma sexagesimal_literal_witness :
  const_value "-1:30:15"
  = (- decimal_value "1" + decimal_value "30" / 60 + decimal_value "15" / 3600)%float.
Proof.
  exact (proj1 (proj2 (proj2 (proj2
    (sexagesimal_literal true "1" "30" "15" ":" ":" 0
       eq_refl eq_refl eq_refl eq_refl eq_refl))))).
Defined.

Lemma splits_3_bogus_plus : splits "3 bogus +" ["3"; "bogus"; "+"]%string.
Proof.
  apply (splits_cons "" "3" " bogus +"); [done | done | done | by right |].
  apply (splits_cons " " "bogus" " +"); [done | done | done | by right |].
  apply (splits_cons " " "+" ""); [done | done | done | by left |].
  by apply splits_nil.
Qed.

Lemma bogus_is_unknown : unknown_token "bogus".
Proof.
  split; [reflexivity|]. split.
  - intros [body E]. discriminate E.
  - intros H. unfold keywords in H.
    repeat (apply elem_of_cons in H as [H | H]; [discriminate H|]).
    by apply elem_of_nil in H.
Qed.

Lemma compile_is_atomic_witness :
  rpn_parse "3 bogus +" 7 {[5%positive := rpn_zero]}
  = Some (None, {[5%positive := rpn_zero]}).
Proof.
  apply (proj1 (compile_is_atomic "3 bogus +" ["3"; "bogus"; "+"]%string 7
                  {[5%positive := rpn_zero]} eq_refl splits_3_bogus_plus)).
  exists "bogus"%string. split; [|exact bogus_is_unknown].
  apply elem_of_cons. right. apply elem_of_cons. by left.
Defined.

(** The chain of "1 + 5": the walk ends at [+], and 5 is never pushed. *)
Lemma run_stops_at_underflow_witness :
  let h : heap :=
    link [1; 2; 3]%positive
      [node_of 0 (Num "1"); node_of 0 (Op do_plus); node_of 0 (Num "5")] ∅ in
  rpn_parse "1 + 5" 0 ∅ = Some (Some 1%positive, h)
  /\ rpn_run (fun x _ => x) 3 stack_init (Some 1%positive) h world0
     = Some (-1, rpn_push stack_init 1, h, world0).
Proof.
  intros h. split; [vm_compute; reflexivity|].
  refine (proj1 (run_stops_at_underflow (fun x _ => x) 1 stack_init (Some 1%positive)
                   h world0 (rpn_push stack_init 1) 2%positive h world0
                   (-1) (rpn_push stack_init 1) h world0 3 _ _ _ _)).
  - apply nsteps_once.
    change (step (fun x _ => x) (stack_init, Some 1%positive, h, world0)
              (rpn_push stack_init 1, next_of h 1%positive, h, world0)).
    apply step_node with (ret := 0); [vm_compute; reflexivity | lia].
  - vm_compute. reflexivity.
  - lia.
  - lia.
Defined.

(** A node of [ondelay] alone in the heap, input 1 and delay 5: two
    evaluations give 0, the timer fires, the next evaluation gives 1. *)
Lemma ondelay_waits_for_timer_witness :
  let me := Rpn None (Some do_ondelay) 9 None None 0 0 in
  play (fun x _ => x) 1%positive
    [Evaluate 1 5; Evaluate 1 5; Fire; Evaluate 1 5] ({[1%positive := me]}, world0)
  = Some ([Some [0%float]; Some [0%float]; None; Some [1%float]],
          (<[1%positive := set_cookie me 3]> {[1%positive := me]},
           rpn_run_again 9 world0)).
Proof.
  intros me.
  refine (proj1 (proj2
    (ondelay_waits_for_timer (fun x _ => x) 1%positive me {[1%positive := me]} world0
       1%float 5%float [(1%float, 5%float)] [(1%float, 5%float)] 0%float 5%float
       _ _ _ _ _ _ _ _))).
  - reflexivity.
  - reflexivity.
  - reflexivity.
  - reflexivity.
  - reflexivity.
  - repeat constructor.
  - repeat constructor.
  - reflexivity.
Defined.

(** The bounds 5 and 5 and the input 7. *)
Lemma inrange_wraps_witness :
  exists st',
    rpn_do_inrange (Stack [7; 5; 5]%float 3 3) = (1, st')
    /\ stack_ok st'
    /\ contents st'
       = [] ++ [if PrimFloat.ltb 5 5
                then (if PrimFloat.leb 5 7 && PrimFloat.leb 7 5 then 1%float else 0%float)
                else (if PrimFloat.leb 5 7 || PrimFloat.leb 7 5 then 1%float else 0%float)]
    /\ (PrimFloat.eqb 5 5 = true -> is_number_d 7 = true ->
        PrimFloat.ltb 5 5 = false /\ contents st' = [] ++ [1%float]).
Proof.
  refine (proj1 (inrange_wraps (fun x _ => x) (Stack [7; 5; 5]%float 3 3) []
                   7%float 5%float 5%float _ _)).
  - unfold stack_ok. simpl. lia.
  - reflexivity.
Defined.

(** The two operators and the alias on a stack that holds 1 alone. *)
Lemma rising_is_stateful_witness :
  exists st',
    rpn_do_rising (rpn_push stack_init 1) rpn_zero
    = (0, st', set_cookie rpn_zero (int_of_double 1))
    /\ stack_ok st'
    /\ contents st'
       = [] ++ [if negb (int_of_double 1 =? 0) && (rpn_cookie rpn_zero =? 0)
                then 1%float else 0%float].
Proof.
  refine (proj1 (proj2 (rising_is_stateful (fun x _ => x)))
            (rpn_push stack_init 1) rpn_zero [] 1%float _ _).
  - unfold stack_ok. simpl. lia.
  - reflexivity.
Defined.

(** Half past six in the evening of a Sunday, 20 seconds into the
    minute. *)
Lemma clock_operators_witness :
  let w := Sys [] (Tm 20 30 18 0) (fun _ _ => 0%float) [] in
  let w' := set_timers w [(40%float, rpn_run_again_of 9)] in
  (exists st',
      rpn_do_timeofday stack_init (set_dat rpn_zero 9) w = (0, st', w')
      /\ stack_ok st'
      /\ contents st' = [] ++ [(18 + 30 / 60 + 20 / 3600)%float])
  /\ (exists st',
        rpn_do_dayofweek stack_init (set_dat rpn_zero 9) w = (0, st', w')
        /\ stack_ok st'
        /\ (0 <= 0 <= 6 -> contents st' = [] ++ [7%float])).
Proof.
  intros w w'.
  pose proof (clock_operators stack_init (set_dat rpn_zero 9) w
                ltac:(unfold stack_ok; simpl; lia)) as H.
  split; [exact (proj1 H) | exact (proj1 (proj2 H))].
Defined.

(** [pulse] on a stack of one value, with a timer pending. *)
Lemma underflow_is_atomic_witness :
  let st := rpn_push stack_init 1 in
  let w := Sys [(5%float, on_delay_of 1%positive)] (Tm 0 0 0 0) (fun _ _ => 0%float) [] in
  (0 <= st_n st -> -1 < 0 <-> st_n st < min_depth do_pulse)
  /\ (-1 < 0 -> -1 = -1 /\ st = st /\ rpn_zero = rpn_zero /\ w = w).
Proof.
  intros st w.
  exact (underflow_is_atomic (fun x _ => x) do_pulse st 1%positive rpn_zero w
           (-1) st rpn_zero w eq_refl).
Defined.

(** A node of [pulse] alone in the heap: the input falls before the timer
    fires, and the output stays 1. *)
Lemma pulse_stays_high_after_early_fall_witness :
  let me := Rpn None (Some do_pulse) 9 None None 0 0 in
  play (fun x _ => x) 1%positive
    [Evaluate 1 2; Evaluate 1 2; Evaluate 0 2] ({[1%positive := me]}, world0)
  = Some ([Some [1%float]; Some [1%float]; Some [1%float]],
          (<[1%positive := set_cookie me 2]> {[1%positive := me]}, world0)).
Proof.
  intros me.
  refine (proj1 (proj2
    (pulse_stays_high_after_early_fall (fun x _ => x) 1%positive me
       {[1%positive := me]} world0
       1%float 2%float [(1%float, 2%float)] 0%float 2%float [] 1%float 2%float
       1%float 2%float _ _ _ _ _ _ _ _ _))).
  - reflexivity.
  - reflexivity.
  - reflexivity.
  - reflexivity.
  - reflexivity.
  - repeat constructor.
  - reflexivity.
  - reflexivity.
  - reflexivity.
Defined.

(** * Further properties *)

(** ** Only the values in use matter *)

Lemma same_values_n st1 st2 : same_values st1 st2 -> st_n st1 = st_n st2.
Proof.
  intros (H1 & H2 & E). pose proof (contents_length st1 H1) as L1.
  pose proof (contents_length st2 H2) as L2. rewrite E in L1.
  destruct H1 as [_ ?], H2 as [_ ?]. lia.
Qed.

Lemma same_values_peek st1 st2 k :
  same_values st1 st2 -> 1 <= k <= st_n st1 -> peek st1 k = peek st2 k.
Proof.
  intros H Hk. pose proof (same_values_n _ _ H) as En. destruct H as (H1 & H2 & E).
  rewrite !peek_contents by (done || lia). by rewrite E, En.
Qed.

Lemma same_values_poke st1 st2 k x :
  same_values st1 st2 -> 1 <= k <= st_n st1 ->
  same_values (poke st1 k x) (poke st2 k x).
Proof.
  intros H Hk. pose proof (same_values_n _ _ H) as En. destruct H as (H1 & H2 & E).
  destruct (poke_contents st1 k x H1 Hk) as [? P1].
  destruct (poke_contents st2 k x H2) as [? P2]; [lia|].
  unfold same_values. by rewrite P1, P2, E, En.
Qed.

Lemma same_values_drop st1 st2 k :
  same_values st1 st2 -> 0 <= k <= st_n st1 ->
  same_values (drop st1 k) (drop st2 k).
Proof.
  intros H Hk. pose proof (same_values_n _ _ H) as En. destruct H as (H1 & H2 & E).
  destruct (drop_contents st1 k H1 Hk) as [? P1].
  destruct (drop_contents st2 k H2) as [? P2]; [lia|].
  unfold same_values. by rewrite P1, P2, E, En.
Qed.

Lemma same_values_push st1 st2 x :
  same_values st1 st2 -> same_values (rpn_push st1 x) (rpn_push st2 x).
Proof.
  intros (H1 & H2 & E).
  destruct (push_contents st1 x H1) as [? P1].
  destruct (push_contents st2 x H2) as [? P2].
  unfold same_values. by rewrite P1, P2, E.
Qed.

Lemma same_values_refl st : stack_ok st -> same_values st st.
Proof. by intros H. Qed.

Ltac frame_tac st1 st2 H :=
  rewrite <- ?(same_values_n st1 st2 H);
  try match goal with
      | |- context [st_n st1 <? ?k] => destruct (Z.ltb_spec (st_n st1) k)
      end;
  repeat match goal with
         | |- context [peek st2 ?k] =>
             rewrite <- (same_values_peek st1 st2 k H) by lia
         end;
  repeat match goal with
         | |- context [if ?b then _ else _] => destruct b
         end;
  cbn [fst snd];
  refine (conj _ (conj _ (conj _ _))); try done;
  repeat first [ exact H
               | apply same_values_push
               | apply same_values_drop
               | apply same_values_poke ];
  cbn [st_n poke drop]; lia.

(** An operator run on two stacks with the same values in use. *)
Lemma run_op_same pow o st1 st2 p me w :
  same_values st1 st2 ->
  let r1 := run_op pow o st1 p me w in
  let r2 := run_op pow o st2 p me w in
  r1.1.1.1 = r2.1.1.1 /\ r1.1.2 = r2.1.2 /\ r1.2 = r2.2
  /\ same_values r1.1.1.2 r2.1.1.2.
Proof.
  intros H. cbv zeta.
  destruct o; cbn [run_op];
    unfold rpn_do_const, rpn_do_env, rpn_do_plus, rpn_do_minus, rpn_do_mul,
      rpn_do_div, rpn_do_pow, rpn_do_bitand, rpn_do_bitor, rpn_do_bitxor,
      rpn_do_bitinv, rpn_do_booland, rpn_do_boolor, rpn_do_boolnot,
      rpn_do_lt, rpn_do_gt, rpn_do_dup, rpn_do_swap, rpn_do_limit,
      rpn_do_inrange, rpn_do_ondelay, rpn_do_offdelay, rpn_do_pulse,
      rpn_do_edge, rpn_do_rising, rpn_do_falling, rpn_do_timeofday,
      rpn_do_dayofweek, int_binop, binop, unop, delay_finish;
    frame_tac st1 st2 H.
Qed.

Lemma call_same pow st1 st2 p (h : heap) w ret st1' h' w' :
  same_values st1 st2 ->
  call pow st1 p h w = Some (ret, st1', h', w') ->
  exists st2', call pow st2 p h w = Some (ret, st2', h', w') /\ same_values st1' st2'.
Proof.
  intros H. unfold call. destruct (h !! p) as [me|]; [|done].
  destruct (rpn_op me) as [o|]; [|done].
  pose proof (run_op_same pow o st1 st2 p me w H) as Hs. cbv zeta in Hs.
  destruct (run_op pow o st1 p me w) as [[[r1 s1] m1] w1].
  destruct (run_op pow o st2 p me w) as [[[r2 s2] m2] w2].
  cbn [fst snd] in Hs. destruct Hs as (-> & -> & -> & Hs).
  intros [= <- <- <- <-]. by exists s2.
Qed.

Lemma rpn_run_same pow fuel :
  forall st1 st2 root (h : heap) w ret st1' h' w',
  same_values st1 st2 ->
  rpn_run pow fuel st1 root h w = Some (ret, st1', h', w') ->
  exists st2',
    rpn_run pow fuel st2 root h w = Some (ret, st2', h', w')
    /\ same_values st1' st2'.
Proof.
  induction fuel as [|fuel IH]; intros st1 st2 root h w ret st1' h' w' H E.
  - destruct root; [done|]. injection E as <- <- <- <-. by exists st2.
  - destruct root as [p|]; [|injection E as <- <- <- <-; by exists st2].
    simpl in E |- *.
    destruct (call pow st1 p h w) as [[[[r1 s1] h1] w1]|] eqn:Ec; [|done].
    destruct (call_same pow st1 st2 p h w r1 s1 h1 w1 H Ec) as (s2 & -> & Hs).
    destruct (r1 <? 0).
    + injection E as <- <- <- <-. by exists s2.
    + by apply (IH s1 s2 _ h1 w1).
Qed.

(** X1.  What [rpn_run] returns and leaves depends on the values in use
    alone: on a second stack with the same values in use, whatever its
    array holds above them and whatever its size, the run returns the same
    value, leaves the same heap and world and the same values in use.
    Both stacks stay well formed: the fill level is never negative and
    never beyond the array. *)
Theorem run_ignores_stale_cells pow fuel :
  forall st1 st2 root (h : heap) w ret st1' h' w',
  same_values st1 st2 ->
  rpn_run pow fuel st1 root h w = Some (ret, st1', h', w') ->
  exists st2',
    rpn_run pow fuel st2 root h w = Some (ret, st2', h', w')
    /\ same_values st1' st2'.
Proof. apply rpn_run_same. Qed.

(** ** Evaluation changes nothing but the state of the nodes *)

Lemma run_op_erase pow o st p me w : erase (run_op pow o st p me w).1.2 = erase me.
Proof.
  destruct o; cbn [run_op];
    unfold rpn_do_const, rpn_do_env, rpn_do_plus, rpn_do_minus, rpn_do_mul,
      rpn_do_div, rpn_do_pow, rpn_do_bitand, rpn_do_bitor, rpn_do_bitxor,
      rpn_do_bitinv, rpn_do_booland, rpn_do_boolor, rpn_do_boolnot,
      rpn_do_lt, rpn_do_gt, rpn_do_dup, rpn_do_swap, rpn_do_limit,
      rpn_do_inrange, rpn_do_ondelay, rpn_do_offdelay, rpn_do_pulse,
      rpn_do_edge, rpn_do_rising, rpn_do_falling, rpn_do_timeofday,
      rpn_do_dayofweek, int_binop, binop, unop, delay_finish;
    repeat match goal with
           | |- context [if ?b then _ else _] => destruct b
           end;
    reflexivity.
Qed.

Lemma insert_erase (h : heap) p me me' :
  h !! p = Some me -> erase me' = erase me ->
  erase <$> <[p := me']> h = erase <$> h.
Proof.
  intros Hp He. rewrite fmap_insert, He. apply insert_id.
  by rewrite lookup_fmap, Hp.
Qed.

Lemma call_erase pow st p (h : heap) w ret st' h' w' :
  call pow st p h w = Some (ret, st', h', w') -> erase <$> h' = erase <$> h.
Proof.
  unfold call. destruct (h !! p) as [me|] eqn:Hp; [|done].
  destruct (rpn_op me) as [o|]; [|done].
  pose proof (run_op_erase pow o st p me w) as He.
  destruct (run_op pow o st p me w) as [[[r s1] m1] w1]. cbn [fst snd] in He.
  intros [= <- <- <- <-]. by eapply insert_erase.
Qed.

Lemma rpn_run_erase pow fuel :
  forall st root (h : heap) w ret st' h' w',
  rpn_run pow fuel st root h w = Some (ret, st', h', w') ->
  erase <$> h' = erase <$> h.
Proof.
  induction fuel as [|fuel IH]; intros st root h w ret st' h' w' E.
  - destruct root; [done|]. by injection E as <- <- <- <-.
  - destruct root as [p|]; [|by injection E as <- <- <- <-].
    simpl in E.
    destruct (call pow st p h w) as [[[[r1 s1] h1] w1]|] eqn:Ec; [|done].
    pose proof (call_erase _ _ _ _ _ _ _ _ _ Ec) as E1.
    destruct (r1 <? 0).
    + by injection E as <- <- <- <-.
    + rewrite <- E1. by eapply IH.
Qed.

Lemma libt_fire_erase k (h : heap) w h' w' :
  libt_fire k h w = Some (h', w') -> erase <$> h' = erase <$> h.
Proof.
  unfold libt_fire. destruct (pending k (timers w)); [|done].
  destruct k as [p | dat]; [|by intros [= <- <-]].
  unfold on_delay. destruct (h !! p) as [me|] eqn:Hp; [|done].
  intros [= <- <-]. by eapply insert_erase.
Qed.

(** X2.  A run of [rpn_run] writes to nothing in the heap but the state of
    nodes: with the states wiped, the heap after the run is the heap
    before it.  No node is made or freed, and no [next], [run], owner,
    constant or topic changes; the same holds for a timer that fires. *)
Theorem run_changes_only_state pow fuel st root (h : heap) w ret st' h' w' :
  rpn_run pow fuel st root h w = Some (ret, st', h', w') ->
  erase <$> h' = erase <$> h
  /\ dom h' = dom h
  /\ (forall k h'' w'', libt_fire k h' w' = Some (h'', w'') ->
        erase <$> h'' = erase <$> h).
Proof.
  intros E. pose proof (rpn_run_erase _ _ _ _ _ _ _ _ _ _ E) as He.
  split; [done|]. split.
  - by rewrite <- (dom_fmap_L erase h'), He, dom_fmap_L.
  - intros k h'' w'' Hf. rewrite <- He. by eapply libt_fire_erase.
Qed.

(** ** Chains without state *)

Lemma run_op_no_state pow o st p me w :
  no_state o = true ->
  (run_op pow o st p me w).1.2 = me /\ (run_op pow o st p me w).2 = w.
Proof. destruct o; try done; intros _; by cbn [run_op fst snd]. Qed.

Lemma rpn_run_no_state pow fuel :
  forall st root (h : heap) w ret st' h' w',
  (forall p me o, h !! p = Some me -> rpn_op me = Some o -> no_state o = true) ->
  rpn_run pow fuel st root h w = Some (ret, st', h', w') ->
  h' = h /\ w' = w.
Proof.
  induction fuel as [|fuel IH]; intros st root h w ret st' h' w' Hall E.
  - destruct root; [done|]. by injection E as <- <- <- <-.
  - destruct root as [p|]; [|by injection E as <- <- <- <-].
    simpl in E. unfold call in E.
    destruct (h !! p) as [me|] eqn:Hp; [|done].
    destruct (rpn_op me) as [o|] eqn:Ho; [|done].
    destruct (run_op_no_state pow o st p me w (Hall p me o Hp Ho)) as [Hm Hw].
    destruct (run_op pow o st p me w) as [[[r1 s1] m1] w1]. cbn [fst snd] in Hm, Hw.
    subst m1 w1. rewrite insert_id in E by done.
    destruct (r1 <? 0); [by injection E as <- <- <- <-|]. by eapply IH.
Qed.

(** X3.  A chain all of whose nodes are without state (constants, lookups,
    arithmetic, logic, comparison, [dup], [swap], [limit], [inrange]) can
    be evaluated again and again: a pass leaves the heap, the timers and
    the owners to wake as they were, and a second pass with the same
    inputs returns the same value and leaves the same values, although it
    starts on the array the first pass left behind. *)
Theorem stateless_pass_repeats pow fuel root input st (h : heap) w ret out c1 :
  (forall p me o, h !! p = Some me -> rpn_op me = Some o -> no_state o = true) ->
  stack_ok st ->
  pass pow fuel root input (st, h, w) = Some (ret, out, c1) ->
  c1.1.2 = h
  /\ timers c1.2 = timers w /\ woken c1.2 = woken w
  /\ exists c2, pass pow fuel root input c1 = Some (ret, out, c2).
Proof.
  intros Hall Hok. unfold pass.
  set (w1 := Sys (timers w) (clock w) input (woken w)).
  destruct (rpn_run pow fuel (rpn_stack_reset st) root h w1)
    as [[[[r s1] h1] w2]|] eqn:E; [|done].
  intros [= <- <- <-]. cbn [fst snd].
  destruct (rpn_run_no_state _ _ _ _ _ _ _ _ _ _ Hall E) as [-> ->].
  do 3 (split; [done|]).
  destruct (reset_contents st Hok) as [Hok0 Hc0].
  destruct (rpn_run_same pow fuel _ _ _ _ _ _ _ _ _ (same_values_refl _ Hok0) E)
    as (s1' & _ & (Hok1 & _ & _)).
  destruct (reset_contents s1 Hok1) as [Hok1' Hc1'].
  assert (same_values (rpn_stack_reset st) (rpn_stack_reset s1)) as Hs.
  { unfold same_values. by rewrite Hc0, Hc1'. }
  destruct (rpn_run_same pow fuel _ _ _ _ _ _ _ _ _ Hs E) as (s2 & E2 & (_ & _ & Ec)).
  change (Sys (timers w1) (clock w1) input (woken w1)) with w1.
  rewrite E2. rewrite Ec. by eexists.
Qed.

(** ** Freeing a chain *)

(** [rpn_parse] always returns: NULL with the heap untouched, or a chain
    on top of the heap it was given. *)
Lemma rpn_parse_chain src dat (h : heap) :
  exists root h',
    rpn_parse src dat h = Some (root, h')
    /\ ((root = None /\ h' = h) \/ exists ps ns, chain h ps ns root h').
Proof.
  unfold rpn_parse. destruct (known_or_unknown dat (strtok_all blanks src)) as [[ns HF] | Hex].
  - destruct (parse_loop_known dat _ ns [] [] h HF) as (ps & E & Hch & Hl);
      [apply NoDup_nil_2 | | done |].
    { intros p Hp. by apply elem_of_nil in Hp. }
    simpl in E, Hch. eexists _, _. split; [exact E|]. right. by exists ps, ns.
  - eexists _, _. split; [|by left].
    apply (parse_loop_unknown dat _ [] [] h Hex); [apply NoDup_nil_2 | | done].
    intros p Hp. by apply elem_of_nil in Hp.
Qed.

Lemma rpn_free_chain_null (h : heap) : rpn_free_chain None h = Some h.
Proof. unfold rpn_free_chain. by destruct (size h). Qed.

Lemma erase_next me : rpn_next (erase me) = rpn_next me.
Proof. done. Qed.

(** The loop of [rpn_free_chain] follows [next] alone: the states of the
    nodes make no difference to it. *)
Lemma free_loop_erase fuel :
  forall r (h1 h2 h1' : heap),
  erase <$> h2 = erase <$> h1 ->
  rpn_free_loop fuel r h1 = Some h1' ->
  exists h2', rpn_free_loop fuel r h2 = Some h2' /\ erase <$> h2' = erase <$> h1'.
Proof.
  induction fuel as [|fuel IH]; intros r h1 h2 h1' He E.
  - destruct r; [done|]. injection E as <-. by exists h2.
  - destruct r as [tmp|]; [|injection E as <-; by exists h2].
    simpl in E |- *. destruct (h1 !! tmp) as [nd|] eqn:H1; [|done].
    assert ((erase <$> h2) !! tmp = Some (erase nd)) as H2
      by (by rewrite He, lookup_fmap, H1).
    rewrite lookup_fmap in H2. destruct (h2 !! tmp) as [nd2|]; [|done].
    assert (rpn_next nd2 = rpn_next nd) as ->.
    { by injection H2. }
    apply (IH _ (rpn_free tmp h1)); [|done].
    unfold rpn_free. by rewrite !fmap_delete, He.
Qed.

Lemma free_chain_erase r (h1 h2 h1' : heap) :
  erase <$> h2 = erase <$> h1 ->
  rpn_free_chain r h1 = Some h1' ->
  exists h2', rpn_free_chain r h2 = Some h2' /\ erase <$> h2' = erase <$> h1'.
Proof.
  intros He. unfold rpn_free_chain.
  assert (size h2 = size h1) as ->.
  { by rewrite <- (map_size_fmap erase h2), He, map_size_fmap. }
  by apply free_loop_erase.
Qed.

Lemma parse_then_free src dat (h : heap) :
  exists root h',
    rpn_parse src dat h = Some (root, h') /\ rpn_free_chain root h' = Some h.
Proof.
  destruct (rpn_parse_chain src dat h) as (root & h' & E & [[-> ->] | (ps & ns & Hc)]).
  - eexists _, _. split; [done|]. apply rpn_free_chain_null.
  - eexists _, _. split; [done|].
    destruct Hc as (Hdup & Hfresh & Hl & -> & ->). by apply free_chain_link.
Qed.

(** X4.  [rpn_parse] never fails to return, and [rpn_free_chain] on
    what it returned gives back exactly the heap from before the parse: no
    node of the chain is left, and no other node is touched.  The same
    holds after the chain has been evaluated or its timers have fired
    (the heap then differs in the states of nodes only): every node the
    parse made is freed. *)
Theorem free_chain_undoes_parse src dat (h : heap) :
  exists root h',
    rpn_parse src dat h = Some (root, h')
    /\ rpn_free_chain root h' = Some h
    /\ forall h2, erase <$> h2 = erase <$> h' ->
         exists h3, rpn_free_chain root h2 = Some h3
                    /\ erase <$> h3 = erase <$> h /\ dom h3 = dom h.
Proof.
  destruct (parse_then_free src dat h) as (root & h' & E & F).
  exists root, h'. split; [done|]. split; [done|].
  intros h2 He. destruct (free_chain_erase root h' h2 h He F) as (h3 & F3 & E3).
  exists h3. split; [done|]. split; [done|].
  by rewrite <- (dom_fmap_L erase h3), E3, dom_fmap_L.
Qed.

(** X5.  [rpn_free_chain] frees the nodes and leaves their timers alone
    ([rpn_free] makes no call to [libt_remove_timeout]).  When a timer
    [on_delay] is still pending for a node that the parse had made and
    the chain is freed, the timer fires on a node that is no longer
    allocated: the callback's access to it is undefined. *)
Theorem freed_chain_leaves_timer src dat (h : heap) root h1 h2 h3 p w :
  rpn_parse src dat h = Some (root, h1) ->
  erase <$> h2 = erase <$> h1 ->
  h !! p = None -> is_Some (h2 !! p) ->
  pending (on_delay_of p) (timers w) = true ->
  rpn_free_chain root h2 = Some h3 ->
  h3 !! p = None /\ libt_fire (on_delay_of p) h3 w = None.
Proof.
  intros E He Hp _ Hpend F.
  destruct (parse_then_free src dat h) as (root' & h1' & E' & F').
  rewrite E in E'. injection E' as <- <-.
  destruct (free_chain_erase root h1 h2 h He F') as (h3' & F3 & E3).
  rewrite F in F3. injection F3 as <-.
  assert (h3 !! p = None) as H3.
  { assert ((erase <$> h3) !! p = None) as H by (by rewrite E3, lookup_fmap, Hp).
    rewrite lookup_fmap in H. by destruct (h3 !! p). }
  split; [done|]. unfold libt_fire. rewrite Hpend. unfold on_delay. by rewrite H3.
Qed.

(** ** [offdelay] *)

(** [offdelay] on the values in use: a falling edge sets the timer, a
    rising edge removes it and sets bit 1; then bit 0 is the input and the
    output is bit 1. *)
Lemma offdelay_spec st p me t x d l :
  stack_ok st -> contents st = l ++ [x; d] ->
  let c := rpn_cookie me in
  let c' := seen (if rising_edge c x then Z.lor c 2 else c) x in
  let t' :=
    if falling_edge c x then libt_add_timeout d (on_delay_of p) t
    else if rising_edge c x then libt_remove_timeout (on_delay_of p) t
    else t in
  exists st',
    rpn_do_offdelay st p me t = (0, st', set_cookie me c', t')
    /\ stack_ok st' /\ contents st' = l ++ [truth (Z.testbit c' 1)].
Proof.
  intros Hok Hc. cbv zeta. unfold rpn_do_offdelay, seen. set (c := rpn_cookie me).
  rewrite (depth_suffix st l [x; d]) by (done || simpl; lia).
  rewrite (peek_suffix st l [x; d] 2 Hok Hc), (peek_suffix st l [x; d] 1 Hok Hc)
    by (simpl; lia).
  simpl default. destruct (edge_tests c x) as [-> ->].
  destruct (falling_edge c x) eqn:Ef.
  - assert (rising_edge c x = false) as ->.
    { destruct (rising_edge c x) eqn:Er; [|done].
      by rewrite (edges_exclusive _ _ Er) in Ef. }
    destruct (delay_finish_spec st me (libt_add_timeout d (on_delay_of p) t) x d l c
                Hok Hc eq_refl) as (st' & -> & ? & ? & _).
    by exists st'.
  - destruct (rising_edge c x) eqn:Er.
    + destruct (delay_finish_spec st (set_cookie me (Z.lor c 2))
                  (libt_remove_timeout (on_delay_of p) t) x d l (Z.lor c 2)
                  Hok Hc eq_refl) as (st' & -> & ? & ? & _).
      by exists st'.
    + destruct (delay_finish_spec st me t x d l c Hok Hc eq_refl)
        as (st' & -> & ? & ? & _).
      by exists st'.
Qed.

(** An evaluation of an [offdelay] node, as an event. *)
Lemma offdelay_event pow p me (h : heap) w x d :
  h !! p = Some me -> rpn_op me = Some do_offdelay ->
  let c := rpn_cookie me in
  let c' := seen (if rising_edge c x then Z.lor c 2 else c) x in
  let t' :=
    if falling_edge c x then libt_add_timeout d (on_delay_of p) (timers w)
    else if rising_edge c x then libt_remove_timeout (on_delay_of p) (timers w)
    else timers w in
  node_event pow p (Evaluate x d) (h, w)
  = Some (Some [truth (Z.testbit c' 1)], (<[p := set_cookie me c']> h, set_timers w t')).
Proof.
  intros Hp Ho. cbv zeta. unfold node_event, call. rewrite Hp, Ho.
  destruct (event_stack x d) as [Hok Hc]. simpl run_op.
  destruct (offdelay_spec _ p me (timers w) x d [] Hok Hc) as (st' & E & _ & Ec).
  rewrite E. simpl. by rewrite Ec.
Qed.

Lemma seen_low c x :
  nonzero x = false -> Z.testbit c 0 = false -> seen c x = c.
Proof.
  intros Hx Hc. unfold seen. rewrite Hx. simpl int_of_bool. rewrite Z.lor_0_r.
  apply Z.bits_inj'. intros n Hn. rewrite Z.land_spec.
  destruct (Z.eq_dec n 0) as [-> | Hne].
  - by rewrite Hc.
  - rewrite Z.lnot_spec by done.
    assert (Z.testbit 1 n = false) as ->.
    { change 1 with (2 ^ 0). rewrite Z.pow2_bits_eqb by lia. apply Z.eqb_neq. lia. }
    simpl. by rewrite andb_true_r.
Qed.

(** While the input stays low, a node whose bit 0 is clear is evaluated
    without any change: the output is bit 1 each time. *)
Lemma hold_low pow p me (h : heap) w (lows : list (float * float)) :
  h !! p = Some me -> rpn_op me = Some do_offdelay ->
  Z.testbit (rpn_cookie me) 0 = false ->
  Forall (fun e => nonzero e.1 = false) lows ->
  play pow p ((fun e => Evaluate e.1 e.2) <$> lows) (h, w)
  = Some (replicate (length lows) (Some [truth (Z.testbit (rpn_cookie me) 1)]), (h, w)).
Proof.
  intros Hp Ho Hb Hall. induction Hall as [|[x d] lows Hx _ IH]; [done|].
  simpl in Hx. cbn [fmap list_fmap play length replicate fst snd].
  rewrite (offdelay_event pow p me h w x d Hp Ho).
  assert (rising_edge (rpn_cookie me) x = false) as ->
    by (unfold rising_edge; by rewrite Hx).
  assert (falling_edge (rpn_cookie me) x = false) as ->
    by (unfold falling_edge; by rewrite Hb, andb_false_r).
  rewrite seen_low by done. rewrite set_cookie_id, insert_id, set_timers_same by done.
  by rewrite IH.
Qed.

Lemma hold_high_off pow p me (h : heap) w (highs : list (float * float)) :
  h !! p = Some me -> rpn_op me = Some do_offdelay ->
  Z.testbit (rpn_cookie me) 0 = true ->
  Forall (fun e => nonzero e.1 = true) highs ->
  play pow p ((fun e => Evaluate e.1 e.2) <$> highs) (h, w)
  = Some (replicate (length highs) (Some [truth (Z.testbit (rpn_cookie me) 1)]), (h, w)).
Proof.
  intros Hp Ho Hb Hall. induction Hall as [|[x d] highs Hx _ IH]; [done|].
  simpl in Hx. cbn [fmap list_fmap play length replicate fst snd].
  rewrite (offdelay_event pow p me h w x d Hp Ho).
  assert (rising_edge (rpn_cookie me) x = false) as ->
    by (unfold rising_edge; by rewrite Hb, andb_false_r).
  assert (falling_edge (rpn_cookie me) x = false) as ->
    by (unfold falling_edge; by rewrite Hx).
  rewrite seen_high by done. rewrite set_cookie_id, insert_id, set_timers_same by done.
  by rewrite IH.
Qed.

Lemma offdelay_rises pow p me (h : heap) w x d :
  h !! p = Some me -> rpn_op me = Some do_offdelay ->
  rpn_cookie me = 0 \/ rpn_cookie me = 2 ->
  nonzero x = true ->
  node_event pow p (Evaluate x d) (h, w)
  = Some (Some [1%float],
          (<[p := set_cookie me 3]> h,
           set_timers w (libt_remove_timeout (on_delay_of p) (timers w)))).
Proof.
  intros Hp Ho Hc Hx. rewrite (offdelay_event pow p me h w x d Hp Ho).
  destruct Hc as [-> | ->].
  - assert (rising_edge 0 x = true) as -> by (unfold rising_edge; by rewrite Hx).
    assert (falling_edge 0 x = false) as -> by (unfold falling_edge; by rewrite Hx).
    assert (seen (Z.lor 0 2) x = 3) as -> by (unfold seen; by rewrite Hx). done.
  - assert (rising_edge 2 x = true) as -> by (unfold rising_edge; by rewrite Hx).
    assert (falling_edge 2 x = false) as -> by (unfold falling_edge; by rewrite Hx).
    assert (seen (Z.lor 2 2) x = 3) as -> by (unfold seen; by rewrite Hx). done.
Qed.

Lemma offdelay_falls pow p me (h : heap) w x d :
  h !! p = Some me -> rpn_op me = Some do_offdelay -> rpn_cookie me = 3 ->
  nonzero x = false ->
  node_event pow p (Evaluate x d) (h, w)
  = Some (Some [1%float],
          (<[p := set_cookie me 2]> h,
           set_timers w (libt_add_timeout d (on_delay_of p) (timers w)))).
Proof.
  intros Hp Ho Hc Hx. rewrite (offdelay_event pow p me h w x d Hp Ho), Hc.
  assert (rising_edge 3 x = false) as -> by (unfold rising_edge; by rewrite Hx).
  assert (falling_edge 3 x = true) as -> by (unfold falling_edge; by rewrite Hx).
  assert (seen 3 x = 2) as -> by (unfold seen; by rewrite Hx). done.
Qed.

(** X6.  A fresh [offdelay] node whose input goes high puts out 1 at once
    and sets no timer.  When the input drops, the timer [on_delay] is set
    with the delay on the stack and the output stays 1, also while the
    input stays low.  When the timer fires, bit 1 of the state is cleared
    and the owner is asked to run again; the evaluations that follow put
    out 0 and the node and the timers are as at the start.  When instead
    the input goes high again, the timer is removed and cannot fire any
    more; the output is still 1. *)
Theorem offdelay_holds_until_timer pow p me (h : heap) w
    x0 d0 highs lo dlo lows lows' x1 d1 :
  h !! p = Some me -> rpn_op me = Some do_offdelay -> rpn_cookie me = 0 ->
  pending (on_delay_of p) (timers w) = false ->
  nonzero x0 = true ->
  Forall (fun e => nonzero e.1 = true) highs ->
  nonzero lo = false ->
  Forall (fun e => nonzero e.1 = false) lows ->
  Forall (fun e => nonzero e.1 = false) lows' ->
  nonzero x1 = true ->
  let up := Evaluate x0 d0 :: ((fun e => Evaluate e.1 e.2) <$> highs) in
  let down := up ++ Evaluate lo dlo :: ((fun e => Evaluate e.1 e.2) <$> lows) in
  let ones := replicate (S (length highs) + S (length lows)) (Some [1%float]) in
  play pow p up (h, w)
  = Some (replicate (S (length highs)) (Some [1%float]),
          (<[p := set_cookie me 3]> h, w))
  /\ play pow p down (h, w)
     = Some (ones, (<[p := set_cookie me 2]> h,
                    set_timers w ((dlo, on_delay_of p) :: timers w)))
  /\ play pow p (down ++ Fire :: ((fun e => Evaluate e.1 e.2) <$> lows')) (h, w)
     = Some (ones ++ None :: replicate (length lows') (Some [0%float]),
             (h, rpn_run_again (rpn_dat me) w))
  /\ play pow p (down ++ [Evaluate x1 d1]) (h, w)
     = Some (ones ++ [Some [1%float]], (<[p := set_cookie me 3]> h, w))
  /\ play pow p (down ++ [Evaluate x1 d1; Fire]) (h, w) = None.
Proof.
  intros Hp Ho Hc Hpend Hx0 Hhighs Hlo Hlows Hlows' Hx1 up down ones.
  assert (play pow p up (h, w)
          = Some (replicate (S (length highs)) (Some [1%float]),
                  (<[p := set_cookie me 3]> h, w))) as Hup.
  { subst up. cbn [play].
    rewrite (offdelay_rises pow p me h w x0 d0 Hp Ho (or_introl Hc) Hx0).
    rewrite remove_not_pending, set_timers_same by done.
    rewrite (hold_high_off pow p (set_cookie me 3)); try done.
    by rewrite lookup_insert_eq. }
  set (h1 := <[p := set_cookie me 3]> h) in *.
  set (h2 := <[p := set_cookie me 2]> h).
  set (w2 := set_timers w ((dlo, on_delay_of p) :: timers w)).
  assert (h2 !! p = Some (set_cookie me 2)) as Hp2 by apply lookup_insert_eq.
  assert (play pow p down (h, w) = Some (ones, (h2, w2))) as Hdown.
  { subst down. rewrite play_app, Hup. cbn [play].
    rewrite (offdelay_falls pow p (set_cookie me 3) h1 w lo dlo); try done;
      [|apply lookup_insert_eq].
    rewrite add_not_pending by done. subst h1. rewrite insert_insert_eq.
    change (set_cookie (set_cookie me 3) 2) with (set_cookie me 2). fold h2 w2.
    rewrite (hold_low pow p (set_cookie me 2)); try done.
    subst ones. by rewrite replicate_add. }
  assert (node_event pow p (Evaluate x1 d1) (h2, w2)
          = Some (Some [1%float], (h1, w))) as Hrise.
  { rewrite (offdelay_rises pow p (set_cookie me 2) h2 w2 x1 d1); try done;
      [|by right].
    subst h2 w2 h1. cbn [timers set_timers]. rewrite remove_added by done.
    rewrite insert_insert_eq, set_timers_twice. done. }
  split; [done|]. split; [done|]. split; [|split].
  - rewrite play_app, Hdown. cbn [play node_event].
    unfold libt_fire. subst w2. cbn [timers set_timers].
    rewrite pending_head, remove_added by done. unfold on_delay. rewrite Hp2.
    cbn [rpn_cookie set_cookie rpn_dat]. change (Z.lxor 2 2) with 0.
    subst h2. rewrite insert_insert_eq.
    change (set_cookie (set_cookie me 2) 0) with (set_cookie me 0).
    rewrite <- Hc, set_cookie_id, insert_id by done.
    rewrite set_timers_twice.
    rewrite (hold_low pow p me); try done; by rewrite Hc.
  - rewrite play_app, Hdown. cbn [play]. by rewrite Hrise.
  - rewrite play_app, Hdown. cbn [play]. rewrite Hrise. cbn [node_event].
    unfold libt_fire. by rewrite Hpend.
Qed.

(** ** [limit] *)

(** Comparing the other way round gives the opposite answer. *)
Lemma SFcompare_antisym (x y : spec_float) :
  SFcompare y x = option_map CompOpp (SFcompare x y).
Proof.
  destruct x as [sx | sx | | sx mx ex], y as [sy | sy | | sy my ey]; simpl; try done;
    repeat match goal with s : bool |- _ => destruct s end; simpl; try done.
  all: repeat match goal with
         | |- context [PosDef.Pos.compare_cont Eq ?a ?b] =>
             change (PosDef.Pos.compare_cont Eq a b) with (Pos.compare a b)
         end.
  all: rewrite (Z.compare_antisym ex ey), (Pos.compare_antisym mx my).
  all: destruct (ex ?= ey); simpl; try done.
  all: by destruct (mx ?= my)%positive.
Qed.

Lemma SFcompare_number (x y : spec_float) :
  SFcompare x x = Some Eq -> SFcompare y y = Some Eq -> is_Some (SFcompare x y).
Proof.
  destruct x as [sx | sx | | sx mx ex], y as [sy | sy | | sy my ey]; simpl; try done.
Qed.

Lemma SFcompare_refl (x y : spec_float) :
  is_Some (SFcompare x y) -> SFcompare x x = Some Eq /\ SFcompare y y = Some Eq.
Proof.
  assert (forall s m e, SFcompare (S754_finite s m e) (S754_finite s m e) = Some Eq) as Hf.
  { intros s m e. simpl.
    change (PosDef.Pos.compare_cont Eq m m) with (Pos.compare m m).
    rewrite Z.compare_refl, Pos.compare_refl. by destruct s. }
  destruct x as [sx | sx | | sx mx ex], y as [sy | sy | | sy my ey];
    intros [c Hc]; try done; rewrite ?Hf; split; try done;
    simpl; by repeat match goal with s : bool |- _ => destruct s end.
Qed.

(** Of two numbers, one is below the other or the other is at most the
    one. *)
Lemma ltb_leb_total (x y : float) :
  PrimFloat.eqb x x = true -> PrimFloat.eqb y y = true ->
  PrimFloat.ltb x y = false -> PrimFloat.leb y x = true.
Proof.
  rewrite !eqb_spec, ltb_spec, leb_spec. unfold SFeqb, SFltb, SFleb.
  destruct (SFcompare (Prim2SF x) (Prim2SF x)) as [[]|] eqn:Ex; try done.
  destruct (SFcompare (Prim2SF y) (Prim2SF y)) as [[]|] eqn:Ey; try done.
  intros _ _. destruct (SFcompare_number _ _ Ex Ey) as [c Hc].
  rewrite (SFcompare_antisym (Prim2SF x) (Prim2SF y)), Hc. by destruct c.
Qed.

Lemma leb_not_ltb (x y : float) :
  PrimFloat.leb x y = true -> PrimFloat.ltb y x = false.
Proof.
  rewrite ltb_spec, leb_spec. unfold SFltb, SFleb.
  rewrite (SFcompare_antisym (Prim2SF x) (Prim2SF y)).
  by destruct (SFcompare (Prim2SF x) (Prim2SF y)) as [[]|].
Qed.

Lemma leb_numbers (x y : float) :
  PrimFloat.leb x y = true -> PrimFloat.eqb x x = true /\ PrimFloat.eqb y y = true.
Proof.
  rewrite !eqb_spec, leb_spec. unfold SFeqb, SFleb. intros H.
  destruct (SFcompare_refl (Prim2SF x) (Prim2SF y)) as [-> ->]; [|done].
  destruct (SFcompare (Prim2SF x) (Prim2SF y)); [by eexists | done].
Qed.

Lemma leb_number_refl (x : float) :
  PrimFloat.eqb x x = true -> PrimFloat.leb x x = true.
Proof.
  rewrite eqb_spec, leb_spec. unfold SFeqb, SFleb.
  by destruct (SFcompare (Prim2SF x) (Prim2SF x)) as [[]|].
Qed.

Lemma nan_not_ltb (x y : float) :
  PrimFloat.eqb x x = false -> PrimFloat.ltb x y = false /\ PrimFloat.ltb y x = false.
Proof.
  rewrite eqb_spec, !ltb_spec. unfold SFeqb, SFltb. intros H.
  assert (SFcompare (Prim2SF x) (Prim2SF y) = None) as E.
  { destruct (SFcompare (Prim2SF x) (Prim2SF y)) eqn:E; [|done].
    destruct (SFcompare_refl (Prim2SF x) (Prim2SF y)) as [Hx _]; [by eexists|].
    by rewrite Hx in H. }
  rewrite (SFcompare_antisym (Prim2SF x) (Prim2SF y)), E. done.
Qed.

(** X7.  [limit] replaces [x], the third value from the top, and drops
    the bounds [lo] and [hi]; it returns 1.  With [lo <= hi] and [x] a
    number the result lies within the bounds, and is [x] itself when [x]
    does.  An [x] that is not a number is left as it is.  With the bounds
    the wrong way round, an [x] below [lo] is replaced by [lo], which is
    above [hi]: the lower bound is tested first. *)
Theorem limit_clamps st l x lo hi :
  stack_ok st -> contents st = l ++ [x; lo; hi] ->
  exists st' r,
    rpn_do_limit st = (1, st') /\ stack_ok st' /\ contents st' = l ++ [r]
    /\ (PrimFloat.leb lo hi = true -> is_number_d x = true ->
        PrimFloat.leb lo r = true /\ PrimFloat.leb r hi = true
        /\ (PrimFloat.leb lo x = true -> PrimFloat.leb x hi = true -> r = x))
    /\ (is_number_d x = false -> r = x)
    /\ (PrimFloat.ltb hi lo = true -> PrimFloat.ltb x lo = true ->
        r = lo /\ PrimFloat.ltb hi r = true).
Proof.
  intros Hok E. unfold rpn_do_limit, is_number_d.
  rewrite (depth_suffix st l [x; lo; hi]) by (done || simpl; lia).
  rewrite (peek_suffix st l [x; lo; hi] 3 Hok E),
    (peek_suffix st l [x; lo; hi] 2 Hok E),
    (peek_suffix st l [x; lo; hi] 1 Hok E) by (simpl; lia).
  simpl default.
  assert (forall y, stack_ok (drop (poke st 3 y) 2)
                    /\ contents (drop (poke st 3 y) 2) = l ++ [y]) as Hy.
  { intros y. destruct (poke_suffix st l [x; lo; hi] 3 y Hok E) as [Hok1 E1];
      [simpl; lia|]. simpl in E1.
    by destruct (drop_suffix _ l [y; lo; hi] 2 Hok1 E1) as [? ?]; [simpl; lia|]. }
  destruct (PrimFloat.ltb x lo) eqn:E1; [|destruct (PrimFloat.ltb hi x) eqn:E2].
  - exists (drop (poke st 3 lo) 2), lo. destruct (Hy lo) as [? ?].
    do 3 (split; [done|]). split; [|split].
    + intros Hb _. destruct (leb_numbers _ _ Hb) as [Hlo _].
      split; [by apply leb_number_refl|]. split; [done|].
      intros Hx _. apply leb_not_ltb in Hx. congruence.
    + intros Hx. apply (nan_not_ltb x lo) in Hx as [? _]. congruence.
    + done.
  - exists (drop (poke st 3 hi) 2), hi. destruct (Hy hi) as [? ?].
    do 3 (split; [done|]). split; [|split].
    + intros Hb _. destruct (leb_numbers _ _ Hb) as [_ Hhi].
      split; [done|]. split; [by apply leb_number_refl|].
      intros _ Hx. apply leb_not_ltb in Hx. congruence.
    + intros Hx. apply (nan_not_ltb x hi) in Hx as [_ ?]. congruence.
    + done.
  - exists (drop st 2), x.
    destruct (drop_suffix st l [x; lo; hi] 2 Hok E) as [? ?]; [simpl; lia|].
    do 3 (split; [done|]). split; [|split]; [|done..].
    intros Hb Hx. destruct (leb_numbers _ _ Hb) as [Hlo Hhi].
    split; [by apply ltb_leb_total|]. split; [by apply ltb_leb_total|]. done.
Qed.

(** ** [edge], [rising] and [falling] side by side *)

Lemma edge_ops_spec st me l x :
  stack_ok st -> contents st = l ++ [x] ->
  let v := int_of_double x in
  let c := rpn_cookie me in
  exists se sr sf,
    rpn_do_edge st me = (0, se, set_cookie me v)
    /\ rpn_do_rising st me = (0, sr, set_cookie me v)
    /\ rpn_do_falling st me = (0, sf, set_cookie me v)
    /\ contents se = l ++ [truth (negb (v =? c))]
    /\ contents sr = l ++ [truth (negb (v =? 0) && (c =? 0))]
    /\ contents sf = l ++ [truth ((v =? 0) && negb (c =? 0))].
Proof.
  intros Hok E. cbv zeta. unfold rpn_do_edge, rpn_do_rising, rpn_do_falling.
  rewrite (depth_suffix st l [x]) by (done || simpl; lia).
  rewrite (peek_suffix st l [x] 1 Hok E) by (simpl; lia). simpl default.
  do 3 eexists. do 3 (split; [reflexivity|]).
  assert (forall y, contents (poke st 1 y) = l ++ [y]) as Hy.
  { intros y. by destruct (poke_suffix st l [x] 1 y Hok E) as [_ ->]; [simpl; lia|]. }
  rewrite !Hy. unfold c_and, c_not. rewrite !truth_double.
  split; [done|]. split; do 3 f_equal.
  - by destruct (int_of_double x =? 0), (rpn_cookie me =? 0).
  - by destruct (int_of_double x =? 0), (rpn_cookie me =? 0).
Qed.

(** X8.  On nodes with the same stored input [c], evaluated with the same
    [x] on top, [edge] puts out whether the truncated [x] differs from
    [c], [rising] whether it is not 0 while [c] is 0, [falling] whether it
    is 0 while [c] is not; all three store the truncated [x].  So [rising]
    and [falling] never both put out 1, each of them implies [edge], and
    [edge] alone puts out 1 when the input changes between two values
    that are not 0.  Evaluated again with the same input, all three put
    out 0. *)
Theorem edge_covers_rising_and_falling st me l x :
  stack_ok st -> contents st = l ++ [x] ->
  let v := int_of_double x in
  let c := rpn_cookie me in
  let e := negb (v =? c) in
  let r := negb (v =? 0) && (c =? 0) in
  let f := (v =? 0) && negb (c =? 0) in
  exists se sr sf,
    rpn_do_edge st me = (0, se, set_cookie me v)
    /\ rpn_do_rising st me = (0, sr, set_cookie me v)
    /\ rpn_do_falling st me = (0, sf, set_cookie me v)
    /\ contents se = l ++ [truth e] /\ contents sr = l ++ [truth r]
    /\ contents sf = l ++ [truth f]
    /\ r && f = false
    /\ (r || f = true -> e = true)
    /\ (e && negb (r || f) = true <-> v <> 0 /\ c <> 0 /\ v <> c)
    /\ (forall st2 l2, stack_ok st2 -> contents st2 = l2 ++ [x] ->
        exists se2 sr2 sf2,
          rpn_do_edge st2 (set_cookie me v) = (0, se2, set_cookie me v)
          /\ rpn_do_rising st2 (set_cookie me v) = (0, sr2, set_cookie me v)
          /\ rpn_do_falling st2 (set_cookie me v) = (0, sf2, set_cookie me v)
          /\ contents se2 = l2 ++ [0%float] /\ contents sr2 = l2 ++ [0%float]
          /\ contents sf2 = l2 ++ [0%float]).
Proof.
  intros Hok E v c e r f.
  destruct (edge_ops_spec st me l x Hok E) as (se & sr & sf & H1 & H2 & H3 & C1 & C2 & C3).
  exists se, sr, sf. subst e r f.
  do 6 (split; [done|]). split; [|split; [|split]].
  - by destruct (v =? 0), (c =? 0).
  - destruct (Z.eqb_spec v 0), (Z.eqb_spec c 0), (Z.eqb_spec v c); simpl; try done; lia.
  - destruct (Z.eqb_spec v 0), (Z.eqb_spec c 0), (Z.eqb_spec v c); simpl;
      split; try done; try lia; intros (? & ? & ?); done.
  - intros st2 l2 Hok2 E2.
    destruct (edge_ops_spec st2 (set_cookie me v) l2 x Hok2 E2)
      as (se2 & sr2 & sf2 & G1 & G2 & G3 & D1 & D2 & D3).
    exists se2, sr2, sf2. do 3 (split; [done|]).
    rewrite D1, D2, D3. cbn [rpn_cookie set_cookie]. fold v.
    rewrite Z.eqb_refl. by destruct (v =? 0).
Qed.

(** ** Tokens *)

(** A source of one token compiles to one node. *)
Lemma parse_single dat tok nd (h : heap) :
  token_node dat tok = Some nd -> strtok_all blanks tok = [tok] ->
  rpn_parse tok dat h = Some (Some (fresh (dom h)), <[fresh (dom h) := nd]> h).
Proof.
  intros Hn Ht. unfold rpn_parse. rewrite Ht. cbn [parse_loop].
  pose proof (parse_token_node dat tok h) as Hp. rewrite Hn in Hp.
  destruct Hp as (h1 & -> & ->). done.
Qed.

(** X9.  Every entry of the table [lookups] is reached by the parser: its
    string is not taken for a number (also the strings of the operators
    [+] and [-]) nor for a reference, no earlier entry has the same
    string, and as a source of its own it compiles to one node that runs
    the entry's function. *)
Theorem every_table_entry_is_reachable str run dat (h : heap) :
  (str, run) ∈ lookups ->
  is_number str = false /\ is_env str = false /\ do_lookup str = Some run
  /\ rpn_parse str dat h
     = Some (Some (fresh (dom h)),
             <[fresh (dom h) := Rpn None (Some run) dat None None 0 0]> h).
Proof.
  intros Hin. unfold lookups in Hin.
  repeat (apply elem_of_cons in Hin as [Hin | Hin];
          [injection Hin as -> ->;
           do 3 (split; [reflexivity|]); by apply parse_single|]).
  by apply elem_of_nil in Hin.
Qed.

Lemma strrchr_cut_none c (s : string) :
  all_chars (fun a => negb (Ascii.eqb a c)) s = true -> strrchr_cut c s = None.
Proof.
  induction s as [|a s IH]; [done|]. simpl. intros H.
  apply andb_true_iff in H as [Ha Hs]. rewrite (IH Hs).
  by destruct (Ascii.eqb a c).
Qed.

(** The cut is at the last [c]: behind it there is none. *)
Lemma strrchr_cut_app c (l r : string) :
  all_chars (fun a => negb (Ascii.eqb a c)) r = true ->
  strrchr_cut c (l +:+ String c r) = Some (l, r).
Proof.
  intros Hr. induction l as [|a l IH].
  - rewrite str_app_nil_l. simpl. rewrite (strrchr_cut_none c r Hr).
    by rewrite Ascii.eqb_refl.
  - rewrite str_app_cons. simpl. by rewrite IH.
Qed.

Lemma substring_prefix (a b : string) :
  String.substring 0 (String.length a) (a +:+ b) = a.
Proof.
  induction a as [|c a IH].
  - rewrite str_app_nil_l. by destruct b.
  - rewrite str_app_cons. simpl. by rewrite IH.
Qed.

Lemma env_body (body : string) :
  let tok := "${" +:+ body +:+ "}" in
  is_number tok = false /\ is_env tok = true
  /\ String.substring 0 (String.length (str_tail (str_tail tok)) - 1)
       (str_tail (str_tail tok)) = body.
Proof.
  cbv zeta. rewrite !str_app_cons, str_app_nil_l. split; [done|]. split.
  - assert (forall (s : string) a,
              String.get (String.length (String a (s +:+ "}")) - 1) (String a (s +:+ "}"))
              = Some "}"%char) as Hlast.
    { intros s. induction s as [|c s IH]; intros a; [done|].
      rewrite str_app_cons, get_last_cons; [apply IH | done]. }
    unfold is_env.
    assert (chr (String "$" (String "{" (body +:+ "}")))
              (String.length (String "$" (String "{" (body +:+ "}"))) - 1)
            = "}"%char) as ->.
    { unfold chr. rewrite get_last_cons by done. by rewrite Hlast. }
    done.
  - cbn [str_tail]. rewrite string_length_app. simpl String.length.
    replace (String.length body + 1 - 1)%nat with (String.length body) by lia.
    apply substring_prefix.
Qed.

(** X10.  The token [${name,options}] compiles to a node that runs
    [rpn_do_env], with the text up to the last comma as its topic and the
    text behind it as its options, whatever the two are; without a comma
    the whole text is the topic and there are no options.  When the node
    runs it pushes what [rpn_lookup_env] answers for the topic alone. *)
Theorem reference_splits_at_last_comma (name options : string) (h : heap) st w :
  all_chars (fun a => negb (Ascii.eqb a ",")) options = true ->
  let p := fresh (dom h) in
  let with_options := Rpn None (Some do_env) 0 (Some name) (Some options) 0 0 in
  let without := Rpn None (Some do_env) 0 (Some options) None 0 0 in
  parse_token ("${" +:+ name +:+ "," +:+ options +:+ "}") h
  = Some (p, <[p := with_options]> h)
  /\ parse_token ("${" +:+ options +:+ "}") h = Some (p, <[p := without]> h)
  /\ rpn_do_env st with_options w
     = (0, rpn_push st (env w (Some name) with_options))
  /\ rpn_do_env st without w = (0, rpn_push st (env w (Some options) without)).
Proof.
  intros Hopt p wo wn. split; [|split; [|split; reflexivity]].
  - replace ("${" +:+ name +:+ "," +:+ options +:+ "}")
      with ("${" +:+ (name +:+ "," +:+ options) +:+ "}")
      by (by rewrite !str_app_assoc).
    destruct (env_body (name +:+ "," +:+ options)) as (Hn & He & Hb).
    unfold parse_token, env_topic. rewrite Hn, He, Hb.
    rewrite str_app_cons, str_app_nil_l, (strrchr_cut_app "," name options Hopt).
    unfold rpn_create. fold p. by rewrite alter_insert_eq.
  - destruct (env_body options) as (Hn & He & Hb).
    unfold parse_token, env_topic. rewrite Hn, He, Hb.
    rewrite (strrchr_cut_none "," options Hopt).
    unfold rpn_create. fold p. by rewrite alter_insert_eq.
Qed.

(** X11.  [rpn_parse] sees the tokens only: two sources with the same
    tokens in the same order, however they are spaced, compile alike.  A
    source of blanks alone has no tokens: it compiles to no node and a
    NULL root, as a source with an unknown token does, and running that
    root returns 0 at once and leaves the stack as it is. *)
Theorem only_tokens_matter pow src1 src2 toks dat (h : heap) :
  splits src1 toks -> splits src2 toks ->
  rpn_parse src1 dat h = rpn_parse src2 dat h
  /\ (toks = [] ->
      rpn_parse src1 dat h = Some (None, h)
      /\ forall fuel st w, rpn_run pow fuel st None h w = Some (0, st, h, w)).
Proof.
  intros H1 H2. unfold rpn_parse.
  rewrite (strtok_all_splits src1 toks H1), (strtok_all_splits src2 toks H2).
  split; [done|]. intros ->. split; [done|]. by intros [|fuel].
Qed.

(** ** The depth of the stack and its storage *)

Lemma push_depth st x :
  stack_ok st ->
  stack_ok (rpn_push st x) /\ st_n (rpn_push st x) = st_n st + 1
  /\ st_s st <= st_s (rpn_push st x) <= st_s st + 16
  /\ (st_n st < st_s st -> st_s (rpn_push st x) = st_s st).
Proof.
  intros [Hl Hn]. unfold rpn_push, stack_ok.
  destruct (Z.leb_spec (st_s st) (st_n st)); cbn [st_v st_n st_s];
    rewrite length_insert, ?length_app, ?length_replicate; lia.
Qed.

Lemma poke_depth st k x :
  stack_ok st ->
  stack_ok (poke st k x) /\ st_n (poke st k x) = st_n st
  /\ st_s (poke st k x) = st_s st.
Proof.
  intros [Hl Hn]. unfold poke, stack_ok. simpl. rewrite length_insert. lia.
Qed.

Lemma drop_depth st k :
  stack_ok st -> 0 <= k <= st_n st ->
  stack_ok (drop st k) /\ st_n (drop st k) = st_n st - k
  /\ st_s (drop st k) = st_s st.
Proof. intros [Hl Hn] Hk. unfold drop, stack_ok. simpl. lia. Qed.

Ltac depth_of t lem :=
  let H := fresh in pose proof lem as H; generalize dependent t; intros.

(** An operator that succeeds had the depth it needs, changes the depth
    by its effect, and keeps or grows the storage. *)
Lemma run_op_depth pow o st p me w ret st' me' w' :
  stack_ok st ->
  run_op pow o st p me w = (ret, st', me', w') -> 0 <= ret ->
  stack_ok st' /\ min_depth o <= st_n st /\ st_n st' = st_n st + effect o
  /\ st_s st <= st_s st' <= st_s st + 16
  /\ (st_n st' <= st_s st -> st_s st' = st_s st).
Proof.
  intros Hok E Hret.
  destruct o; simpl in E;
    unfold rpn_do_const, rpn_do_env, rpn_do_plus, rpn_do_minus, rpn_do_mul,
      rpn_do_div, rpn_do_pow, rpn_do_bitand, rpn_do_bitor, rpn_do_bitxor,
      rpn_do_bitinv, rpn_do_booland, rpn_do_boolor, rpn_do_boolnot,
      rpn_do_lt, rpn_do_gt, rpn_do_dup, rpn_do_swap, rpn_do_limit,
      rpn_do_inrange, rpn_do_ondelay, rpn_do_offdelay, rpn_do_pulse,
      rpn_do_edge, rpn_do_rising, rpn_do_falling, rpn_do_timeofday,
      rpn_do_dayofweek, int_binop, binop, unop, delay_finish in E;
    repeat match type of E with
           | context [if ?b then _ else _] => destruct b eqn:?
           end;
    simpl in E; injection E as <- <- <- <-;
    repeat match goal with
           | H : (_ <? _) = true |- _ => apply Z.ltb_lt in H
           | H : (_ <? _) = false |- _ => apply Z.ltb_ge in H
           end;
    try lia;
    cbn [min_depth effect];
    repeat match goal with
           | |- context [rpn_push ?s ?x] => depth_of (rpn_push s x) (push_depth s x)
           | |- context [drop ?s ?k] => depth_of (drop s k) (drop_depth s k)
           | |- context [poke ?s ?k ?x] => depth_of (poke s k x) (poke_depth s k x)
           | H : context [rpn_push ?s ?x] |- _ => depth_of (rpn_push s x) (push_depth s x)
           | H : context [drop ?s ?k] |- _ => depth_of (drop s k) (drop_depth s k)
           | H : context [poke ?s ?k ?x] |- _ => depth_of (poke s k x) (poke_depth s k x)
           end;
    unfold stack_ok in *; lia.
Qed.

Lemma call_depth pow st p (h : heap) w ret st' h' w' :
  stack_ok st -> call pow st p h w = Some (ret, st', h', w') -> 0 <= ret ->
  stack_ok st' /\ st_s st <= st_s st' /\ 1 <= st_n st'.
Proof.
  unfold call. intros Hok E Hret.
  destruct (h !! p) as [me|]; [|done].
  destruct (rpn_op me) as [o|]; [|done].
  destruct (run_op pow o st p me w) as [[[r s1] m1] w1] eqn:Er.
  injection E as <- <- <- <-.
  destruct (run_op_depth _ _ _ _ _ _ _ _ _ _ Hok Er Hret) as (? & Hm & Hn & ? & _).
  split; [done|]. split; [lia|]. rewrite Hn. destruct o; cbn [min_depth effect] in *; lia.
Qed.

Lemma rpn_run_depth pow fuel :
  forall st root (h : heap) w ret st' h' w',
  stack_ok st -> rpn_run pow fuel st root h w = Some (ret, st', h', w') ->
  stack_ok st' /\ st_s st <= st_s st'
  /\ (0 <= ret -> is_Some root \/ 1 <= st_n st -> 1 <= st_n st').
Proof.
  induction fuel as [|fuel IH]; intros st root h w ret st' h' w' Hok E.
  - destruct root; [done|]. injection E as <- <- <- <-.
    split; [done|]. split; [lia|]. intros _ [[? ?] | ?]; done.
  - destruct root as [p|].
    + cbn [rpn_run] in E.
      destruct (call pow st p h w) as [[[[r1 st1] h1] w1]|] eqn:Ec; [|done].
      destruct (Z.ltb_spec r1 0) as [Hneg | Hpos].
      * injection E as <- <- <- <-.
        destruct (call_negative _ _ _ _ _ _ _ _ _ Ec Hneg) as (_ & -> & _).
        split; [done|]. split; lia.
      * destruct (call_depth _ _ _ _ _ _ _ _ _ Hok Ec Hpos) as (Hok1 & Hs & Hn).
        destruct (IH _ _ _ _ _ _ _ _ Hok1 E) as (? & ? & Hd).
        split; [done|]. split; [lia|]. intros Hret _. apply Hd; [done | by right].
    + injection E as <- <- <- <-.
      split; [done|]. split; [lia|]. intros _ [[? ?] | ?]; done.
Qed.


(** ** The state of the delay operators *)

Lemma delay_op_spec pow o st p me w x d l :
  o = do_ondelay \/ o = do_offdelay \/ o = do_pulse ->
  stack_ok st -> contents st = l ++ [x; d] ->
  let c := rpn_cookie me in
  let c1 :=
    match o with
    | do_ondelay => if falling_edge c x then Z.land c (Z.lnot 2) else c
    | _ => if rising_edge c x then Z.lor c 2 else c
    end in
  let t' :=
    match o with
    | do_offdelay =>
        if falling_edge c x then libt_add_timeout d (on_delay_of p) (timers w)
        else if rising_edge c x then libt_remove_timeout (on_delay_of p) (timers w)
        else timers w
    | _ =>
        if rising_edge c x then libt_add_timeout d (on_delay_of p) (timers w)
        else if falling_edge c x then libt_remove_timeout (on_delay_of p) (timers w)
        else timers w
    end in
  exists st',
    run_op pow o st p me w = (0, st', set_cookie me (seen c1 x), set_timers w t')
    /\ stack_ok st' /\ contents st' = l ++ [truth (Z.testbit (seen c1 x) 1)].
Proof.
  intros [-> | [-> | ->]] Hok Hc; cbv zeta; simpl run_op.
  - destruct (ondelay_spec st p me (timers w) x d l Hok Hc) as (st' & -> & ? & ? & _).
    by exists st'.
  - destruct (offdelay_spec st p me (timers w) x d l Hok Hc) as (st' & -> & ? & ?).
    by exists st'.
  - destruct (pulse_spec st p me (timers w) x d l Hok Hc) as (st' & -> & ? & ? & _).
    by exists st'.
Qed.

Lemma seen_bits c x n :
  0 <= n ->
  Z.testbit (seen c x) n = if n =? 0 then nonzero x else Z.testbit c n.
Proof.
  intros Hn. unfold seen. rewrite Z.lor_spec, Z.land_spec.
  destruct (Z.eqb_spec n 0) as [-> | Hne].
  - change (Z.testbit (Z.lnot 1) 0) with false. rewrite andb_false_r.
    by destruct (nonzero x).
  - rewrite Z.lnot_spec by done.
    assert (Z.testbit 1 n = false) as E1.
    { change 1 with (2 ^ 0). rewrite Z.pow2_bits_eqb by lia. apply Z.eqb_neq. lia. }
    rewrite E1. assert (Z.testbit (int_of_bool (nonzero x)) n = false) as ->.
    { destruct (nonzero x); [exact E1 | apply Z.bits_0]. }
    simpl. by rewrite andb_true_r, orb_false_r.
Qed.

Lemma seen_same c x : Z.testbit c 0 = nonzero x -> seen c x = c.
Proof.
  intros H. apply Z.bits_inj'. intros n Hn. rewrite seen_bits by done.
  destruct (Z.eqb_spec n 0) as [-> | _]; done.
Qed.

Lemma testbit_2 n : 0 <= n -> Z.testbit 2 n = (n =? 1).
Proof.
  intros Hn. change 2 with (2 ^ 1). rewrite Z.pow2_bits_eqb by lia. apply Z.eqb_sym.
Qed.

(** X13.  The three delay operators keep their state in the two low bits
    of the node's cookie.  After an evaluation of any of them, bit 0 is
    the input seen, the output is bit 1 and the bits above are what they
    were, so a state within 0..3 stays there; [on_delay] keeps it there as
    well.  Without an edge of the input the node and the world are left
    as they are.  With an edge, no timer but the node's own is set or
    removed. *)
Theorem delay_state_is_two_bits pow o st p me w x d l :
  o = do_ondelay \/ o = do_offdelay \/ o = do_pulse ->
  stack_ok st -> contents st = l ++ [x; d] ->
  let c := rpn_cookie me in
  (exists st' c' w',
      run_op pow o st p me w = (0, st', set_cookie me c', w')
      /\ contents st' = l ++ [truth (Z.testbit c' 1)]
      /\ Z.testbit c' 0 = nonzero x
      /\ (forall n, 2 <= n -> Z.testbit c' n = Z.testbit c n)
      /\ (0 <= c < 4 -> 0 <= c' < 4)
      /\ (rising_edge c x = false -> falling_edge c x = false ->
          set_cookie me c' = me /\ w' = w)
      /\ (forall q, q <> on_delay_of p ->
          pending q (timers w') = pending q (timers w)))
  /\ (forall (h : heap),
        h !! p = Some me -> 0 <= c < 4 ->
        exists c', on_delay p h w
                   = Some (<[p := set_cookie me c']> h, rpn_run_again (rpn_dat me) w)
                   /\ 0 <= c' < 4).
Proof.
  intros Ho Hok Hc c. split.
  - destruct (delay_op_spec pow o st p me w x d l Ho Hok Hc) as (st' & E & _ & Ec).
    cbv zeta in E, Ec. fold c in E, Ec.
    eexists st', _, _. split; [exact E|]. split; [exact Ec|].
    split; [by rewrite seen_bits|]. split; [|split; [|split]].
    + intros n Hn. rewrite seen_bits by lia.
      assert ((n =? 0) = false) as -> by (apply Z.eqb_neq; lia).
      destruct Ho as [-> | [-> | ->]];
        repeat match goal with |- context [if ?b then _ else _] => destruct b end;
        rewrite ?Z.lor_spec, ?Z.land_spec, ?Z.lnot_spec, ?testbit_2 by lia;
        try done;
        (assert ((n =? 1) = false) as -> by (apply Z.eqb_neq; lia));
        simpl; by rewrite ?orb_false_r, ?andb_true_r.
    + intros Hr. assert (c = 0 \/ c = 1 \/ c = 2 \/ c = 3) as Hcs by lia.
      unfold seen, rising_edge, falling_edge.
      destruct Ho as [-> | [-> | ->]], (nonzero x),
        Hcs as [-> | [-> | [-> | ->]]]; by vm_compute.
    + intros Hr Hf.
      assert (Z.testbit c 0 = nonzero x) as Hb.
      { unfold rising_edge, falling_edge in Hr, Hf.
        by destruct (nonzero x), (Z.testbit c 0). }
      destruct Ho as [-> | [-> | ->]]; rewrite ?Hr, ?Hf, (seen_same c x Hb);
        by rewrite set_cookie_id, set_timers_same.
    + intros q Hq.
      destruct Ho as [-> | [-> | ->]]; cbn [timers set_timers];
        repeat match goal with |- context [if ?b then _ else _] => destruct b end;
        rewrite ?pending_add, ?pending_remove, ?decide_False by done; done.
  - intros h Hp Hr. unfold on_delay. rewrite Hp. eexists. split; [reflexivity|].
    fold c. assert (c = 0 \/ c = 1 \/ c = 2 \/ c = 3) as Hcs by lia.
    destruct Hcs as [-> | [-> | [-> | ->]]]; by vm_compute.
Qed.

(** ** Runs of a compiled chain return *)

Lemma strtok_loop_length fuel delim s :
  (length (strtok_loop fuel delim s) <= fuel)%nat.
Proof.
  revert s. induction fuel as [|fuel IH]; intros s; simpl; [lia|].
  destruct (strtok delim s) as [[tok rest]|]; simpl; [|lia].
  specialize (IH rest). lia.
Qed.

Lemma token_node_op dat tok nd : token_node dat tok = Some nd -> is_Some (rpn_op nd).
Proof.
  unfold token_node. destruct (is_number tok); [by intros [= <-]|].
  destruct (is_env tok); [by intros [= <-]|].
  destruct (do_lookup tok); [by intros [= <-] | done].
Qed.

(** What [rpn_parse] returns: no root, or a chain of one node for each
    token, each with a function to run. *)
Lemma rpn_parse_shape src dat (h : heap) root h1 :
  rpn_parse src dat h = Some (root, h1) ->
  root = None
  \/ exists ps ns, chain h ps ns root h1
                   /\ Forall (fun nd => is_Some (rpn_op nd)) ns
                   /\ length ps = length (strtok_all blanks src).
Proof.
  unfold rpn_parse.
  destruct (known_or_unknown dat (strtok_all blanks src)) as [[ns HF] | Hex].
  - destruct (parse_loop_known dat _ ns [] [] h HF) as (ps & E & Hch & Hl);
      [apply NoDup_nil_2 | | done |].
    { intros p Hp. by apply elem_of_nil in Hp. }
    simpl in E, Hch. rewrite E. intros [= <- <-]. right. exists ps, ns.
    split; [done|]. split.
    + clear E Hch Hl. induction HF as [|tok nd toks ns Hn _ IH]; constructor; [|done].
      by eapply token_node_op.
    + rewrite Hl. symmetry. by eapply Forall2_length.
  - pose proof (parse_loop_unknown dat _ [] [] h Hex) as E. simpl in E.
    rewrite E; [| apply NoDup_nil_2 | | done].
    + intros [= <- <-]. by left.
    + intros p Hp. by apply elem_of_nil in Hp.
Qed.

(** More fuel does not change what a run returns. *)
Lemma rpn_run_more_fuel pow fuel :
  forall fuel' st root (h : heap) w res,
  rpn_run pow fuel st root h w = Some res -> (fuel <= fuel')%nat ->
  rpn_run pow fuel' st root h w = Some res.
Proof.
  induction fuel as [|fuel IH]; intros fuel' st root h w res E Hf.
  - destruct root; [done|]. by destruct fuel'.
  - destruct root as [p|]; [|by destruct fuel'].
    destruct fuel' as [|fuel']; [lia|]. cbn [rpn_run] in *.
    destruct (call pow st p h w) as [[[[r1 st1] h1] w1]|]; [|done].
    destruct (r1 <? 0); [done|]. apply IH; [done | lia].
Qed.

(** From any node of a chain whose nodes have their functions, in a heap
    that differs from the chain in the states of the nodes at most, a run
    returns when it has one step for each node ahead. *)
Lemma run_chain_returns pow (h0 : heap) ns :
  forall ps2 ps1 (h2 : heap) st w fuel,
  NoDup (ps1 ++ ps2) -> length (ps1 ++ ps2) = length ns ->
  Forall (fun nd => is_Some (rpn_op nd)) ns ->
  erase <$> h2 = erase <$> link (ps1 ++ ps2) ns h0 ->
  (length ps2 <= fuel)%nat ->
  is_Some (rpn_run pow fuel st (head ps2) h2 w).
Proof.
  induction ps2 as [|p ps2 IH]; intros ps1 h2 st w fuel Hnd Hl Hops He Hf.
  - by destruct fuel.
  - destruct fuel as [|fuel]; [simpl in Hf; lia|]. cbn [head rpn_run].
    assert ((ps1 ++ p :: ps2) !! length ps1 = Some p) as Hi
      by (by rewrite lookup_app_r, Nat.sub_diag by lia).
    destruct (lookup_lt_is_Some_2 ns (length ps1)) as [nd Hn].
    { rewrite <- Hl, length_app. simpl. lia. }
    pose proof (link_lookup _ _ h0 _ _ _ Hnd Hi Hn) as Hlk.
    assert ((ps1 ++ p :: ps2) !! S (length ps1) = head ps2) as Hnext.
    { rewrite lookup_app_r by lia.
      replace (S (length ps1) - length ps1)%nat with 1%nat by lia. by destruct ps2. }
    rewrite Hnext in Hlk.
    assert ((erase <$> h2) !! p = Some (erase (set_next nd (head ps2)))) as Hp
      by (by rewrite He, lookup_fmap, Hlk).
    rewrite lookup_fmap in Hp. destruct (h2 !! p) as [me|] eqn:Hme; [|done].
    apply (inj Some) in Hp.
    assert (rpn_op me = rpn_op nd) as Hop.
    { change (rpn_op (erase me) = rpn_op (erase (set_next nd (head ps2)))).
      by rewrite Hp. }
    assert (rpn_next me = head ps2) as Hnx.
    { change (rpn_next (erase me) = rpn_next (erase (set_next nd (head ps2)))).
      by rewrite Hp. }
    destruct (proj1 (Forall_lookup _ _) Hops _ _ Hn) as [o Ho].
    destruct (call pow st p h2 w) as [[[[r1 st1] h1] w1]|] eqn:Ec.
    + destruct (r1 <? 0); [by eexists|].
      assert (next_of h1 p = head ps2) as ->.
      { unfold call in Ec. rewrite Hme, Hop, Ho in Ec.
        pose proof (run_op_erase pow o st p me w) as Hr.
        destruct (run_op pow o st p me w) as [[[r s1] m1] w2]. cbn [fst snd] in Hr.
        injection Ec as <- <- <- <-. unfold next_of. rewrite lookup_insert_eq.
        change (rpn_next (erase m1) = head ps2). by rewrite Hr. }
      apply (IH (ps1 ++ [p])).
      * by rewrite <- app_assoc.
      * by rewrite <- app_assoc.
      * done.
      * rewrite <- app_assoc. simpl. rewrite <- He. by eapply call_erase.
      * simpl in Hf. lia.
    + unfold call in Ec. rewrite Hme, Hop, Ho in Ec.
      by destruct (run_op pow o st p me w) as [[[r s1] m1] w2].
Qed.

(** X14.  A run of a chain that [rpn_parse] returned always returns, on
    any well-formed stack and in any world, also after earlier runs and
    timers have changed the states of its nodes: it never reads a node
    that is not allocated, never calls a node without a function, and
    never goes round.  One step for each token of the source is enough, so
    one for each character is, and more steps give the same result.  The
    stack it leaves is well formed again. *)
Theorem compiled_chain_run_returns pow src dat (h : heap) root h1 h2 st w :
  rpn_parse src dat h = Some (root, h1) ->
  erase <$> h2 = erase <$> h1 ->
  stack_ok st ->
  (length (strtok_all blanks src) <= String.length src)%nat
  /\ exists ret st' h' w',
       stack_ok st'
       /\ forall fuel, (length (strtok_all blanks src) <= fuel)%nat ->
                       rpn_run pow fuel st root h2 w = Some (ret, st', h', w').
Proof.
  intros Hp He Hok. split; [apply strtok_loop_length|].
  destruct (rpn_parse_shape _ _ _ _ _ Hp) as [-> | (ps & ns & Hch & Hops & Hl)].
  - exists 0, st, h2, w. split; [done|]. by intros [|fuel].
  - destruct Hch as (Hnd & _ & Hlen & -> & ->). rewrite <- Hl.
    destruct (run_chain_returns pow h ns ps [] h2 st w (length ps))
      as [[[[ret st'] h'] w'] Hres]; try done.
    exists ret, st', h', w'. split.
    + by destruct (rpn_run_depth _ _ _ _ _ _ _ _ _ _ Hok Hres) as [? _].
    + intros fuel Hf. by eapply rpn_run_more_fuel.
Qed.

(** ** [mystrtod] *)

Lemma unit_facts u :
  is_unit u = true ->
  is_digit u = false /\ Ascii.eqb u "." = false
  /\ Ascii.eqb (to_lower u) "x" = false /\ Ascii.eqb (to_lower u) "e" = false
  /\ Ascii.eqb u NUL = false
  /\ forall x, mystrtod_unit u x = Some (in_seconds u x).
Proof.
  destruct u as [[] [] [] [] [] [] [] []]; vm_compute; intros; try done.
Qed.

(** [strtod] on digits that a character follows which cannot go on the
    number. *)
Lemma strtod_digits_then a rest :
  is_digits a = true ->
  is_digit (chr rest 0) = false -> Ascii.eqb (chr rest 0) "." = false ->
  Ascii.eqb (to_lower (chr rest 0)) "x" = false ->
  Ascii.eqb (to_lower (chr rest 0)) "e" = false ->
  strtod (a +:+ rest) = (decimal_value a, rest).
Proof.
  unfold is_digits. intros Ha Hd Hdot Hx He.
  apply andb_prop in Ha as [Hne Ha].
  destruct a as [|c a]; [done|]. clear Hne.
  pose proof Ha as Ha'. simpl in Ha'. apply andb_prop in Ha' as [Hc Ha'].
  destruct (is_digit_facts c Hc) as (Hsp & Hm & Hp & _).
  assert (strtod_hex (String c a +:+ rest) = None) as Hhex.
  { unfold strtod_hex. rewrite str_app_cons.
    assert (Ascii.eqb (to_lower (chr (String c (a +:+ rest)) 1)) "x" = false) as ->.
    { unfold chr. simpl. destruct a as [|c' a].
      - rewrite str_app_nil_l. destruct rest; [done|]. unfold chr in Hx. by simpl in Hx.
      - rewrite str_app_cons. simpl. simpl in Ha'. apply andb_prop in Ha' as [Hc' _].
        by destruct (is_digit_facts c' Hc') as (_ & _ & _ & ?). }
    by rewrite andb_false_r. }
  assert (strtod_dec (String c a +:+ rest) = Some (decimal_value (String c a), rest))
    as Hdec.
  { unfold strtod_dec, strtod_mantissa. rewrite (span_digits _ _ Ha Hd), Hdot.
    rewrite str_app_nil_r. simpl String.length.
    assert (strtod_exponent "e" rest = (0, rest)) as ->.
    { unfold strtod_exponent. destruct rest as [|r0 rest]; [done|].
      unfold chr in He. simpl in He. by rewrite He. }
    f_equal. f_equal. unfold double_of_decimal, decimal_value.
    simpl (0 - Z.of_nat 0). change (0 <=? 0) with true. cbv iota.
    destruct (digits_val 10 (String c a) =? 0) eqn:Ez.
    - apply Z.eqb_eq in Ez. by rewrite Ez.
    - by rewrite Z.pow_0_r, Z.mul_1_r. }
  unfold strtod. rewrite str_app_cons. simpl (span isspace _). rewrite Hsp.
  simpl snd. unfold strtod_sign. rewrite Hm, Hp, <- str_app_cons.
  by rewrite Hhex, Hdec.
Qed.

Lemma digits_head a rest :
  is_digits a = true ->
  Ascii.eqb (chr (a +:+ rest) 0) NUL = false /\ (1 <= String.length a)%nat.
Proof.
  unfold is_digits. intros Ha. apply andb_prop in Ha as [Hne Ha].
  destruct a as [|c a]; [done|]. simpl in Ha. apply andb_prop in Ha as [Hc _].
  rewrite str_app_cons. split; [|simpl; lia].
  unfold chr. simpl. by destruct c as [[] [] [] [] [] [] [] []].
Qed.

(** One turn of the loop on a number with a unit behind it. *)
Lemma mystrtod_loop_part fuel str value a u tail e :
  is_digits a = true -> is_unit u = true ->
  (String.length (a +:+ String u tail) <= String.length str)%nat ->
  mystrtod_loop (S fuel) str value (At (a +:+ String u tail)) e
  = mystrtod_loop fuel str (value + in_seconds u (decimal_value a))%float (At tail)
      (Some false).
Proof.
  intros Ha Hu Hl. destruct (unit_facts u Hu) as (Hd & Hdot & Hx & He & Hn & Hs).
  destruct (digits_head a (String u tail) Ha) as [Hh Hla].
  cbn [mystrtod_loop]. rewrite Hh.
  rewrite (strtod_digits_then a (String u tail) Ha) by done.
  rewrite string_length_app in *. simpl String.length in *.
  assert ((S (String.length tail) =? String.length str)%nat = false) as ->
    by (apply Nat.eqb_neq; lia).
  assert ((String.length a + S (String.length tail) <=? S (String.length tail))%nat = false)
    as -> by (apply Nat.leb_gt; lia).
  change (chr (String u tail) 0) with u. by rewrite Hs.
Qed.

Lemma spell_parts_length parts :
  Forall (fun p => is_digits p.1 = true /\ is_unit p.2 = true) parts ->
  (2 * length parts <= String.length (spell_parts parts))%nat.
Proof.
  induction 1 as [|[a u] parts [Ha _] _ IH]; [simpl; lia|].
  simpl in *. rewrite string_length_app. simpl.
  destruct (digits_head a "" Ha) as [_ ?]. lia.
Qed.

(** The turns of the loop on parts in a row. *)
Lemma mystrtod_loop_parts str tail parts :
  forall fuel value e,
  Forall (fun p => is_digits p.1 = true /\ is_unit p.2 = true) parts ->
  (String.length (spell_parts parts +:+ tail) <= String.length str)%nat ->
  mystrtod_loop (length parts + fuel) str value (At (spell_parts parts +:+ tail)) e
  = mystrtod_loop fuel str (add_parts parts value) (At tail)
      (match parts with [] => e | _ => Some false end).
Proof.
  induction parts as [|[a u] parts IH]; intros fuel value e Hall Hl.
  - by rewrite str_app_nil_l.
  - apply Forall_cons in Hall as [[Ha Hu] Hall]. simpl in Ha, Hu.
    cbn [spell_parts length Nat.add] in *.
    rewrite str_app_assoc, str_app_cons in *.
    rewrite (mystrtod_loop_part _ _ _ _ _ _ _ Ha Hu Hl).
    rewrite IH; [| done |].
    + by destruct parts.
    + rewrite string_length_app in Hl. simpl in Hl. lia.
Qed.

(** X15.  [mystrtod] on a duration written as one or more parts, each a
    number of decimal digits with one of the units w, d, h, m and s
    behind it, returns the sum of the parts in seconds, added in the
    order written; a week is multiplied by 7, 24, 60 and 60 in turn, and
    so on down.  What [*endp] held at the call makes no difference.
    "1h30m" is 5400 and "1w" is 604800. *)
Theorem mystrtod_adds_parts parts e :
  parts <> [] ->
  Forall (fun p => is_digits p.1 = true /\ is_unit p.2 = true) parts ->
  mystrtod (Some (spell_parts parts)) e = Some (add_parts parts 0%float)
  /\ mystrtod (Some "1h30m"%string) None = Some 5400%float
  /\ mystrtod (Some "1w"%string) None = Some 604800%float.
Proof.
  intros Hne Hall. split; [|split; vm_compute; reflexivity].
  unfold mystrtod. pose proof (spell_parts_length parts Hall) as Hlen.
  replace (S (String.length (spell_parts parts)))
    with (length parts + S (String.length (spell_parts parts) - length parts))%nat by lia.
  rewrite <- (str_app_nil_r (spell_parts parts)) at 3.
  rewrite mystrtod_loop_parts; [| done | by rewrite str_app_nil_r].
  destruct parts; done.
Qed.

(** More fuel does not change a result. *)
Lemma mystrtod_loop_more_fuel fuel :
  forall fuel' str value strpos e r,
  mystrtod_loop fuel str value strpos e = Some r -> (fuel <= fuel')%nat ->
  mystrtod_loop fuel' str value strpos e = Some r.
Proof.
  induction fuel as [|fuel IH]; intros fuel' str value strpos e r E Hf; [done|].
  destruct fuel' as [|fuel']; [lia|]. cbn [mystrtod_loop] in *.
  destruct strpos as [s|]; [|done].
  destruct (Ascii.eqb (chr s 0) NUL); [done|].
  destruct (strtod s) as [part endp].
  destruct (String.length s <=? String.length endp)%nat; [done|].
  destruct (mystrtod_unit (chr endp 0) part); [|done].
  apply IH; [done | lia].
Qed.

(** X16.  [mystrtod] on a string that ends in a number without a unit
    (a plain number as "5", or "1h30") steps over the terminator:
    behind the last number it finds the terminator, takes it for the end
    of a part, and goes on one character behind it, so the loop reads the
    character behind the terminator, which is not part of the string.
    The model has no result for it, with however many turns. *)
Theorem mystrtod_reads_behind_terminator parts a e fuel :
  Forall (fun p => is_digits p.1 = true /\ is_unit p.2 = true) parts ->
  is_digits a = true ->
  let str := spell_parts parts +:+ a in
  mystrtod_loop fuel str 0%float (At str) e = None
  /\ mystrtod (Some str) e = None.
Proof.
  intros Hall Ha str.
  assert (forall k, mystrtod_loop (length parts + (2 + k)) str 0%float (At str) e = None)
    as Hbig.
  { intros k. unfold str at 2. rewrite mystrtod_loop_parts by done.
    destruct (digits_head a "" Ha) as [Hh Hla]. rewrite str_app_nil_r in Hh.
    cbn [mystrtod_loop Nat.add]. rewrite Hh.
    rewrite <- (str_app_nil_r a) at 1.
    rewrite (strtod_digits_then a "" Ha) by done.
    assert ((String.length a <=? String.length "")%nat = false) as ->
      by (apply Nat.leb_gt; simpl; lia).
    done. }
  assert (forall n, mystrtod_loop n str 0%float (At str) e = None) as Hall'.
  { intros n. destruct (Nat.le_ge_cases n (length parts + (2 + 0))) as [Hle | Hge].
    - destruct (mystrtod_loop n str 0%float (At str) e) as [r|] eqn:E; [|done].
      pose proof (Hbig 0%nat) as H0.
      by rewrite (mystrtod_loop_more_fuel _ _ _ _ _ _ _ E Hle) in H0.
    - replace n with (length parts + (2 + (n - length parts - 2)))%nat by lia.
      apply Hbig. }
  split; [apply Hall' | apply Hall'].
Qed.

Lemma no_unit_facts x :
  no_unit x = true ->
  is_digit x = false /\ Ascii.eqb x "." = false
  /\ Ascii.eqb (to_lower x) "x" = false /\ Ascii.eqb (to_lower x) "e" = false
  /\ forall part, mystrtod_unit x part = None.
Proof.
  destruct x as [[] [] [] [] [] [] [] []]; vm_compute; intros; try done.
Qed.

(** X17.  What [mystrtod] makes of a string that is not a duration.  A
    number with a character behind it that is no unit ends the scan, and
    the number is not added: the result is the sum of the parts before
    it, so "5x" gives 0 and not 5.  When [strtod] converts nothing at the
    start of the string, the result is not a number.  For a NULL string
    it is not a number either.  For the empty string the loop is not
    entered and the result hangs on what [*endp] held at the call: not a
    number when that was [str], 0 when it was something else, and
    undefined when it held no value, as for a NULL [endp]. *)
Theorem mystrtod_not_a_duration parts a x tail s e :
  Forall (fun p => is_digits p.1 = true /\ is_unit p.2 = true) parts ->
  is_digits a = true -> no_unit x = true ->
  Ascii.eqb (chr s 0) NUL = false -> (strtod s).2 = s ->
  mystrtod (Some (spell_parts parts +:+ a +:+ String x tail)) e
  = Some (add_parts parts 0%float)
  /\ mystrtod (Some "5x"%string) e = Some 0%float
  /\ mystrtod (Some s) e = Some nan
  /\ mystrtod None e = Some nan
  /\ mystrtod (Some ""%string) e = mystrtod_done e 0%float.
Proof.
  intros Hall Ha Hx Hs Hconv.
  destruct (no_unit_facts x Hx) as (Hd & Hdot & Hxx & He & Hu).
  assert (forall parts, Forall (fun p => is_digits p.1 = true /\ is_unit p.2 = true) parts ->
          mystrtod (Some (spell_parts parts +:+ a +:+ String x tail)) e
          = Some (add_parts parts 0%float)) as Hgen.
  { clear parts Hall. intros parts Hall. unfold mystrtod.
    set (str := spell_parts parts +:+ a +:+ String x tail).
    pose proof (spell_parts_length parts Hall) as Hlen.
    destruct (digits_head a (String x tail) Ha) as [Hh Hla].
    assert (String.length str
            = (String.length (spell_parts parts) + (String.length a + S (String.length tail)))%nat)
      as Hstr by (unfold str; by rewrite !string_length_app).
    replace (S (String.length str))
      with (length parts + S (String.length str - length parts))%nat by lia.
    unfold str at 3. rewrite mystrtod_loop_parts by done.
    cbn [mystrtod_loop]. rewrite Hh.
    rewrite (strtod_digits_then a (String x tail) Ha) by done.
    rewrite string_length_app. simpl String.length.
    assert ((S (String.length tail) =? String.length str)%nat = false) as ->
      by (apply Nat.eqb_neq; lia).
    assert ((String.length a + S (String.length tail) <=? S (String.length tail))%nat = false)
      as -> by (apply Nat.leb_gt; lia).
    change (chr (String x tail) 0) with x. by rewrite Hu. }
  split; [by apply Hgen|]. split; [|split; [|done]].
  - destruct e as [[]|]; vm_compute; reflexivity.
  - unfold mystrtod. cbn [mystrtod_loop]. rewrite Hs.
    destruct (strtod s) as [part endp]. simpl in Hconv. subst endp.
    by rewrite Nat.leb_refl, Nat.eqb_refl.
Qed.

(** ** [test_suffix] *)

Lemma str_drop_app (a b : string) : str_drop (String.length a) (a +:+ b) = b.
Proof.
  induction a as [|c a IH]; [by rewrite str_app_nil_l|].
  rewrite str_app_cons. simpl. apply IH.
Qed.

Lemma str_drop_split n (s : string) :
  (n <= String.length s)%nat ->
  exists pre, s = pre +:+ str_drop n s /\ String.length pre = n.
Proof.
  revert s. induction n as [|n IH]; intros s Hn.
  - exists EmptyString. by rewrite str_app_nil_l.
  - destruct s as [|c s]; [simpl in Hn; lia|].
    destruct (IH s) as (pre & E & Hl); [simpl in Hn; lia|].
    exists (String c pre). rewrite str_app_cons. simpl. split; [by rewrite <- E | lia].
Qed.

Lemma int_of_size_small z : - 2 ^ 31 <= z < 2 ^ 31 -> int_of_size z = z.
Proof. intros Hz. unfold int_of_size. rewrite Z.mod_small; lia. Qed.

(** X18.  [test_suffix] answers 1 when [topic] ends in [suffix] and 0
    when it does not, for strings shorter than 2^31 characters.  A NULL
    [suffix] counts as the empty one, in which every topic ends.  A NULL
    [topic] does not end in a suffix that is not empty; with an empty or
    NULL suffix the comparison reads from NULL. *)
Theorem test_suffix_spec (topic suffix : string) :
  Z.of_nat (String.length topic) < 2 ^ 31 ->
  Z.of_nat (String.length suffix) < 2 ^ 31 ->
  (exists r, test_suffix (Some topic) (Some suffix) = Some r
             /\ (r = 0 \/ r = 1)
             /\ (r = 1 <-> exists pre, topic = pre +:+ suffix))
  /\ test_suffix (Some topic) None = Some 1
  /\ (suffix <> EmptyString -> test_suffix None (Some suffix) = Some 0)
  /\ test_suffix None (Some EmptyString) = None
  /\ test_suffix None None = None.
Proof.
  intros Ht Hs. split; [|split; [|split; [|split; reflexivity]]].
  - unfold test_suffix. cbn [default from_option id].
    rewrite int_of_size_small by lia.
    destruct (Z.ltb_spec (Z.of_nat (String.length topic) - Z.of_nat (String.length suffix)) 0)
      as [Hneg | Hpos].
    + exists 0. split; [done|]. split; [by left|]. split; [done|].
      intros [pre ->]. rewrite string_length_app in Hneg. lia.
    + assert ((Z.of_nat (String.length topic)
               <? Z.of_nat (String.length topic) - Z.of_nat (String.length suffix)) = false)
        as -> by (apply Z.ltb_ge; lia).
      set (n := Z.to_nat (Z.of_nat (String.length topic) - Z.of_nat (String.length suffix))).
      eexists. split; [reflexivity|].
      destruct (String.eqb_spec (str_drop n topic) suffix) as [E | Hne].
      * split; [by right|]. split; [|done]. intros _.
        destruct (str_drop_split n topic) as (pre & Ep & _); [lia|].
        exists pre. by rewrite <- E.
      * split; [by left|]. split; [done|]. intros [pre ->]. exfalso. apply Hne.
        subst n. rewrite string_length_app.
        replace (Z.to_nat (Z.of_nat (String.length pre + String.length suffix)
                           - Z.of_nat (String.length suffix)))
          with (String.length pre) by lia.
        apply str_drop_app.
  - unfold test_suffix. cbn [default from_option id]. simpl String.length.
    rewrite int_of_size_small by lia.
    assert ((Z.of_nat (String.length topic) - Z.of_nat 0 <? 0) = false) as ->
      by (apply Z.ltb_ge; lia).
    assert ((Z.of_nat (String.length topic) <? Z.of_nat (String.length topic) - Z.of_nat 0)
            = false) as -> by (apply Z.ltb_ge; lia).
    replace (Z.to_nat (Z.of_nat (String.length topic) - Z.of_nat 0))
      with (String.length topic) by lia.
    rewrite <- (str_app_nil_r topic) at 2. by rewrite str_drop_app.
  - intros Hne. unfold test_suffix. cbn [default from_option id]. simpl (String.length "").
    rewrite int_of_size_small by lia.
    destruct suffix as [|c suffix]; [done|].
    assert ((Z.of_nat 0 - Z.of_nat (String.length (String c suffix)) <? 0) = true) as ->
      by (apply Z.ltb_lt; simpl String.length; lia).
    done.
Qed.

(** ** Instances *)

(** The chain of "3 4 +" run on a stack without storage and on one whose
    three cells hold what an earlier run left. *)
Lemma run_ignores_stale_cells_witness :
  let h : heap :=
    link [1; 2; 3]%positive
      [node_of 0 (Num "3"); node_of 0 (Num "4"); node_of 0 (Op do_plus)] ∅ in
  let st1' := drop (poke (rpn_push (rpn_push stack_init 3) 4) 2 7) 1 in
  exists st2',
    rpn_run (fun x _ => x) 3 (Stack [9; 9; 9]%float 0 3) (Some 1%positive) h world0
    = Some (0, st2', h, world0)
    /\ same_values st1' st2'.
Proof.
  intros h st1'.
  refine (run_ignores_stale_cells (fun x _ => x) 3 stack_init (Stack [9; 9; 9]%float 0 3)
            (Some 1%positive) h world0 0 st1' h world0 _ _).
  - unfold same_values, stack_ok. simpl. repeat split; lia.
  - vm_compute. reflexivity.
Defined.

(** A node of [rising] alone in the heap, evaluated with 1 on the stack. *)
Lemma run_changes_only_state_witness :
  let me := Rpn None (Some do_rising) 0 None None 0 0 in
  let h : heap := {[1%positive := me]} in
  let h' : heap := <[1%positive := set_cookie me 1]> h in
  erase <$> h' = erase <$> h /\ dom h' = dom h
  /\ (forall k h'' w'', libt_fire k h' world0 = Some (h'', w'') ->
        erase <$> h'' = erase <$> h).
Proof.
  intros me h h'.
  refine (run_changes_only_state (fun x _ => x) 1 (rpn_push stack_init 1)
            (Some 1%positive) h world0 0 (poke (rpn_push stack_init 1) 1 1) h' world0 _).
  vm_compute. reflexivity.
Defined.

(** A constant alone in the heap: two passes in a row. *)
Lemma stateless_pass_repeats_witness :
  let me := Rpn None (Some do_const) 0 None None 5 0 in
  let h : heap := {[1%positive := me]} in
  let input : option string -> rpn -> float := fun _ _ => 0%float in
  let c1 := (rpn_push (rpn_stack_reset stack_init) 5, h, world0) in
  c1.1.2 = h /\ timers c1.2 = timers world0 /\ woken c1.2 = woken world0
  /\ exists c2, pass (fun x _ => x) 1 (Some 1%positive) input c1
                = Some (0, [5%float], c2).
Proof.
  intros me h input c1.
  refine (stateless_pass_repeats (fun x _ => x) 1 (Some 1%positive) input stack_init
            h world0 0 [5%float] c1 _ _ _).
  - intros p nd o Hp Ho. apply lookup_singleton_Some in Hp as [_ <-].
    by injection Ho as <-.
  - unfold stack_ok. simpl. lia.
  - vm_compute. reflexivity.
Defined.

(** The chain of "ondelay" after a rising edge: the node is freed while
    its timer is pending. *)
Lemma freed_chain_leaves_timer_witness :
  let w := Sys [(5%float, on_delay_of 1%positive)] (Tm 0 0 0 0) (fun _ _ => 0%float) [] in
  (∅ : heap) !! 1%positive = None
  /\ libt_fire (on_delay_of 1%positive) ∅ w = None.
Proof.
  intros w.
  refine (freed_chain_leaves_timer "ondelay" 0 ∅ (Some 1%positive)
            {[1%positive := Rpn None (Some do_ondelay) 0 None None 0 0]}
            {[1%positive := Rpn None (Some do_ondelay) 0 None None 0 1]}
            ∅ 1%positive w _ _ _ _ _ _).
  - vm_compute. reflexivity.
  - vm_compute. reflexivity.
  - reflexivity.
  - by eexists.
  - reflexivity.
  - vm_compute. reflexivity.
Defined.

(** A node of [offdelay] alone in the heap: the input goes high, drops
    and stays low, the timer fires, and the next evaluation gives 0. *)
Lemma offdelay_holds_until_timer_witness :
  let me := Rpn None (Some do_offdelay) 9 None None 0 0 in
  play (fun x _ => x) 1%positive
    [Evaluate 1 5; Evaluate 0 5; Evaluate 0 5; Fire; Evaluate 0 5]
    ({[1%positive := me]}, world0)
  = Some ([Some [1%float]; Some [1%float]; Some [1%float]; None; Some [0%float]],
          ({[1%positive := me]}, rpn_run_again 9 world0)).
Proof.
  intros me.
  refine (proj1 (proj2 (proj2
    (offdelay_holds_until_timer (fun x _ => x) 1%positive me {[1%positive := me]} world0
       1%float 5%float [] 0%float 5%float [(0%float, 5%float)] [(0%float, 5%float)]
       1%float 5%float _ _ _ _ _ _ _ _ _ _)))).
  - reflexivity.
  - reflexivity.
  - reflexivity.
  - reflexivity.
  - reflexivity.
  - constructor.
  - reflexivity.
  - repeat constructor.
  - repeat constructor.
  - reflexivity.
Defined.

(** The bounds 1 and 5 and the input 7. *)
Lemma limit_clamps_witness :
  exists st' r,
    rpn_do_limit (Stack [7; 1; 5]%float 3 3) = (1, st') /\ stack_ok st'
    /\ contents st' = [] ++ [r]
    /\ (PrimFloat.leb 1 5 = true -> is_number_d 7 = true ->
        PrimFloat.leb 1 r = true /\ PrimFloat.leb r 5 = true
        /\ (PrimFloat.leb 1 7 = true -> PrimFloat.leb 7 5 = true -> r = 7%float))
    /\ (is_number_d 7 = false -> r = 7%float)
    /\ (PrimFloat.ltb 5 1 = true -> PrimFloat.ltb 7 1 = true ->
        r = 1%float /\ PrimFloat.ltb 5 r = true).
Proof.
  refine (limit_clamps (Stack [7; 1; 5]%float 3 3) [] 7%float 1%float 5%float _ _).
  - unfold stack_ok. simpl. lia.
  - reflexivity.
Defined.

(** The three operators on fresh nodes, with 1 on the stack. *)
Lemma edge_covers_rising_and_falling_witness :
  let st := rpn_push stack_init 1 in
  let v := int_of_double 1 in
  let c := rpn_cookie rpn_zero in
  let e := negb (v =? c) in
  let r := negb (v =? 0) && (c =? 0) in
  let f := (v =? 0) && negb (c =? 0) in
  exists se sr sf,
    rpn_do_edge st rpn_zero = (0, se, set_cookie rpn_zero v)
    /\ rpn_do_rising st rpn_zero = (0, sr, set_cookie rpn_zero v)
    /\ rpn_do_falling st rpn_zero = (0, sf, set_cookie rpn_zero v)
    /\ contents se = [] ++ [truth e] /\ contents sr = [] ++ [truth r]
    /\ contents sf = [] ++ [truth f]
    /\ r && f = false
    /\ (r || f = true -> e = true)
    /\ (e && negb (r || f) = true <-> v <> 0 /\ c <> 0 /\ v <> c)
    /\ (forall st2 l2, stack_ok st2 -> contents st2 = l2 ++ [1%float] ->
        exists se2 sr2 sf2,
          rpn_do_edge st2 (set_cookie rpn_zero v) = (0, se2, set_cookie rpn_zero v)
          /\ rpn_do_rising st2 (set_cookie rpn_zero v) = (0, sr2, set_cookie rpn_zero v)
          /\ rpn_do_falling st2 (set_cookie rpn_zero v) = (0, sf2, set_cookie rpn_zero v)
          /\ contents se2 = l2 ++ [0%float] /\ contents sr2 = l2 ++ [0%float]
          /\ contents sf2 = l2 ++ [0%float]).
Proof.
  intros st.
  refine (edge_covers_rising_and_falling st rpn_zero [] 1%float _ _).
  - unfold stack_ok. simpl. lia.
  - reflexivity.
Defined.

(** The alias [pushed]. *)
Lemma every_table_entry_is_reachable_witness :
  is_number "pushed" = false /\ is_env "pushed" = false
  /\ do_lookup "pushed" = Some do_rising
  /\ rpn_parse "pushed" 7 ∅
     = Some (Some (fresh (dom (∅ : heap))),
             <[fresh (dom (∅ : heap)) := Rpn None (Some do_rising) 7 None None 0 0]> ∅).
Proof.
  refine (every_table_entry_is_reachable "pushed" do_rising 7 ∅ _).
  unfold lookups. do 25 (apply elem_of_cons; right). apply elem_of_cons. by left.
Defined.

(** A reference with a comma in its topic. *)
Lemma reference_splits_at_last_comma_witness :
  let p := fresh (dom (∅ : heap)) in
  let with_options := Rpn None (Some do_env) 0 (Some "a,b"%string) (Some "x=1"%string) 0 0 in
  let without := Rpn None (Some do_env) 0 (Some "x=1"%string) None 0 0 in
  parse_token "${a,b,x=1}" ∅ = Some (p, <[p := with_options]> ∅)
  /\ parse_token "${x=1}" ∅ = Some (p, <[p := without]> ∅)
  /\ rpn_do_env stack_init with_options world0
     = (0, rpn_push stack_init (env world0 (Some "a,b"%string) with_options))
  /\ rpn_do_env stack_init without world0
     = (0, rpn_push stack_init (env world0 (Some "x=1"%string) without)).
Proof.
  exact (reference_splits_at_last_comma "a,b" "x=1" ∅ stack_init world0 eq_refl).
Defined.

Lemma splits_3_4_plus_wide : splits " 3	4 + " ["3"; "4"; "+"]%string.
Proof.
  apply (splits_cons " " "3" (String TAB "4 + ")); [done | done | done | by right |].
  apply (splits_cons (String TAB "") "4" " + "); [done | done | done | by right |].
  apply (splits_cons " " "+" " "); [done | done | done | by right |].
  by apply splits_nil.
Qed.

(** The source "3 4 +", spaced in two ways. *)
Lemma only_tokens_matter_witness :
  rpn_parse "3 4 +" 0 ∅ = rpn_parse " 3	4 + " 0 ∅.
Proof.
  exact (proj1 (only_tokens_matter (fun x _ => x) "3 4 +" " 3	4 + "
                  ["3"; "4"; "+"]%string 0 ∅ splits_3_4_plus splits_3_4_plus_wide)).
Defined.


(** A fresh node of [pulse], with the input 1 and the delay 5. *)
Lemma delay_state_is_two_bits_witness :
  let me := Rpn None (Some do_pulse) 9 None None 0 0 in
  let st := Stack [1; 5]%float 2 2 in
  exists st' c' w',
    run_op (fun x _ => x) do_pulse st 1%positive me world0 = (0, st', set_cookie me c', w')
    /\ contents st' = [] ++ [truth (Z.testbit c' 1)]
    /\ Z.testbit c' 0 = nonzero 1
    /\ (forall n, 2 <= n -> Z.testbit c' n = Z.testbit (rpn_cookie me) n)
    /\ (0 <= rpn_cookie me < 4 -> 0 <= c' < 4)
    /\ (rising_edge (rpn_cookie me) 1 = false -> falling_edge (rpn_cookie me) 1 = false ->
        set_cookie me c' = me /\ w' = world0)
    /\ (forall q, q <> on_delay_of 1%positive ->
        pending q (timers w') = pending q (timers world0)).
Proof.
  intros me st.
  refine (proj1 (delay_state_is_two_bits (fun x _ => x) do_pulse st 1%positive me world0
                   1%float 5%float [] _ _ _)).
  - by right; right.
  - unfold stack_ok. simpl. lia.
  - reflexivity.
Defined.

(** The chain of "3 4 +", as compiled, on a stack without storage. *)
Lemma compiled_chain_run_returns_witness :
  let h : heap :=
    link [1; 2; 3]%positive
      [node_of 0 (Num "3"); node_of 0 (Num "4"); node_of 0 (Op do_plus)] ∅ in
  (length (strtok_all blanks "3 4 +") <= String.length "3 4 +")%nat
  /\ exists ret st' h' w',
       stack_ok st'
       /\ forall fuel, (length (strtok_all blanks "3 4 +") <= fuel)%nat ->
                       rpn_run (fun x _ => x) fuel stack_init (Some 1%positive) h world0
                       = Some (ret, st', h', w').
Proof.
  intros h.
  refine (compiled_chain_run_returns (fun x _ => x) "3 4 +" 0 ∅ (Some 1%positive) h h
            stack_init world0 _ _ _).
  - vm_compute. reflexivity.
  - reflexivity.
  - unfold stack_ok. simpl. lia.
Defined.

(** Two days and thirty minutes. *)
Lemma mystrtod_adds_parts_witness :
  mystrtod (Some (spell_parts [("2"%string, "d"%char); ("30"%string, "m"%char)])) None
  = Some (add_parts [("2"%string, "d"%char); ("30"%string, "m"%char)] 0%float).
Proof.
  refine (proj1 (mystrtod_adds_parts [("2"%string, "d"%char); ("30"%string, "m"%char)] None _ _)).
  - discriminate.
  - repeat constructor.
Defined.

(** One hour and thirty of no unit. *)
Lemma mystrtod_reads_behind_terminator_witness :
  mystrtod_loop 100 "1h30" 0%float (At "1h30") None = None
  /\ mystrtod (Some "1h30"%string) None = None.
Proof.
  refine (mystrtod_reads_behind_terminator [("1"%string, "h"%char)] "30" None 100 _ _).
  - repeat constructor.
  - reflexivity.
Defined.

(** One hour and five of the unit y; a string of letters. *)
Lemma mystrtod_not_a_duration_witness :
  mystrtod (Some "1h5y"%string) (Some false) = Some (add_parts [("1"%string, "h"%char)] 0%float)
  /\ mystrtod (Some "5x"%string) (Some false) = Some 0%float
  /\ mystrtod (Some "abc"%string) (Some false) = Some nan
  /\ mystrtod None (Some false) = Some nan
  /\ mystrtod (Some ""%string) (Some false) = mystrtod_done (Some false) 0%float.
Proof.
  refine (mystrtod_not_a_duration [("1"%string, "h"%char)] "5" "y"%char "" "abc" (Some false)
            _ _ _ _ _).
  - repeat constructor.
  - reflexivity.
  - reflexivity.
  - reflexivity.
  - reflexivity.
Defined.

(** A topic of mqttled with its suffix. *)
Lemma test_suffix_spec_witness :
  (exists r, test_suffix (Some "home/led/ledhw"%string) (Some "/ledhw"%string) = Some r
             /\ (r = 0 \/ r = 1)
             /\ (r = 1 <-> exists pre : string, "home/led/ledhw"%string = pre +:+ "/ledhw"))
  /\ test_suffix (Some "home/led/ledhw"%string) None = Some 1
  /\ ("/ledhw"%string <> EmptyString -> test_suffix None (Some "/ledhw"%string) = Some 0)
  /\ test_suffix None (Some EmptyString) = None
  /\ test_suffix None None = None.
Proof.
  refine (test_suffix_spec "home/led/ledhw" "/ledhw" _ _).
  - reflexivity.
  - reflexivity.
Defined.
